(** * sudoai-mvp: the upload orchestrator and the job poller

    A shallow embedding of the client code of the repository:
    - the API client class [APIClient] (multipart upload, job endpoints),
    - the thin wrappers of [app/lib/api.ts],
    - the polling loop and the dispatcher of [components/FeaturePage.tsx],
      with the pollers that the dispatcher starts beside itself,
    - the picker of [components/TusUploader.tsx] and the panels of
      [features/MergePanel.tsx] and [features/RenamePanel.tsx].

    Numbers are JavaScript numbers used as integers (sizes, indices, HTTP
    status codes, milliseconds): they are modelled as [Z].  Strings are
    [string], with ASCII case mapping and white space.  The network, the
    upload library and the owner of a poller are the environment: what they
    do is a timeline of events that the code consumes, and everything the
    code does to the outside is appended to a log. *)

From Stdlib Require Import ZArith List String Ascii Bool Lia.
From stdpp Require Import base option list gmap strings pretty.

Local Open Scope string_scope.
Local Open Scope Z_scope.

(** ** JavaScript values and helpers *)

(** [x || d] on an optional number: [undefined], [0] (and [NaN]) are falsy. *)
Definition js_or (x : option Z) (d : Z) : Z :=
  match x with
  | Some v => if v =? 0 then d else v
  | None => d
  end.

(** [x || d] on an optional string: [undefined] and [""] are falsy. *)
Definition js_or_str (x : option string) (d : string) : string :=
  match x with
  | Some "" => d
  | Some s => s
  | None => d
  end.

(** [Blob.prototype.slice(start, end)] on a blob of [len] bytes: the byte
    range that the returned blob holds.  A negative bound counts from the
    end, bounds are clamped to the blob, an inverted range is empty. *)
Definition blob_clamp (len x : Z) : Z :=
  if x <? 0 then Z.max (len + x) 0 else Z.min x len.

Definition blob_slice (len start end_ : Z) : Z * Z :=
  let rs := blob_clamp len start in
  let re := blob_clamp len end_ in
  (rs, rs + Z.max (re - rs) 0).

(** *** Strings *)

Definition lower_ascii (c : ascii) : ascii :=
  let n := nat_of_ascii c in
  if (65 <=? n)%nat && (n <=? 90)%nat then ascii_of_nat (n + 32) else c.

(** [s.toLowerCase()] *)
Fixpoint toLowerCase (s : string) : string :=
  match s with
  | EmptyString => EmptyString
  | String c s' => String (lower_ascii c) (toLowerCase s')
  end.

Definition is_space (c : ascii) : bool :=
  let n := nat_of_ascii c in
  (n =? 32)%nat || ((9 <=? n)%nat && (n <=? 13)%nat).

Fixpoint trim_start (s : string) : string :=
  match s with
  | EmptyString => EmptyString
  | String c s' => if is_space c then trim_start s' else s
  end.

(** [s.trim()] *)
Definition trim (s : string) : string :=
  String.rev (trim_start (String.rev (trim_start s))).

(** [s.startsWith(p)] *)
Definition startsWith (p s : string) : bool := String.prefix p s.

(** [s.endsWith(p)] *)
Definition endsWith (p s : string) : bool :=
  String.prefix (String.rev p) (String.rev s).

(** [s.includes(p)] *)
Fixpoint includes (p s : string) : bool :=
  String.prefix p s ||
  match s with
  | EmptyString => false
  | String _ s' => includes p s'
  end.

(** [s.split('/')[0]] *)
Fixpoint first_segment (s : string) : string :=
  match s with
  | EmptyString => EmptyString
  | String c s' => if Ascii.eqb c "/" then EmptyString else String c (first_segment s')
  end.

(** *** JSON values

    The values [JSON.parse] yields; numbers are integers. *)
#[local] Unset Elimination Schemes.
Inductive Json :=
| JNull
| JBool (b : bool)
| JNum (n : Z)
| JStr (s : string)
| JArr (items : list Json)
| JObj (fields : list (string * Json)).
#[local] Set Elimination Schemes.

(** Errors thrown by the code or by the platform. *)
Inductive JsError :=
| Error (message : string)
| TypeError (message : string)
| SyntaxError (message : string)
| RangeError (message : string).

Fixpoint assoc (k : string) (fields : list (string * Json)) : option Json :=
  match fields with
  | [] => None
  | (k', v) :: rest => if String.eqb k' k then Some v else assoc k rest
  end.

(** [j.k]: a property read.  It throws on [null]; on an object it is the
    field or [undefined] ([None]); on the other values it is [undefined]
    for the keys the code reads. *)
Definition js_prop (j : Json) (k : string) : JsError + option Json :=
  match j with
  | JNull => inl (TypeError ("Cannot read properties of null (reading '" ++ k ++ "')"))
  | JObj fields => inr (assoc k fields)
  | _ => inr None
  end.

(** [JSON.stringify] of an object literal leaves out every property whose
    value is [undefined]. *)
Definition defined_fields (fields : list (string * option Json)) : list (string * Json) :=
  omap (λ kv, pair kv.1 <$> kv.2) fields.

(** Truthiness of a value that may be [undefined]. *)
Definition truthy (v : option Json) : bool :=
  match v with
  | None | Some JNull | Some (JBool false) | Some (JNum 0) | Some (JStr "") => false
  | Some _ => true
  end.

(** [String(v)], as a template literal does it. *)
Fixpoint js_string (j : Json) : string :=
  match j with
  | JNull => "null"
  | JBool true => "true"
  | JBool false => "false"
  | JNum n => pretty n
  | JStr s => s
  | JArr items =>
      (fix join (l : list Json) : string :=
         match l with
         | [] => ""
         | [x] => match x with JNull => "" | _ => js_string x end
         | x :: rest =>
             (match x with JNull => "" | _ => js_string x end) ++ "," ++ join rest
         end) items
  | JObj _ => "[object Object]"
  end.

Definition js_string_opt (v : option Json) : string :=
  match v with
  | Some j => js_string j
  | None => "undefined"
  end.

(** [a === b] on values that may be [undefined].  Primitives compare by
    value; two arrays or objects are the same only if they are one object,
    which the structure does not tell: they compare by structure here. *)
Fixpoint json_eqb (a b : Json) : bool :=
  match a, b with
  | JNull, JNull => true
  | JBool x, JBool y => Bool.eqb x y
  | JNum x, JNum y => x =? y
  | JStr x, JStr y => String.eqb x y
  | JArr xs, JArr ys =>
      (fix go (l1 l2 : list Json) : bool :=
         match l1, l2 with
         | [], [] => true
         | x :: l1', y :: l2' => json_eqb x y && go l1' l2'
         | _, _ => false
         end) xs ys
  | JObj xs, JObj ys =>
      (fix go (l1 l2 : list (string * Json)) : bool :=
         match l1, l2 with
         | [], [] => true
         | (k1, x) :: l1', (k2, y) :: l2' => String.eqb k1 k2 && json_eqb x y && go l1' l2'
         | _, _ => false
         end) xs ys
  | _, _ => false
  end.

Definition strict_eq (a b : option Json) : bool :=
  match a, b with
  | None, None => true
  | Some x, Some y => json_eqb x y
  | _, _ => false
  end.

(** [s.replace(/\/$/, "")]: one trailing slash is dropped. *)
Definition strip_trailing_slash (s : string) : string :=
  match String.rev s with
  | String "/" r => String.rev r
  | _ => s
  end.

(** [s.split(".").pop()]: what follows the last dot, or all of [s]. *)
Fixpoint after_last_dot_go (acc s : string) : string :=
  match s with
  | EmptyString => acc
  | String c s' =>
      if Ascii.eqb c "." then after_last_dot_go s' s'
      else after_last_dot_go acc s'
  end.

Definition after_last_dot (s : string) : string := after_last_dot_go s s.

(** [s.split(/\r?\n/)]; the carriage return before a line feed is left on
    the line, for [trim] to take. *)
Fixpoint split_lines_go (cur : string) (s : string) : list string :=
  match s with
  | EmptyString => [String.rev cur]
  | String c s' =>
      if Ascii.eqb c "010" then String.rev cur :: split_lines_go EmptyString s'
      else split_lines_go (String c cur) s'
  end.

Definition split_lines (s : string) : list string := split_lines_go EmptyString s.

(** [e?.message || String(e)] *)
Definition error_message (e : JsError) : string :=
  match e with
  | Error m => js_or_str (Some m) "Error"
  | TypeError m => js_or_str (Some m) "TypeError"
  | SyntaxError m => js_or_str (Some m) "SyntaxError"
  | RangeError m => js_or_str (Some m) "RangeError"
  end.

(** ** Files, job entries and HTTP *)

(** What the code reads of a [File]: [name], [size], [type], and for the
    rename list its text, with what [JSON.parse] makes of that text
    ([None]: it throws).  [file_ref] is the identity of the object, as far
    as [u.file === vid] needs it: two files are one object when they have
    the same reference, whatever their names. *)
Record File := {
  file_ref : nat;
  file_name : string;
  file_size : Z;
  file_type : string;
  file_text : string;
  file_text_json : option Json
}.

(** [type JobState], [type JobKind] and [type JobEntry] of FeaturePage.tsx.
    The status written by a poller is whatever string the backend sent
    ([s.state as JobState] is an unchecked cast).  [entry_ref] is the
    identity of the object as far as [x === tmp] needs it: [Some r] for the
    object [tmp] number [r], [None] for an object made by a spread. *)
Module Jobs.

Inductive JobKind := split | merge | transcribe | rename.

Record JobEntry := {
  entry_ref : option nat;
  id : option Json;
  label : string;
  kind : JobKind;
  status : option Json;
  tusUrl : option string;
  result : option Json;
  error : option Json
}.

End Jobs.

Inductive Method := GET | POST | PUT.

Inductive Body :=
| NoBody
| JsonBody (j : Json)                       (* JSON.stringify(j) *)
| BlobBody (file : string) (range : Z * Z). (* file.slice(start, end) *)

(** The arguments of a [fetch] call: the URL and, of the init object,
    [method], [headers], [body] and [cache]. *)
Record Request := {
  req_url : string;
  req_method : Method;
  req_headers : list (string * string);
  req_body : Body;
  req_cache : option string
}.

(** A response: [status] (here [resp_status]), [statusText], headers, the
    body as text, and what [JSON.parse] makes of the body ([None]: it
    throws a SyntaxError). *)
Record Response := {
  resp_status : Z;
  statusText : string;
  headers : list (string * string);
  text : string;
  json : option Json
}.

(** [response.ok] *)
Definition ok (r : Response) : bool :=
  (200 <=? resp_status r) && (resp_status r <=? 299).

(** [response.headers.get(name)]: header names compare without case. *)
Fixpoint headers_get (name : string) (hs : list (string * string)) : option string :=
  match hs with
  | [] => None
  | (k, v) :: rest =>
      if String.eqb (toLowerCase k) (toLowerCase name) then Some v
      else headers_get name rest
  end.

(** How a [fetch] promise settles: with a response (of any status), or
    rejected when the network fails. *)
Inductive FetchOutcome :=
| Responded (r : Response)
| NetworkFailure.

(** How a run of the Uppy tus uploader ends: event [complete] after
    [upload-success] for some files and [upload-error] for others, or
    event [error]. *)
Inductive UppyOutcome :=
| UppyComplete (successes : list (File * string)) (failures : list File)
| UppyError (e : JsError).

(** ** The environment and the log *)

(** What the environment does, in time order. *)
Inductive EnvEvent :=
| Answer (o : FetchOutcome)    (* the oldest unanswered fetch settles *)
| Uploaded (o : UppyOutcome)   (* the running Uppy upload ends *)
| OwnerCancel.                 (* the owner of a poller asks it to stop *)

(** The state updaters handed to [setJobs]. *)
Inductive JobsUpdate :=
| AppendJob (tmp : Jobs.JobEntry)                      (* j => [...j, tmp] *)
| MarkStarted (tmp : Jobs.JobEntry) (task_id : option Json) (* x === tmp ? {...x, id, status: "STARTED"} : x *)
| UpdateFrom (task_id : option Json) (s : Json).       (* x.id === id ? {...x, status, result, error} : x *)

(** What the code does to the outside, in time order, together with the
    owner's cancellation requests ([Cancelled]) at the moment they are
    made. *)
Inductive Effect :=
| Fetch (r : Request)
| UppyUpload (endpoint : option Json) (chunkSize : Z) (retryDelays : option (list Z))
    (files : list File)
| Sleep (ms : Z)
| Alert (msg : string)
| ConsoleError (e : JsError)
| ConsoleLog (v : option Json)
| SetJobs (u : JobsUpdate)
| SetJob (task_id state result : option Json)
| SetIsProcessing (b : bool)
| SetTusEndpoint (s : string)
| SpawnPoll (task_id : option Json)
| Emit (s : Json)
| OnProgress (completedBytes fileSize : Z)
| OnPartProgress (part_number percent : Z)
| Cancelled.

Record World := {
  future : list EnvEvent;
  log : list Effect;
  next_ref : nat
}.

Definition world (future : list EnvEvent) : World :=
  {| future := future; log := []; next_ref := 0 |}.

(** ** Asynchronous code

    An [async] function runs in a world: it returns, throws, or is left
    waiting for an event that does not come ([Pending]). *)
Inductive Outcome (A : Type) :=
| Returned (a : A)
| Threw (e : JsError)
| Pending.
Arguments Returned {A} a.
Arguments Threw {A} e.
Arguments Pending {A}.

Definition Net (A : Type) : Type := World → Outcome A * World.

#[global] Instance Net_ret : MRet Net := λ A a w, (Returned a, w).

#[global] Instance Net_bind : MBind Net := λ A B f m w,
  match m w with
  | (Returned a, w') => f a w'
  | (Threw e, w') => (Threw e, w')
  | (Pending, w') => (Pending, w')
  end.

Definition throw {A} (e : JsError) : Net A := λ w, (Threw e, w).

(** [try { m } catch (e) { h e }] *)
Definition try_catch {A} (m : Net A) (h : JsError → Net A) : Net A := λ w,
  match m w with
  | (Threw e, w') => h e w'
  | r => r
  end.

(** [try { m } finally { f }] *)
Definition try_finally {A} (m : Net A) (f : Net unit) : Net A := λ w,
  match m w with
  | (Pending, w') => (Pending, w')
  | (r, w') =>
      match f w' with
      | (Returned _, w'') => (r, w'')
      | (Threw e, w'') => (Threw e, w'')
      | (Pending, w'') => (Pending, w'')
      end
  end.

(** A thrown value or a result, lifted. *)
Definition lift {A} (r : JsError + A) : Net A :=
  match r with
  | inl e => throw e
  | inr a => mret a
  end.

Definition perform (e : Effect) : Net unit := λ w,
  (Returned (), {| future := future w; log := log w ++ [e]; next_ref := next_ref w |}).

(** A fresh object identity. *)
Definition fresh_ref : Net nat := λ w,
  (Returned (next_ref w),
   {| future := future w; log := log w; next_ref := S (next_ref w) |}).

(** Waiting for the next event of a kind: cancellation requests made in the
    meantime are noted in the log; nothing in the code reads them. *)
Fixpoint await {A} (select : EnvEvent → option A) (future : list EnvEvent)
    (log : list Effect) : option A * list EnvEvent * list Effect :=
  match future with
  | [] => (None, [], log)
  | OwnerCancel :: rest => await select rest (log ++ [Cancelled])
  | ev :: rest =>
      match select ev with
      | Some a => (Some a, rest, log)
      | None => (None, future, log)
      end
  end.

Definition await_event {A} (select : EnvEvent → option A) : Net A := λ w,
  match await select (future w) (log w) with
  | (Some a, rest, l) =>
      (Returned a, {| future := rest; log := l; next_ref := next_ref w |})
  | (None, rest, l) =>
      (Pending, {| future := rest; log := l; next_ref := next_ref w |})
  end.

Definition is_answer (ev : EnvEvent) : option FetchOutcome :=
  match ev with Answer o => Some o | _ => None end.

Definition is_uploaded (ev : EnvEvent) : option UppyOutcome :=
  match ev with Uploaded o => Some o | _ => None end.

(** [await fetch(url, init)]: the call is made, then its settlement is
    awaited; a network failure rejects with a TypeError. *)
Definition fetch (r : Request) : Net Response :=
  perform (Fetch r);;
  o ← await_event is_answer;
  match o with
  | Responded resp => mret resp
  | NetworkFailure => throw (TypeError "Failed to fetch")
  end.

(** [await r.json()] *)
Definition response_json (r : Response) : JsError + Json :=
  match json r with
  | Some j => inr j
  | None => inl (SyntaxError "Unexpected token in JSON")
  end.

(** [await new Promise((r) => setTimeout(r, ms))] *)
Definition sleep (ms : Z) : Net unit := perform (Sleep ms).

Definition run {A} (m : Net A) (future : list EnvEvent) : Outcome A * World :=
  m (world future).

(** A [while (true)] loop whose body says whether to [break].  The body
    of every loop of the code awaits the environment once per round, so a
    loop cannot go round more often than there are events to come: that
    many rounds, and one more, are run. *)
Fixpoint rounds (n : nat) (body : Net bool) : Net unit :=
  match n with
  | O => λ w, (Pending, w)
  | S n' => stop ← body; if stop : bool then mret () else rounds n' body
  end.

Definition while_true (body : Net bool) : Net unit := λ w,
  rounds (S (length (future w))) body w.

(** [for (const x of xs) { f x }] *)
Fixpoint for_of {A} (xs : list A) (f : A → Net unit) : Net unit :=
  match xs with
  | [] => mret ()
  | x :: rest => f x;; for_of rest f
  end.

(** *** Reading a log *)

Definition fetches (l : list Effect) : list Request :=
  omap (λ e, match e with Fetch r => Some r | _ => None end) l.

Definition emitted (l : list Effect) : list Json :=
  omap (λ e, match e with Emit s => Some s | _ => None end) l.

(** Effects that reach the network: a fetch, an upload, a poller. *)
Definition is_network (e : Effect) : bool :=
  match e with
  | Fetch _ | UppyUpload _ _ _ _ | SpawnPoll _ => true
  | _ => false
  end.

(** ** The API client (class [APIClient]) *)

Module ApiClient.

(** One element of [MultipartUploadInfo.presigned_urls].  The field [size]
    of the source is [part_size] here. *)
Record PresignedUrl := {
  part_number : Z;
  url : string;
  part_size : Z
}.

(** [metadata] of the source declares both numbers; the code reads each
    with a default, so each can be missing. *)
Record UploadMetadata := {
  chunk_size : option Z;
  max_concurrent : option Z
}.

(** [interface MultipartUploadInfo], as far as the code reads it.
    [upload_id] and [key] are declared strings; the code checks neither and
    passes them on as they come, so they are any value here, [undefined]
    included.  The code never reads [complete_url] and [abort_url]. *)
Record MultipartUploadInfo := {
  upload_id : option Json;
  key : option Json;
  presigned_urls : list PresignedUrl;
  complete_url : option string;
  abort_url : option string;
  metadata : option UploadMetadata
}.

Definition MB : Z := 1024 * 1024.

Record APIClient := { baseURL : string }.

(** [this.baseURL = process.env.REACT_APP_BACKEND_URL || 'http://localhost:8000'] *)
Definition constructor (REACT_APP_BACKEND_URL : option string) : APIClient :=
  {| baseURL := js_or_str REACT_APP_BACKEND_URL "http://localhost:8000" |}.

(** The [options] of [request]: the fields its callers set. *)
Record RequestInit := {
  init_method : option Method;
  init_headers : option (list (string * string));
  init_body : Body
}.

Definition no_options : RequestInit :=
  {| init_method := None; init_headers := None; init_body := NoBody |}.

(** *** [request]

    [const config = { headers: { 'Content-Type': 'application/json',
    ...options.headers }, ...options };]  The spread of [options] comes
    last: headers given in [options] replace the merged ones. *)
Definition request_fetch (this : APIClient) (endpoint : string)
    (options : RequestInit) : Request :=
  {| req_url := baseURL this ++ endpoint;
     req_method := default GET (init_method options);
     req_headers := default [("Content-Type", "application/json")] (init_headers options);
     req_body := init_body options;
     req_cache := None |}.

(** The message of the error thrown for a response that is not ok:
    [errorJson.detail || errorText] when the body parses, and
    [errorText || `HTTP ${response.status}`] when parsing or the property
    read throws. *)
Definition errorMessage (response : Response) : string :=
  let errorText := text response in
  let fallback := js_or_str (Some errorText) ("HTTP " ++ pretty (resp_status response)) in
  match json response with
  | Some errorJson =>
      match js_prop errorJson "detail" with
      | inr detail => if truthy detail then js_string_opt detail else errorText
      | inl _ => fallback
      end
  | None => fallback
  end.

(** What [request] does with the response of its fetch. *)
Definition request_response (response : Response) : JsError + Json :=
  if negb (ok response) then inl (Error ("API Error: " ++ errorMessage response))
  else if resp_status response =? 204 then inr (JObj [])
  else response_json response.

(** How the promise of [request] settles, from how its fetch settles. *)
Definition request_settle (o : FetchOutcome) : JsError + Json :=
  match o with
  | Responded response => request_response response
  | NetworkFailure => inl (TypeError "Failed to fetch")
  end.

Definition request (this : APIClient) (endpoint : string)
    (options : RequestInit) : Net Json :=
  response ← fetch (request_fetch this endpoint options);
  lift (request_response response).

(** *** Upload endpoints *)

Definition getUploadInfo (this : APIClient) : Net Json :=
  request this "/uploads/tus" no_options.

Definition initiate_options (filename : string) (fileSize : Z)
    (contentType : string) : RequestInit :=
  {| init_method := Some POST; init_headers := None;
     init_body := JsonBody (JObj [("filename", JStr filename);
                                  ("file_size", JNum fileSize);
                                  ("content_type", JStr contentType)]) |}.

Definition initiateMultipartUpload (this : APIClient) (filename : string)
    (fileSize : Z) (contentType : string) : Net Json :=
  request this "/uploads/s3/initiate" (initiate_options filename fileSize contentType).

(** [key] and [uploadId] are declared strings; the caller hands over what
    the initiate response carried. *)
Definition complete_options (key uploadId : option Json) (parts : list Json)
    : RequestInit :=
  {| init_method := Some POST; init_headers := None;
     init_body := JsonBody (JObj (defined_fields [("key", key);
                                                  ("upload_id", uploadId);
                                                  ("parts", Some (JArr parts))])) |}.

Definition completeMultipartUpload (this : APIClient) (key uploadId : option Json)
    (parts : list Json) : Net Json :=
  request this "/uploads/s3/complete" (complete_options key uploadId parts).

Definition abort_endpoint (key uploadId : string) : string :=
  "/uploads/s3/abort?key=" ++ key ++ "&upload_id=" ++ uploadId.

Definition abort_options : RequestInit :=
  {| init_method := Some POST; init_headers := None; init_body := NoBody |}.

Definition abortMultipartUpload (this : APIClient) (key uploadId : string) : Net Json :=
  request this (abort_endpoint key uploadId) abort_options.

(** A request is an abort call when it posts to the abort endpoint. *)
Definition is_abort_call (this : APIClient) (r : Request) : bool :=
  match req_method r with
  | POST => String.prefix (baseURL this ++ "/uploads/s3/abort") (req_url r)
  | _ => false
  end.

(** A request is a discovery call when it gets [/uploads/tus]. *)
Definition is_discovery_call (this : APIClient) (r : Request) : bool :=
  match req_method r with
  | GET => String.eqb (req_url r) (baseURL this ++ "/uploads/tus")
  | _ => false
  end.

(** *** [uploadWithTUS]: the options given to [tus.Upload] *)
Record TusOptions := {
  tus_endpoint : string;
  tus_retryDelays : list Z;
  tus_metadata : list (string * string)
}.

Definition uploadWithTUS_options (file : File) (endpoint : string) : TusOptions :=
  {| tus_endpoint := endpoint;
     tus_retryDelays := [0; 3000; 5000; 10000; 20000];
     tus_metadata := [("filename", file_name file); ("filetype", file_type file)] |}.

(** *** [uploadWithS3Multipart] *)

(** [const chunkSize = uploadInfo.metadata?.chunk_size || 64 * 1024 * 1024] *)
Definition chunkSize_of (uploadInfo : MultipartUploadInfo) : Z :=
  js_or (metadata uploadInfo ≫= chunk_size) (64 * 1024 * 1024).

(** [const maxConcurrent = uploadInfo.metadata?.max_concurrent || 3] *)
Definition maxConcurrent_of (uploadInfo : MultipartUploadInfo) : Z :=
  js_or (metadata uploadInfo ≫= max_concurrent) 3.

(** [new Array(n)] throws a RangeError unless [n] is a valid length. *)
Definition valid_array_length (n : Z) : bool :=
  (0 <=? n) && (n <=? 4294967295).

(** The slice of [uploadPart]:
    [const start = (part_number - 1) * chunkSize;]
    [const end = Math.min(start + size, file.size);]
    [const chunk = file.slice(start, end);] *)
Definition part_start (chunkSize : Z) (partInfo : PresignedUrl) : Z :=
  (part_number partInfo - 1) * chunkSize.

Definition part_end (chunkSize fileSize : Z) (partInfo : PresignedUrl) : Z :=
  Z.min (part_start chunkSize partInfo + part_size partInfo) fileSize.

(** The bytes [start, end) of the file that [chunk] holds. *)
Definition chunk_range (chunkSize fileSize : Z) (partInfo : PresignedUrl) : Z * Z :=
  blob_slice fileSize (part_start chunkSize partInfo) (part_end chunkSize fileSize partInfo).

(** [chunk.size] *)
Definition chunk_len (chunkSize fileSize : Z) (partInfo : PresignedUrl) : Z :=
  let r := chunk_range chunkSize fileSize partInfo in r.2 - r.1.

Definition chunk_ranges (chunkSize fileSize : Z) (parts : list PresignedUrl) : list (Z * Z) :=
  chunk_range chunkSize fileSize <$> parts.

(** The range of [chunk_range], as a function of the pair [(part_number, size)]. *)
Definition range_of (chunkSize fileSize : Z) (d : Z * Z) : Z * Z :=
  blob_slice fileSize ((d.1 - 1) * chunkSize)
    (Z.min ((d.1 - 1) * chunkSize + d.2) fileSize).

(** *** The body of the initiate response, as the code reads it

    The code checks no field of the body.  [upload_id] and [key] are taken
    as they come, and a number of [metadata] that is missing gives way to
    its default.  What the code computes with has to be of the declared
    type: the part list is an array of descriptors with a number, a URL and
    a size, and a number of [metadata] that is there is a number. *)
Definition as_num (v : option Json) : option Z :=
  match v with Some (JNum n) => Some n | _ => None end.

Definition as_str (v : option Json) : option string :=
  match v with Some (JStr s) => Some s | _ => None end.

Definition as_PresignedUrl (j : Json) : option PresignedUrl :=
  match j with
  | JObj fs =>
      n ← as_num (assoc "part_number" fs);
      u ← as_str (assoc "url" fs);
      sz ← as_num (assoc "size" fs);
      Some {| part_number := n; url := u; part_size := sz |}
  | _ => None
  end.

(** A number read with a default, [x || d]: a missing one, [null] and the
    other falsy values all give the default, as a missing one does; a
    truthy value that is not a number is outside the model ([None]). *)
Definition as_opt_num (v : option Json) : option (option Z) :=
  match v with
  | None | Some JNull | Some (JBool false) | Some (JStr "") => Some None
  | Some (JNum n) => Some (Some n)
  | Some _ => None
  end.

(** [uploadInfo.metadata?.chunk_size] and [...?.max_concurrent]: nothing is
    read of a missing or [null] [metadata]; a value that is not an object
    has neither property. *)
Definition as_metadata (v : option Json) : option (option UploadMetadata) :=
  match v with
  | None | Some JNull => Some None
  | Some (JObj fs) =>
      c ← as_opt_num (assoc "chunk_size" fs);
      m ← as_opt_num (assoc "max_concurrent" fs);
      Some (Some {| chunk_size := c; max_concurrent := m |})
  | Some _ => Some (Some {| chunk_size := None; max_concurrent := None |})
  end.

(** [None] for every other body.  Of these, a body that is not an object
    or has no part list makes the code throw (see [unread_body_error]); the
    remaining ones, in which something the code computes with has another
    type than declared, are outside the model. *)
Definition as_MultipartUploadInfo (j : Json) : option MultipartUploadInfo :=
  match j with
  | JObj fs =>
      urls ← match assoc "presigned_urls" fs with
             | Some (JArr items) => mapM as_PresignedUrl items
             | _ => None
             end;
      md ← as_metadata (assoc "metadata" fs);
      Some {| upload_id := assoc "upload_id" fs; key := assoc "key" fs;
              presigned_urls := urls;
              complete_url := as_str (assoc "complete_url" fs);
              abort_url := as_str (assoc "abort_url" fs);
              metadata := md |}
  | _ => None
  end.

(** The error for a body that [as_MultipartUploadInfo] does not read.
    Destructuring [null] throws a TypeError, and so does reading
    [presigned_urls.length] of a part list that is not there; [new
    Array(maxConcurrent)] comes before that read, so a [max_concurrent] that
    is no array length is the error then. *)
Definition unread_body_error (j : Json) : JsError :=
  let no_list := TypeError "Cannot read properties of undefined (reading 'length')" in
  match j with
  | JNull =>
      TypeError "Cannot destructure property 'presigned_urls' of 'uploadInfo' as it is null."
  | JObj fs =>
      match as_metadata (assoc "metadata" fs) with
      | Some md =>
          if valid_array_length (js_or (md ≫= max_concurrent) 3) then no_list
          else RangeError "Invalid array length"
      | None => no_list
      end
  | _ => no_list
  end.

(** The fetch of [uploadPart]. *)
Definition put_request (file : File) (chunkSize : Z) (partInfo : PresignedUrl) : Request :=
  {| req_url := url partInfo;
     req_method := PUT;
     req_headers := [("Content-Type", file_type file)];
     req_body := BlobBody (file_name file) (chunk_range chunkSize (file_size file) partInfo);
     req_cache := None |}.

(** What [uploadPart] makes of the settlement of its fetch: the ETag, or
    the error it throws.  [!etag] holds for a missing and for an empty
    header. *)
Definition uploadPart_settle (partInfo : PresignedUrl) (o : FetchOutcome) : JsError + string :=
  match o with
  | NetworkFailure => inl (TypeError "Failed to fetch")
  | Responded response =>
      if negb (ok response) then
        inl (Error ("Part " ++ pretty (part_number partInfo) ++ " upload failed: "
                    ++ statusText response))
      else
        match headers_get "ETag" (headers response) with
        | Some (String c etag) => inr (String c etag)
        | _ => inl (Error ("No ETag returned for part " ++ pretty (part_number partInfo)))
        end
  end.

(** The array [parts], written by index [part_number - 1]: a JavaScript
    array is a map from indices; the indices below its length that were
    never written are holes, which [JSON.stringify] prints as [null], and
    a negative key is not an element. *)
Definition parts_length (parts : gmap Z (Z * string)) : Z :=
  map_fold (λ k _ n, Z.max n (k + 1)) 0 parts.

Definition part_json (p : option (Z * string)) : Json :=
  match p with
  | Some (n, etag) => JObj [("part_number", JNum n); ("etag", JStr etag)]
  | None => JNull
  end.

Definition parts_array (parts : gmap Z (Z * string)) : list Json :=
  (λ i : nat, part_json (parts !! Z.of_nat i)) <$> seq 0 (Z.to_nat (parts_length parts)).

(** The promises the function has outstanding are named by tokens; parts
    are named by their position in [presigned_urls]. *)
Inductive Token := TokInitiate | TokPart (k : nat) | TokComplete.

(** An event of the run: the fetch named by the token settles. *)
Inductive Settle := Settled (t : Token) (o : FetchOutcome).

(** Where the [async] function stands: at the [await] of the initiate call;
    at [await Promise.all(batchPromises)] of the batch that starts at [i],
    with the positions of the batch not yet resolved; at the [await] of the
    completion call; returned; or thrown. *)
Inductive Phase :=
| Initiating
| Uploading (i : nat) (waiting : list nat)
| Completing
| Resolved (s3url : string)
| Rejected (e : JsError).

Record UploadState := {
  phase : Phase;
  uploadInfo : option MultipartUploadInfo;
  inflight : list nat;             (* part fetches not yet settled *)
  parts : gmap Z (Z * string);
  completedBytes : Z;
  ulog : list Effect
}.

Definition set_phase (p : Phase) (st : UploadState) : UploadState :=
  {| phase := p; uploadInfo := uploadInfo st; inflight := inflight st;
     parts := parts st; completedBytes := completedBytes st; ulog := ulog st |}.

Definition add_log (l : list Effect) (st : UploadState) : UploadState :=
  {| phase := phase st; uploadInfo := uploadInfo st; inflight := inflight st;
     parts := parts st; completedBytes := completedBytes st; ulog := ulog st ++ l |}.

(** [catch (error) { console.error(...); throw error; }] *)
Definition fail (e : JsError) (st : UploadState) : UploadState :=
  set_phase (Rejected e) (add_log [ConsoleError e] st).

(** The call: the initiate request goes out and is awaited. *)
Definition start (this : APIClient) (file : File) : UploadState :=
  {| phase := Initiating; uploadInfo := None; inflight := []; parts := ∅;
     completedBytes := 0;
     ulog := [Fetch (request_fetch this "/uploads/s3/initiate"
                       (initiate_options (file_name file) (file_size file) (file_type file)))] |}.

(** The head of the [for] loop at index [i].  While [i] is below the
    number of parts, the batch [presigned_urls.slice(i, i + maxConcurrent)]
    is mapped through [uploadPart], which sends every PUT of the batch, and
    the function waits for the whole batch.  After the loop the completion
    request goes out. *)
Definition loop_head (this : APIClient) (file : File) (info : MultipartUploadInfo)
    (i : nat) (st : UploadState) : UploadState :=
  let urls := presigned_urls info in
  if (i <? length urls)%nat then
    let batch := take (Z.to_nat (maxConcurrent_of info)) (drop i urls) in
    let ks := seq i (length batch) in
    {| phase := Uploading i ks;
       uploadInfo := uploadInfo st;
       inflight := inflight st ++ ks;
       parts := parts st;
       completedBytes := completedBytes st;
       ulog := ulog st ++ (Fetch ∘ put_request file (chunkSize_of info) <$> batch) |}
  else
    set_phase Completing
      (add_log [Fetch (request_fetch this "/uploads/s3/complete"
                         (complete_options (key info) (upload_id info)
                            (parts_array (parts st))))] st).

(** The initiate call settles. *)
Definition initiated (this : APIClient) (file : File) (o : FetchOutcome)
    (st : UploadState) : UploadState :=
  match request_settle o with
  | inl e => fail e st
  | inr j =>
      match as_MultipartUploadInfo j with
      | None => fail (unread_body_error j) st
      | Some info =>
          if valid_array_length (maxConcurrent_of info) then
            loop_head this file info 0
              {| phase := phase st; uploadInfo := Some info; inflight := inflight st;
                 parts := parts st; completedBytes := completedBytes st;
                 ulog := ulog st |}
          else fail (RangeError "Invalid array length") st
      end
  end.

Definition remove (k : nat) (l : list nat) : list nat :=
  filter (λ x, x ≠ k) l.

(** The rest of [uploadPart] after a good response:
    [parts[part_number - 1] = { part_number, etag };]
    [completedBytes += chunk.size;] and the two progress callbacks. *)
Definition part_done (file : File) (info : MultipartUploadInfo) (partInfo : PresignedUrl)
    (etag : string) (st : UploadState) : UploadState :=
  let done := completedBytes st
              + chunk_len (chunkSize_of info) (file_size file) partInfo in
  {| phase := phase st;
     uploadInfo := uploadInfo st;
     inflight := inflight st;
     parts := <[part_number partInfo - 1 := (part_number partInfo, etag)]> (parts st);
     completedBytes := done;
     ulog := ulog st ++ [OnPartProgress (part_number partInfo) 100;
                         OnProgress done (file_size file)] |}.

(** The fetch of the part at position [k] settles.  The part leaves the
    outstanding ones.  A good part records itself, and when it was the last
    one the batch waited for, the loop goes on at [i + maxConcurrent].  A
    bad part rejects [Promise.all] and with it the function; the parts of
    the batch that are still outstanding are left to settle on their
    own. *)
Definition part_settled (this : APIClient) (file : File) (k : nat) (o : FetchOutcome)
    (st : UploadState) : UploadState :=
  match uploadInfo st with
  | None => st
  | Some info =>
      match presigned_urls info !! k with
      | None => st
      | Some partInfo =>
          let st1 := {| phase := phase st; uploadInfo := uploadInfo st;
                        inflight := remove k (inflight st); parts := parts st;
                        completedBytes := completedBytes st; ulog := ulog st |} in
          match uploadPart_settle partInfo o with
          | inr etag =>
              let st2 := part_done file info partInfo etag st1 in
              match phase st2 with
              | Uploading i waiting =>
                  match remove k waiting with
                  | [] => loop_head this file info
                            (i + Z.to_nat (maxConcurrent_of info)) st2
                  | waiting' => set_phase (Uploading i waiting') st2
                  end
              | _ => st2
              end
          | inl e =>
              match phase st1 with
              | Uploading _ _ => fail e st1
              | _ => st1
              end
          end
      end
  end.

(** [`s3://${key.split('/')[0]}/${key}`]: the method call throws on a key
    that is not a string. *)
Definition s3_url (key : option Json) : JsError + string :=
  match key with
  | Some (JStr k) => inr ("s3://" ++ first_segment k ++ "/" ++ k)
  | None => inl (TypeError "Cannot read properties of undefined (reading 'split')")
  | Some JNull => inl (TypeError "Cannot read properties of null (reading 'split')")
  | Some _ => inl (TypeError "key.split is not a function")
  end.

(** The completion call settles:
    [return `s3://${key.split('/')[0]}/${key}`]. *)
Definition completed (o : FetchOutcome) (st : UploadState) : UploadState :=
  match request_settle o, uploadInfo st with
  | inl e, _ => fail e st
  | inr _, Some info =>
      match s3_url (key info) with
      | inr s => set_phase (Resolved s) st
      | inl e => fail e st
      end
  | inr _, None => st
  end.

(** One event.  A settlement of a fetch that is not outstanding does not
    happen: the state is unchanged. *)
Definition step (this : APIClient) (file : File) (st : UploadState) (ev : Settle)
    : UploadState :=
  match ev with
  | Settled TokInitiate o =>
      match phase st with
      | Initiating => initiated this file o st
      | _ => st
      end
  | Settled (TokPart k) o =>
      if decide (k ∈ inflight st) then part_settled this file k o st else st
  | Settled TokComplete o =>
      match phase st with
      | Completing => completed o st
      | _ => st
      end
  end.

(** The state after a sequence of events. *)
Definition uploadWithS3Multipart (this : APIClient) (file : File)
    (events : list Settle) : UploadState :=
  foldl (step this file) (start this file) events.

(** The PUT requests sent so far. *)
Definition puts (l : list Effect) : list Request :=
  List.filter (λ r, match req_method r with PUT => true | _ => false end) (fetches l).

(** *** The descriptors the backend hands out *)

(** Modelled from the spec: the multipart-initiate endpoint of the backend
    is not part of the sources.  The spec gives its plan as: indices are
    1-based, contiguous and unique; the file is cut into parts of the chunk
    size, the last one taking the remainder.  [numParts] is the number of
    parts of such a plan. *)
Definition numParts (fileSize chunkSize : Z) : Z :=
  (fileSize + chunkSize - 1) / chunkSize.

(** Modelled from the spec: the [(part_number, size)] pair of the part at
    position [i] of the plan of the absent initiate endpoint. *)
Definition planned_part (fileSize chunkSize : Z) (i : nat) : Z * Z :=
  (Z.of_nat i + 1, Z.min chunkSize (fileSize - Z.of_nat i * chunkSize)).

(** Modelled from the spec: the [(part_number, size)] pairs of the plan of
    the absent initiate endpoint, in order. *)
Definition planned (fileSize chunkSize : Z) : list (Z * Z) :=
  planned_part fileSize chunkSize <$> seq 0 (Z.to_nat (numParts fileSize chunkSize)).

(** A descriptor list is produced for [chunkSize] when its numbers and sizes
    are those of the plan; the URLs are free. *)
Definition produced_for (chunkSize fileSize : Z) (parts : list PresignedUrl) : Prop :=
  (λ p, (part_number p, part_size p)) <$> parts = planned fileSize chunkSize.

#[global] Instance produced_for_dec chunkSize fileSize parts :
  Decision (produced_for chunkSize fileSize parts).
Proof. unfold produced_for. apply _. Defined.

Definition parts_12MB : list PresignedUrl :=
  [ {| part_number := 1; url := "https://s3/p1"; part_size := 5 * MB |};
    {| part_number := 2; url := "https://s3/p2"; part_size := 5 * MB |};
    {| part_number := 3; url := "https://s3/p3"; part_size := 2 * MB |} ].

End ApiClient.

(** ** Intervals *)

(** [tiles lo hi rs]: the half-open ranges [rs], in order, are non-empty,
    start at [lo], each begins where the previous one ends, and the last one
    ends at [hi]. *)
Fixpoint tiles (lo hi : Z) (rs : list (Z * Z)) : Prop :=
  match rs with
  | [] => lo = hi
  | r :: rs' => r.1 = lo ∧ r.1 < r.2 ∧ tiles r.2 hi rs'
  end.

(** Byte [b] lies in the range [r]. *)
Definition covers (b : Z) (r : Z * Z) : bool :=
  (r.1 <=? b) && (b <? r.2).

Definition cover_count (b : Z) (rs : list (Z * Z)) : nat :=
  length (List.filter (covers b) rs).

(** ** The wrappers of [app/lib/api.ts] *)

Module Api.
Section WithAPI.

(** [export const API = process.env.NEXT_PUBLIC_API!] *)
Variable API : string.

Definition get_no_store (url : string) : Request :=
  {| req_url := url; req_method := GET; req_headers := []; req_body := NoBody;
     req_cache := Some "no-store" |}.

Definition post_json (url : string) (body : Json) : Request :=
  {| req_url := url; req_method := POST;
     req_headers := [("Content-Type", "application/json")];
     req_body := JsonBody body; req_cache := None |}.

Definition getTusEndpoint : Net (option Json) :=
  r ← fetch (get_no_store (API ++ "/uploads/tus"));
  if negb (ok r) then throw (Error "tus endpoint failed")
  else
    j ← lift (response_json r);
    lift (js_prop j "tus_endpoint").

Definition createSplit (tus_url : string) : Net Json :=
  r ← fetch (post_json (API ++ "/split") (JObj [("tus_url", JStr tus_url)]));
  lift (response_json r).

(** The two references are declared strings; a caller hands over what it
    holds, which at run time can be any value, [undefined] included. *)
Definition createMerge (video_tus_url audio_tus_url : option Json) (offset_sec : Z)
    : Net Json :=
  r ← fetch (post_json (API ++ "/merge")
               (JObj (defined_fields [("video_tus_url", video_tus_url);
                                      ("audio_tus_url", audio_tus_url);
                                      ("offset_sec", Some (JNum offset_sec))])));
  lift (response_json r).

Definition createTranscribe (tus_url : string) : Net Json :=
  r ← fetch (post_json (API ++ "/transcribe")
               (JObj [("tus_url", JStr tus_url);
                      ("target_languages", JArr [JStr "original"])]));
  lift (response_json r).

Definition bulkRename (keys : list Json) (pattern : string) (start_index pad : Z)
    (dryRun : bool) : Net Json :=
  r ← fetch (post_json (API ++ "/rename")
               (JObj [("keys", JArr keys); ("pattern", JStr pattern);
                      ("start_index", JNum start_index); ("pad", JNum pad);
                      ("dryRun", JBool dryRun)]));
  lift (response_json r).

(** [task_id] is whatever the caller read from a submission response. *)
Definition getJob (task_id : option Json) : Net Json :=
  r ← fetch (get_no_store (API ++ "/jobs/" ++ js_string_opt task_id));
  lift (response_json r).

End WithAPI.
End Api.

(** ** [components/FeaturePage.tsx] *)

Module FeaturePage.
Section WithAPI.

Variable API : string.

(** The job list after an updater given to [setJobs].  A field of the
    snapshot that cannot be read is [undefined]. *)
Definition snapshot_field (s : Json) (k : string) : option Json :=
  match js_prop s k with
  | inr v => v
  | inl _ => None
  end.

Definition apply_update (u : JobsUpdate) (jobs : list Jobs.JobEntry)
    : list Jobs.JobEntry :=
  match u with
  | AppendJob tmp => jobs ++ [tmp]
  | MarkStarted tmp task_id =>
      (λ x, if bool_decide (is_Some (Jobs.entry_ref x)
                            ∧ Jobs.entry_ref x = Jobs.entry_ref tmp)
            then {| Jobs.entry_ref := None; Jobs.id := task_id;
                    Jobs.label := Jobs.label x; Jobs.kind := Jobs.kind x;
                    Jobs.status := Some (JStr "STARTED"); Jobs.tusUrl := Jobs.tusUrl x;
                    Jobs.result := Jobs.result x; Jobs.error := Jobs.error x |}
            else x) <$> jobs
  | UpdateFrom task_id s =>
      (λ x, if strict_eq (Jobs.id x) task_id
            then {| Jobs.entry_ref := None; Jobs.id := Jobs.id x;
                    Jobs.label := Jobs.label x; Jobs.kind := Jobs.kind x;
                    Jobs.status := snapshot_field s "state"; Jobs.tusUrl := Jobs.tusUrl x;
                    Jobs.result := snapshot_field s "result";
                    Jobs.error := snapshot_field s "error" |}
            else x) <$> jobs
  end.

(** The job list that a log leaves. *)
Definition jobs_after (l : list Effect) (jobs : list Jobs.JobEntry)
    : list Jobs.JobEntry :=
  foldl (λ js e, match e with SetJobs u => apply_update u js | _ => js end) jobs l.

(** [base.endsWith("/files") ? base : base.replace(/\/$/, "") + "/files"] *)
Definition ensureFilesEndpoint (base : string) : string :=
  if endsWith "/files" base then base else strip_trailing_slash base ++ "/files".

(** The same on a value that should be a string: a method call on
    anything else throws. *)
Definition ensureFilesEndpoint_js (base : option Json) : JsError + string :=
  match base with
  | Some (JStr s) => inr (ensureFilesEndpoint s)
  | _ => inl (TypeError "base.endsWith is not a function")
  end.

(** The effect run on mount, which fetches the endpoint once for the
    component state; a failure leaves the state empty. *)
Definition fetch_once : Net unit :=
  try_catch
    (ep ← Api.getTusEndpoint API;
     b ← lift (ensureFilesEndpoint_js ep);
     perform (SetTusEndpoint b))
    (λ _, perform (SetTusEndpoint "")).

(** [uploadViaTus]: the endpoint is the one held in the component state,
    fetched when that is empty; then Uppy uploads the files. *)
Definition uploadViaTus (tusEndpoint : string) (files : list File)
    : Net (list (File * string)) :=
  base ← match tusEndpoint with
         | "" =>
             ep ← Api.getTusEndpoint API;
             b ← lift (ensureFilesEndpoint_js ep);
             perform (SetTusEndpoint b);;
             mret b
         | _ => mret tusEndpoint
         end;
  let endpoint := ensureFilesEndpoint base in
  perform (UppyUpload (Some (JStr endpoint)) (5 * 1024 * 1024)
             (Some [0; 1000; 3000; 5000; 10000]) files);;
  o ← await_event is_uploaded;
  match o with
  | UppyComplete successes failures =>
      for_of failures (λ f,
        perform (ConsoleError (Error "tus upload error"));;
        perform (Alert ("Failed to upload " ++ file_name f)));;
      mret successes
  | UppyError e => throw e
  end.

(** [s.state === "SUCCESS" || s.state === "FAILURE"] *)
Definition terminal (state : option Json) : bool :=
  strict_eq state (Some (JStr "SUCCESS")) || strict_eq state (Some (JStr "FAILURE")).

(** One round of the loop of [pollJob]; [true] is [break]. *)
Definition pollJob_round (task_id : option Json) (onUpdate : Json → Net unit) : Net bool :=
  s ← Api.getJob API task_id;
  onUpdate s;;
  state ← lift (js_prop s "state");
  if terminal state then mret true
  else sleep 1200;; mret false.

Definition pollJob (task_id : option Json) (onUpdate : Json → Net unit) : Net unit :=
  while_true (pollJob_round task_id onUpdate).

(** The callback that [onGetStarted] gives to [pollJob]. *)
Definition job_callback (task_id : option Json) (s : Json) : Net unit :=
  perform (SetJobs (UpdateFrom task_id s)).

(** A callback that only records the snapshot. *)
Definition emit (s : Json) : Net unit := perform (Emit s).

(** [n.toLowerCase().trim()] *)
Definition normalizeName (n : string) : string := trim (toLowerCase n).

Definition has_extension (exts : list string) (name : string) : bool :=
  existsb (λ e, endsWith ("." ++ e) (toLowerCase name)) exts.

Definition is_video (f : File) : bool :=
  startsWith "video/" (file_type f)
  || has_extension ["mp4"; "mov"; "mkv"; "avi"; "webm"] (file_name f).

Definition is_audio (f : File) : bool :=
  startsWith "audio/" (file_type f)
  || has_extension ["wav"; "mp3"; "m4a"; "aac"; "flac"; "ogg"] (file_name f).

Definition pickVideoAudio (files : list File) : option File * option File :=
  (List.find is_video files, List.find is_audio files).

(** The common tail of the four branches: the entry [tmp] is appended, the
    job is submitted, the entry gets the id, and a poller is started.  The
    call of [pollJob] is not awaited: the handler goes on while the poller
    runs beside it.  [SpawnPoll] marks the call in the log of the handler;
    what the poller sends and writes, its first status request at once and
    the rest in between what the handler does, is put together with this
    log in [EventLoop]. *)
Definition submit (submission : Net Json) (label : string) (kind : Jobs.JobKind)
    (tusUrl : option string) : Net unit :=
  r ← fresh_ref;
  let tmp := {| Jobs.entry_ref := Some r; Jobs.id := None; Jobs.label := label;
                Jobs.kind := kind; Jobs.status := Some (JStr "QUEUED");
                Jobs.tusUrl := tusUrl; Jobs.result := None; Jobs.error := None |} in
  perform (SetJobs (AppendJob tmp));;
  j ← submission;
  task_id ← lift (js_prop j "task_id");
  perform (SetJobs (MarkStarted tmp task_id));;
  perform (SpawnPoll task_id).

Definition split_branch (tusEndpoint : string) (uploadedFiles : list File) : Net unit :=
  ups ← uploadViaTus tusEndpoint uploadedFiles;
  for_of ups (λ u,
    submit (Api.createSplit API u.2) (file_name u.1) Jobs.split (Some u.2)).

(** [ups.find((u) => u.file === vid)!.tusUrl]: [===] on two objects asks
    whether they are one object. *)
Definition tusUrl_of (ups : list (File * string)) (f : File) : JsError + string :=
  match List.find (λ u, (file_ref u.1 =? file_ref f)%nat) ups with
  | Some u => inr u.2
  | None => inl (TypeError "Cannot read properties of undefined (reading 'tusUrl')")
  end.

Definition merge_branch (tusEndpoint : string) (uploadedFiles : list File) : Net unit :=
  match pickVideoAudio uploadedFiles with
  | (Some vid, Some aud) =>
      ups ← uploadViaTus tusEndpoint [vid; aud];
      videoTus ← lift (tusUrl_of ups vid);
      audioTus ← lift (tusUrl_of ups aud);
      submit (Api.createMerge API (Some (JStr videoTus)) (Some (JStr audioTus)) 0)
        (file_name vid ++ " + " ++ file_name aud) Jobs.merge None
  | _ => perform (Alert "Please upload one video file and one audio file.")
  end.

Definition transcribe_branch (tusEndpoint : string) (uploadedFiles : list File) : Net unit :=
  ups ← uploadViaTus tusEndpoint uploadedFiles;
  for_of ups (λ u,
    submit (Api.createTranscribe API u.2) (file_name u.1) Jobs.transcribe (Some u.2)).

(** The keys of the rename list: the parsed array, nothing when the text
    parses to something else, the trimmed non-empty lines when it does not
    parse. *)
Definition rename_keys (f : File) : list Json :=
  match file_text_json f with
  | Some (JArr items) => items
  | Some _ => []
  | None =>
      JStr <$> List.filter (λ s, negb (String.eqb s ""))
                 (trim <$> split_lines (file_text f))
  end.

Definition rename_branch (uploadedFiles : list File) : Net unit :=
  let name := default "" (file_name <$> head uploadedFiles) in
  let ext := after_last_dot (toLowerCase name) in
  if negb (String.eqb ext "txt" || String.eqb ext "json") then
    perform (Alert "For Rename, upload a .txt (one key per line) or .json (array of keys) containing MinIO keys.")
  else
    match head uploadedFiles with
    | None => throw (TypeError "Cannot read properties of undefined (reading 'text')")
    | Some f =>
        let keys := rename_keys f in
        match keys with
        | [] => perform (Alert "No keys found. Provide a .txt (one per line) or .json array of keys.")
        | _ =>
            submit (Api.bulkRename API keys "SERIES_{basename}_EP-{index}{ext}" 1 2 false)
              ("Rename " ++ pretty (Z.of_nat (length keys)) ++ " files") Jobs.rename None
        end
    end.

(** The branch that [onGetStarted] takes for a feature name. *)
Inductive Branch := SplitBranch | MergeBranch | TranscribeBranch | RenameBranch | NoBranch.

Definition branch_of (featureName : string) : Branch :=
  let which := normalizeName featureName in
  if includes "split" which && includes "music" which then SplitBranch
  else if includes "merge" which then MergeBranch
  else if includes "transcribe" which || includes "translate" which then TranscribeBranch
  else if includes "rename" which then RenameBranch
  else NoBranch.

Definition onGetStarted (featureName : string) (tusEndpoint : string)
    (uploadedFiles : list File) : Net unit :=
  match uploadedFiles with
  | [] => mret ()
  | _ =>
      perform (SetIsProcessing true);;
      try_finally
        (try_catch
           match branch_of featureName with
           | SplitBranch => split_branch tusEndpoint uploadedFiles
           | MergeBranch => merge_branch tusEndpoint uploadedFiles
           | TranscribeBranch => transcribe_branch tusEndpoint uploadedFiles
           | RenameBranch => rename_branch uploadedFiles
           | NoBranch => mret ()
           end
           (λ e, perform (ConsoleError e);; perform (Alert (error_message e))))
        (perform (SetIsProcessing false))
  end.

End WithAPI.
End FeaturePage.

(** ** [components/TusUploader.tsx] *)

Module TusUploader.

(** [uppy.on("upload-success", (file, resp) => { onUploaded(resp.uploadURL,
    file.name); })]: the owner's callback is called with the upload URL
    first and the file name second. *)
Definition upload_success {S} (onUploaded : option Json → string → S)
    (file : File) (uploadURL : option string) : S :=
  onUploaded (JStr <$> uploadURL) (file_name file).

Section WithAPI.

Variable API : string.

(** The effect run on mount. *)
Definition mount : Net unit :=
  tus ← Api.getTusEndpoint API;
  perform (ConsoleLog tus).

(** [onPick]: the endpoint is fetched, then Uppy uploads the picked files
    with its own retry defaults. *)
Definition onPick (files : list File) : Net unit :=
  tus ← Api.getTusEndpoint API;
  perform (UppyUpload tus (5 * 1024 * 1024) None files).

End WithAPI.
End TusUploader.

(** ** [components/features/MergePanel.tsx] *)

Module MergePanel.
Section WithAPI.

Variable API : string.

(** What the state [video] and [audio] holds: an object with the
    properties [name] and [tusUrl].  They are declared strings; what is
    stored is what the callback read, which can be [undefined]. *)
Record Uploaded := { name : option Json; tusUrl : option Json }.

(** [(f) => setVideo({name: f.name, tusUrl: f.tusUrl})], the callback that
    the panel gives to [TusUploader] as [onUploaded]: it reads two
    properties of its first argument and takes no second one.  It yields
    the object to store, or the error of a property read. *)
Definition stored (f : option Json) (_ : string) : JsError + Uploaded :=
  match f with
  | None => inl (TypeError "Cannot read properties of undefined (reading 'name')")
  | Some j =>
      match js_prop j "name", js_prop j "tusUrl" with
      | inr n, inr t => inr {| name := n; tusUrl := t |}
      | inl e, _ => inl e
      | _, inl e => inl e
      end
  end.

(** The two pickers of the panel and its state. *)
Inductive Picker := VideoPicker | AudioPicker.

Record Panel := { video : option Uploaded; audio : option Uploaded }.

Definition initial : Panel := {| video := None; audio := None |}.

(** An upload of a picker succeeds: [TusUploader] calls the callback of
    that picker, which sets the state; a callback that throws sets
    nothing. *)
Definition upload_success (picker : Picker) (file : File) (uploadURL : option string)
    (p : Panel) : Panel :=
  match TusUploader.upload_success stored file uploadURL with
  | inr u =>
      match picker with
      | VideoPicker => {| video := Some u; audio := audio p |}
      | AudioPicker => {| video := video p; audio := Some u |}
      end
  | inl _ => p
  end.

(** [disabled={!video || !audio}] *)
Definition disabled (video audio : option Uploaded) : bool :=
  negb (bool_decide (is_Some video)) || negb (bool_decide (is_Some audio)).

(** [s.state !== "PENDING" && s.state !== "STARTED"] *)
Definition settled (state : option Json) : bool :=
  negb (strict_eq state (Some (JStr "PENDING")))
  && negb (strict_eq state (Some (JStr "STARTED"))).

Definition poll_round (task_id : option Json) : Net bool :=
  s ← Api.getJob API task_id;
  state ← lift (js_prop s "state");
  if settled state then
    res ← lift (js_prop s "result");
    perform (SetJob task_id state res);;
    mret true
  else sleep 1200;; mret false.

Definition onClick (video audio : option Uploaded) : Net unit :=
  match video, audio with
  | Some v, Some a =>
      j ← Api.createMerge API (tusUrl v) (tusUrl a) 0;
      task_id ← lift (js_prop j "task_id");
      perform (SetJob task_id (Some (JStr "PENDING")) None);;
      while_true (poll_round task_id)
  | _, _ => throw (TypeError "Cannot read properties of null (reading 'tusUrl')")
  end.

(** A click on the button: a disabled button dispatches nothing. *)
Definition click (video audio : option Uploaded) : Net unit :=
  if disabled video audio then mret () else onClick video audio.

End WithAPI.
End MergePanel.

(** ** More methods of class [APIClient]: the job endpoints and [uploadWithTUS] *)

Module JobEndpoints.

(** [{ method: 'POST', body: JSON.stringify(body) }] *)
Definition post_options (body : Json) : ApiClient.RequestInit :=
  {| ApiClient.init_method := Some POST; ApiClient.init_headers := None;
     ApiClient.init_body := JsonBody body |}.

Definition submitSplitJob (this : ApiClient.APIClient) (tusUrl : string) : Net Json :=
  ApiClient.request this "/split" (post_options (JObj [("tus_url", JStr tusUrl)])).

(** [offsetSec: number = 0] *)
Definition submitMergeJob (this : ApiClient.APIClient) (videoUrl audioUrl : string)
    (offsetSec : option Z) : Net Json :=
  ApiClient.request this "/merge"
    (post_options (JObj [("video_tus_url", JStr videoUrl);
                         ("audio_tus_url", JStr audioUrl);
                         ("offset_sec", JNum (default 0 offsetSec))])).

(** [targetLanguages: string[] = ['original']] *)
Definition submitTranscribeJob (this : ApiClient.APIClient) (tusUrl : string)
    (targetLanguages : option (list string)) : Net Json :=
  ApiClient.request this "/transcribe"
    (post_options (JObj [("tus_url", JStr tusUrl);
                         ("target_languages",
                          JArr (JStr <$> default ["original"] targetLanguages))])).

(** [startIndex: number = 1, pad: number = 2, dryRun: boolean = false] *)
Definition submitRenameJob (this : ApiClient.APIClient) (keys : list Json)
    (pattern : string) (startIndex pad : option Z) (dryRun : option bool) : Net Json :=
  ApiClient.request this "/rename"
    (post_options (JObj [("keys", JArr keys); ("pattern", JStr pattern);
                         ("start_index", JNum (default 1 startIndex));
                         ("pad", JNum (default 2 pad));
                         ("dryRun", JBool (default false dryRun))])).

(** *** [uploadWithTUS]

    The callbacks that the tus client calls, as events. *)
Inductive TusEvent :=
| TusProgress (bytesUploaded bytesTotal : Z)
| TusError (error : string)
| TusSuccess (url : option string).

(** The promise that [uploadWithTUS] returns, and the calls of
    [onProgress]. *)
Record TusState := {
  promise : option (JsError + string);
  tus_log : list Effect
}.

(** [resolve] and [reject]: a promise settles once; later calls do
    nothing. *)
Definition settle (r : JsError + string) (st : TusState) : TusState :=
  match promise st with
  | None => {| promise := Some r; tus_log := tus_log st |}
  | Some _ => st
  end.

(** [onError], [onProgress], [onSuccess] *)
Definition tus_callback (st : TusState) (ev : TusEvent) : TusState :=
  match ev with
  | TusError error => settle (inl (Error ("Upload failed: " ++ error))) st
  | TusProgress bytesUploaded bytesTotal =>
      {| promise := promise st;
         tus_log := tus_log st ++ [OnProgress bytesUploaded bytesTotal] |}
  | TusSuccess url =>
      match url with
      | Some (String c u) => settle (inr (String c u)) st
      | _ => settle (inl (Error "Upload completed but no URL returned")) st
      end
  end.

(** [uploadWithTUS]: outside a browser it throws at once; in a browser the
    upload is started and its callbacks settle the promise. *)
Definition uploadWithTUS (window : bool) (events : list TusEvent) : TusState :=
  if window then foldl tus_callback {| promise := None; tus_log := [] |} events
  else {| promise := Some (inl (Error "TUS upload only available in browser"));
          tus_log := [] |}.

End JobEndpoints.

(** ** The list of chosen files of [FeaturePage] *)

Module FileList.

(** [setUploadedFiles((prev) => [...prev, ...files])] of [handleDrop] *)
Definition handleDrop (files prev : list File) : list File := prev ++ files.

(** [prev.filter((_, index) => index !== indexToRemove)] *)
Fixpoint filter_index {A} (keep : nat → bool) (index : nat) (l : list A) : list A :=
  match l with
  | [] => []
  | x :: rest =>
      if keep index then x :: filter_index keep (S index) rest
      else filter_index keep (S index) rest
  end.

Definition removeFile (indexToRemove : Z) (prev : list File) : list File :=
  filter_index (λ index, negb (Z.of_nat index =? indexToRemove)) 0 prev.

End FileList.

(** ** [components/features/RenamePanel.tsx] *)

Module RenamePanel.
Section WithAPI.

Variable API : string.

(** [keysText.split(/\r?\n/).map(s=>s.trim()).filter(Boolean)] *)
Definition keys_of (keysText : string) : list string :=
  List.filter (λ s, negb (String.eqb s "")) (trim <$> split_lines keysText).

Definition rename_poll_round (task_id : option Json) : Net bool :=
  s ← Api.getJob API task_id;
  state ← lift (js_prop s "state");
  if MergePanel.settled state then
    res ← lift (js_prop s "result");
    perform (SetJob task_id state res);;
    mret true
  else sleep 1000;; mret false.

Definition rename_onClick (keysText pattern : string) : Net unit :=
  let keys := keys_of keysText in
  j ← Api.bulkRename API (JStr <$> keys) pattern 1 2 false;
  task_id ← lift (js_prop j "task_id");
  perform (SetJob task_id (Some (JStr "PENDING")) None);;
  while_true (rename_poll_round task_id).

End WithAPI.
End RenamePanel.

(** ** The pollers that [onGetStarted] starts

    [pollJob(id, ...)] is called without [await].  The call runs the poller
    up to its first [await], which sends its first status request, and the
    handler goes on at once.  From then on the poller runs beside the
    handler, each of them on the answers to its own requests, and the event
    loop interleaves what they do. *)

Module EventLoop.
Section WithAPI.

Variable API : string.

(** The request that the poller of [task_id] repeats. *)
Definition status_request (task_id : option Json) : Request :=
  Api.get_no_store (API ++ "/jobs/" ++ js_string_opt task_id).

(** What the poller started for [task_id] does, over the timeline of the
    answers to its own requests. *)
Definition poller (task_id : option Json) (timeline : list EnvEvent) : list Effect :=
  log (run (FeaturePage.pollJob API task_id (FeaturePage.job_callback task_id))
         timeline).2.

(** Whose turn it is: the handler's, or that of the poller started as the
    [i]-th. *)
Inductive Turn := Handler | Poller (i : nat).

Definition finished (p : list Effect) : bool :=
  match p with [] => true | _ => false end.

(** [weave schedule timelines main pollers] is what the handler and its
    pollers do together, in time order.  [main] is what the handler has
    still to do and [pollers] what each poller started so far has still to
    do; the poller started as the [i]-th gets the [i]-th of [timelines].
    At the mark of a call of [pollJob] the first effect of the new poller,
    its first request, follows at once.  The result is [None] when the
    schedule gives the turn to one that has nothing left to do, or ends
    before all are done. *)
Fixpoint weave (schedule : list Turn) (timelines : list (list EnvEvent))
    (main : list Effect) (pollers : list (list Effect)) : option (list Effect) :=
  match schedule with
  | [] =>
      match main with
      | [] => if forallb finished pollers then Some [] else None
      | _ => None
      end
  | Handler :: schedule' =>
      match main with
      | [] => None
      | SpawnPoll task_id :: main' =>
          let p := poller task_id (default [] (timelines !! length pollers)) in
          g ← weave schedule' timelines main' (pollers ++ [drop 1 p]);
          Some (SpawnPoll task_id :: take 1 p ++ g)
      | e :: main' =>
          g ← weave schedule' timelines main' pollers;
          Some (e :: g)
      end
  | Poller i :: schedule' =>
      match pollers !! i with
      | Some (e :: p) =>
          g ← weave schedule' timelines main (<[i := p]> pollers);
          Some (e :: g)
      | _ => None
      end
  end.

(** A whole run of a handler whose log is [main]. *)
Definition whole_run (schedule : list Turn) (timelines : list (list EnvEvent))
    (main : list Effect) : option (list Effect) :=
  weave schedule timelines main [].

End WithAPI.
End EventLoop.
(** ** Concrete inputs *)

Module Examples.

Definition API : string := "http://api.test".

(** The double quote character, as a string. *)
Definition dq : string := String (ascii_of_nat 34) EmptyString.

Definition response (status : Z) (body : option Json) : Response :=
  {| resp_status := status; statusText := ""; headers := []; text := ""; json := body |}.

(** A status snapshot [{state}]. *)
Definition snapshot (state : string) : Json := JObj [("state", JStr state)].

Definition status_response (state : string) : EnvEvent :=
  Answer (Responded (response 200 (Some (snapshot state)))).

(** An error response whose body is JSON without [task_id]. *)
Definition error_500 : Response :=
  {| resp_status := 500; statusText := "Internal Server Error"; headers := [];
     text := "{" ++ dq ++ "detail" ++ dq ++ ":" ++ dq ++ "boom" ++ dq ++ "}";
     json := Some (JObj [("detail", JStr "boom")]) |}.

Definition task : option Json := Some (JStr "t1").

(** Three answers of the backend: started, then success, then one more. *)
Definition three_answers : list Response :=
  [ response 200 (Some (snapshot "STARTED"));
    response 200 (Some (snapshot "SUCCESS"));
    response 200 (Some (snapshot "SUCCESS")) ].

(** The backend answers started; the owner cancels; the backend answers
    success. *)
Definition cancelled_timeline : list EnvEvent :=
  [ status_response "STARTED"; OwnerCancel; status_response "SUCCESS" ].

(** The job list with the entry of [task]. *)
Definition one_job : list Jobs.JobEntry :=
  [ {| Jobs.entry_ref := None; Jobs.id := task; Jobs.label := "a.mp4";
       Jobs.kind := Jobs.split; Jobs.status := Some (JStr "STARTED");
       Jobs.tusUrl := None; Jobs.result := None; Jobs.error := None |} ].

Definition video_file : File :=
  {| file_ref := 1; file_name := "clip.MP4"; file_size := 1000; file_type := "";
     file_text := ""; file_text_json := None |}.

Definition audio_file : File :=
  {| file_ref := 2; file_name := "voice.wav"; file_size := 500;
     file_type := "audio/wav";
     file_text := ""; file_text_json := None |}.

(** The endpoint is asked for, the two files are uploaded, the merge job is
    submitted. *)
Definition merge_timeline : list EnvEvent :=
  [ Answer (Responded (response 200 (Some (JObj [("tus_endpoint", JStr "http://tus/")]))));
    Uploaded (UppyComplete [(video_file, "http://tus/files/1");
                            (audio_file, "http://tus/files/2")] []);
    Answer (Responded (response 200 (Some (JObj [("task_id", JStr "t1")])))) ].

Definition client : ApiClient.APIClient := ApiClient.constructor None.

Definition ok_response : Response := response 200 (Some (JObj [])).

(** Two discovery answers that differ. *)
Definition capability (endpoint : string) : Json :=
  JObj [("method", JStr "tus"); ("endpoint", JStr endpoint)].

Definition two_capabilities : list EnvEvent :=
  [ Answer (Responded (response 200 (Some (capability "http://tus-a/files"))));
    Answer (Responded (response 200 (Some (capability "http://tus-b/files")))) ].

(** A 12MB file, cut by the backend into parts of 5MB, at most two at a
    time. *)
Definition media : File :=
  {| file_ref := 0; file_name := "a.mp4"; file_size := 12 * ApiClient.MB;
     file_type := "video/mp4";
     file_text := ""; file_text_json := None |}.

Definition descriptor (n size : Z) : Json :=
  JObj [("part_number", JNum n); ("url", JStr ("https://s3/p" ++ pretty n));
        ("size", JNum size)].

Definition initiate_body : Json :=
  JObj [("upload_id", JStr "U"); ("key", JStr "raw/a.mp4");
        ("presigned_urls", JArr [descriptor 1 (5 * ApiClient.MB);
                                 descriptor 2 (5 * ApiClient.MB);
                                 descriptor 3 (2 * ApiClient.MB)]);
        ("metadata", JObj [("chunk_size", JNum (5 * ApiClient.MB));
                           ("max_concurrent", JNum 2)])].

Definition initiated_ok : ApiClient.Settle :=
  ApiClient.Settled ApiClient.TokInitiate (Responded (response 200 (Some initiate_body))).

(** A good part response carries an ETag. *)
Definition part_response : Response :=
  {| resp_status := 200; statusText := "OK"; headers := [("ETag", "e1")];
     text := ""; json := None |}.

Definition part_ok (k : nat) : ApiClient.Settle :=
  ApiClient.Settled (ApiClient.TokPart k) (Responded part_response).

Definition unavailable : Response :=
  {| resp_status := 503; statusText := "Service Unavailable"; headers := [];
     text := ""; json := None |}.

Definition too_many_requests : Response :=
  {| resp_status := 429; statusText := "Too Many Requests"; headers := [];
     text := ""; json := None |}.

Definition all_parts_ok : list ApiClient.Settle :=
  [ initiated_ok; part_ok 1; part_ok 0; part_ok 2 ].

End Examples.

(** ** Notions used in the statements *)

(** What a wrapper that ends in [return r.json()] makes of a response. *)
Definition parsed_body (r : Response) : Outcome Json :=
  match json r with
  | Some j => Returned j
  | None => Threw (SyntaxError "Unexpected token in JSON")
  end.

(** *** The poller, in the words of the spec

    Each iteration issues one status request, emits the snapshot, and ends
    the loop if the state is terminal; otherwise it waits the inter-poll
    delay before the next iteration.  [poll_trace] is the log of such a
    loop over the snapshots the backend answers with; when they run out, the
    last request is left unanswered. *)
Definition snapshot_terminal (s : Json) : bool :=
  FeaturePage.terminal (FeaturePage.snapshot_field s "state").

Fixpoint poll_trace (req : Request) (snapshots : list Json) : list Effect :=
  match snapshots with
  | [] => [Fetch req]
  | s :: rest =>
      Fetch req :: Emit s ::
        (if snapshot_terminal s then [] else Sleep 1200 :: poll_trace req rest)
  end.

(** The snapshots up to the first terminal one, inclusive. *)
Fixpoint up_to_terminal (snapshots : list Json) : list Json :=
  match snapshots with
  | [] => []
  | s :: rest => s :: (if snapshot_terminal s then [] else up_to_terminal rest)
  end.

(** A status response: a response, of any status code, whose body parses
    to a snapshot, that is to a JSON value whose [state] can be read (an
    object; any value but [null]). *)
Definition is_status_response (r : Response) : bool :=
  match json r with
  | Some JNull | None => false
  | Some _ => true
  end.

Definition answers (rs : list Response) : list EnvEvent :=
  (λ r, Answer (Responded r)) <$> rs.

(** The inter-poll delays of a log, in milliseconds. *)
Definition sleeps (l : list Effect) : list Z :=
  omap (λ e, match e with Sleep ms => Some ms | _ => None end) l.

(** *** Cancellation *)

(** An update: a snapshot given to a callback, or a write of the job list
    by the callback of a poller. *)
Definition is_update (e : Effect) : bool :=
  match e with
  | Emit _ | SetJobs (UpdateFrom _ _) => true
  | _ => false
  end.

(** No update follows the first cancellation request of the log. *)
Fixpoint quiet_after_cancel (l : list Effect) : bool :=
  match l with
  | [] => true
  | Cancelled :: rest => negb (existsb is_update rest)
  | _ :: rest => quiet_after_cancel rest
  end.

(** A timeline without its cancellation requests, and a log without the
    marks they leave. *)
Definition calm (future : list EnvEvent) : list EnvEvent :=
  List.filter (λ ev, match ev with OwnerCancel => false | _ => true end) future.

Definition uncancelled (l : list Effect) : list Effect :=
  List.filter (λ e, match e with Cancelled => false | _ => true end) l.

(** One round of [pollJob] with a callback that performs [f s], spelled
    out on the world. *)
Definition poll_round_result (req : Request) (f : Json → Effect) (w : World)
    : Outcome bool * World :=
  let mk rest l := {| future := rest; log := l; next_ref := next_ref w |} in
  match await is_answer (future w) (log w ++ [Fetch req]) with
  | (None, rest, l) => (Pending, mk rest l)
  | (Some NetworkFailure, rest, l) => (Threw (TypeError "Failed to fetch"), mk rest l)
  | (Some (Responded r), rest, l) =>
      match json r with
      | None => (Threw (SyntaxError "Unexpected token in JSON"), mk rest l)
      | Some s =>
          match js_prop s "state" with
          | inl e => (Threw e, mk rest (l ++ [f s])%list)
          | inr state =>
              if FeaturePage.terminal state
              then (Returned true, mk rest (l ++ [f s])%list)
              else (Returned false, mk rest ((l ++ [f s]) ++ [Sleep 1200])%list)
          end
      end
  end.

(** Two worlds that differ by the cancellation requests only. *)
Definition same_but_cancel (w w' : World) : Prop :=
  future w' = calm (future w) ∧ log w' = uncancelled (log w) ∧ next_ref w' = next_ref w.

(** *** Repeated calls *)

(** The world after [n] calls of [m], each made whatever became of the one
    before (returned, thrown or still pending). *)
Fixpoint calls {A} (n : nat) (m : Net A) (w : World) : World :=
  match n with
  | O => w
  | S n' => calls n' m (m w).2
  end.

Definition abort_calls (this : ApiClient.APIClient) (l : list Effect) : list Request :=
  List.filter (ApiClient.is_abort_call this) (fetches l).

Definition discovery_calls (this : ApiClient.APIClient) (l : list Effect) : list Request :=
  List.filter (ApiClient.is_discovery_call this) (fetches l).

(** *** The multipart upload *)

(** The number of part uploads started so far: the PUT requests sent. *)
Definition started (st : ApiClient.UploadState) : nat :=
  length (ApiClient.puts (ApiClient.ulog st)).

(** The effects of an upload: requests that are not abort calls, the
    error print of the [catch], and the progress callbacks.  No timer. *)
Definition upload_effect (this : ApiClient.APIClient) (e : Effect) : Prop :=
  match e with
  | Fetch r => ApiClient.is_abort_call this r = false
  | ConsoleError _ | OnProgress _ _ | OnPartProgress _ _ => True
  | _ => False
  end.

(** What holds in every state of an upload: the log holds upload effects
    only; the PUT requests sent are those of the first [started]
    descriptors, in order, one each; and per phase, which parts can be
    outstanding. *)
Definition upload_inv (this : ApiClient.APIClient) (file : File)
    (st : ApiClient.UploadState) : Prop :=
  Forall (upload_effect this) (ApiClient.ulog st)
  ∧ match ApiClient.uploadInfo st with
    | None =>
        ApiClient.inflight st = [] ∧ ApiClient.puts (ApiClient.ulog st) = []
        ∧ (ApiClient.phase st = ApiClient.Initiating
           ∨ ∃ e, ApiClient.phase st = ApiClient.Rejected e)
    | Some info =>
        let m := Z.to_nat (ApiClient.maxConcurrent_of info) in
        let urls := ApiClient.presigned_urls info in
        (1 <= m)%nat
        ∧ ApiClient.puts (ApiClient.ulog st)
          = ApiClient.put_request file (ApiClient.chunkSize_of info) <$> take (started st) urls
        ∧ (started st <= length urls)%nat
        ∧ match ApiClient.phase st with
          | ApiClient.Initiating => False
          | ApiClient.Uploading i waiting =>
              ApiClient.inflight st = waiting ∧ waiting ≠ []
              ∧ (length waiting <= m)%nat
              ∧ started st = Nat.min (i + m) (length urls)
              ∧ (∀ k, k ∈ waiting → (i <= k < started st)%nat)
          | ApiClient.Completing | ApiClient.Resolved _ =>
              ApiClient.inflight st = [] ∧ started st = length urls
          | ApiClient.Rejected _ =>
              (length (ApiClient.inflight st) <= m)%nat
              ∧ (∀ k, k ∈ ApiClient.inflight st → (k < started st)%nat)
          end
    end.

(** *** More on the multipart upload *)

(** A request is a completion call when it posts to the complete
    endpoint. *)
Definition is_complete_call (this : ApiClient.APIClient) (r : Request) : bool :=
  match req_method r with
  | POST => String.eqb (req_url r) (ApiClient.baseURL this ++ "/uploads/s3/complete")
  | _ => false
  end.

Definition complete_calls (this : ApiClient.APIClient) (l : list Effect) : list Request :=
  List.filter (is_complete_call this) (fetches l).

(** The request that opens an upload. *)
Definition initiate_request (this : ApiClient.APIClient) (file : File) : Request :=
  ApiClient.request_fetch this "/uploads/s3/initiate"
    (ApiClient.initiate_options (file_name file) (file_size file) (file_type file)).

(** The function has returned or thrown. *)
Definition is_terminal (p : ApiClient.Phase) : bool :=
  match p with
  | ApiClient.Resolved _ | ApiClient.Rejected _ => true
  | _ => false
  end.

(** The function is before its completion call. *)
Definition in_progress (p : ApiClient.Phase) : bool :=
  match p with
  | ApiClient.Initiating | ApiClient.Uploading _ _ => true
  | _ => false
  end.

(** Every part has been started. *)
Definition all_started (st : ApiClient.UploadState) : Prop :=
  ∃ info, ApiClient.uploadInfo st = Some info
          ∧ started st = length (ApiClient.presigned_urls info).

(** The order of the requests of an upload: the initiate call, the PUTs,
    then at most one completion call, which is there only when every part
    has been started and none is outstanding. *)
Definition fetch_shape (this : ApiClient.APIClient) (file : File)
    (st : ApiClient.UploadState) : Prop :=
  let cc := complete_calls this (ApiClient.ulog st) in
  fetches (ApiClient.ulog st)
  = (initiate_request this file :: ApiClient.puts (ApiClient.ulog st) ++ cc)%list
  ∧ (cc = [] ∨ (length cc = 1%nat ∧ ApiClient.inflight st = [] ∧ all_started st))
  ∧ (in_progress (ApiClient.phase st) = true → cc = [])
  ∧ (ApiClient.phase st = ApiClient.Completing
     ∨ (∃ s, ApiClient.phase st = ApiClient.Resolved s) → cc ≠ []).

(** The sum of [f] over a list of positions. *)
Definition zsum (f : nat → Z) (l : list nat) : Z :=
  foldr (λ k acc, f k + acc) 0 l.

(** [chunk.size] of the part at position [k]. *)
Definition part_len (file : File) (info : ApiClient.MultipartUploadInfo) (k : nat) : Z :=
  from_option (ApiClient.chunk_len (ApiClient.chunkSize_of info) (file_size file)) 0
    (ApiClient.presigned_urls info !! k).

(** The bytes of all the chunks of a descriptor list. *)
Definition total_len (file : File) (info : ApiClient.MultipartUploadInfo) : Z :=
  foldr Z.add 0
    (ApiClient.chunk_len (ApiClient.chunkSize_of info) (file_size file)
       <$> ApiClient.presigned_urls info).

(** The account of [completedBytes]: as long as the function has not
    thrown, the bytes counted and the bytes of the outstanding parts make up
    the bytes of the parts started. *)
Definition progress_inv (file : File) (st : ApiClient.UploadState) : Prop :=
  match ApiClient.uploadInfo st with
  | None => ApiClient.completedBytes st = 0
  | Some info =>
      NoDup (ApiClient.inflight st)
      ∧ ((∃ e, ApiClient.phase st = ApiClient.Rejected e)
         ∨ ApiClient.completedBytes st + zsum (part_len file info) (ApiClient.inflight st)
           = zsum (part_len file info) (seq 0 (started st)))
  end.

(** The URL a returned upload gives is built from the key of the initiate
    response. *)
Definition resolved_url (st : ApiClient.UploadState) : Prop :=
  ∀ s, ApiClient.phase st = ApiClient.Resolved s →
       ∃ info k, ApiClient.uploadInfo st = Some info
                 ∧ ApiClient.key info = Some (JStr k)
                 ∧ s = "s3://" ++ first_segment k ++ "/" ++ k.

(** More runs of the 12MB upload. *)
Module Scenarios.

(** The initiate response of [Examples.initiate_body], decoded. *)
Definition info_12MB : ApiClient.MultipartUploadInfo :=
  {| ApiClient.upload_id := Some (JStr "U"); ApiClient.key := Some (JStr "raw/a.mp4");
     ApiClient.presigned_urls := ApiClient.parts_12MB;
     ApiClient.complete_url := None; ApiClient.abort_url := None;
     ApiClient.metadata :=
       Some {| ApiClient.chunk_size := Some (5 * ApiClient.MB);
               ApiClient.max_concurrent := Some 2 |} |}.

Definition part_1 : ApiClient.PresignedUrl :=
  {| ApiClient.part_number := 1; ApiClient.url := "https://s3/p1";
     ApiClient.part_size := 5 * ApiClient.MB |}.

Definition part_failed (k : nat) : ApiClient.Settle :=
  ApiClient.Settled (ApiClient.TokPart k) (Responded Examples.unavailable).

Definition initiate_failed : ApiClient.Settle :=
  ApiClient.Settled ApiClient.TokInitiate (Responded Examples.error_500).

Definition completed_ok : ApiClient.Settle :=
  ApiClient.Settled ApiClient.TokComplete (Responded Examples.ok_response).

Definition whole_upload : list ApiClient.Settle :=
  (Examples.all_parts_ok ++ [completed_ok])%list.

(** A list of two keys, one per line, and an empty list. *)
Definition keys_file : File :=
  {| file_ref := 3; file_name := "keys.TXT"; file_size := 12;
     file_type := "text/plain";
     file_text := "a.mp4" ++ String (ascii_of_nat 10) " b.mp4 ";
     file_text_json := None |}.

Definition blank_file : File :=
  {| file_ref := 4; file_name := "keys.txt"; file_size := 2;
     file_type := "text/plain";
     file_text := String (ascii_of_nat 10) " "; file_text_json := None |}.

Definition task_created : EnvEvent :=
  Answer (Responded (Examples.response 200 (Some (JObj [("task_id", JStr "t1")])))).

End Scenarios.

(** *** What a computation adds to the log *)

(** Whatever the world, the computation only adds to the log, and what it
    adds are effects of the kind [P]. *)
Definition adds {A} (P : Effect → Prop) (m : Net A) : Prop :=
  ∀ w, ∃ l, log (m w).2 = (log w ++ l)%list ∧ Forall P l.

(** The endpoints of the Uppy uploads of a log. *)
Definition uploads (l : list Effect) : list (option Json) :=
  omap (λ e, match e with UppyUpload endpoint _ _ _ => Some endpoint | _ => None end) l.

(** The writes of the job of a panel. *)
Definition job_writes (l : list Effect) : list (option Json * option Json * option Json) :=
  omap (λ e, match e with SetJob id state res => Some (id, state, res) | _ => None end) l.

(** An answer that is a status response. *)
Definition is_status_answer (o : FetchOutcome) : bool :=
  match o with
  | Responded r => is_status_response r
  | NetworkFailure => false
  end.

(** Any effect but a write of the [isProcessing] flag. *)
Definition not_processing_flag (e : Effect) : Prop :=
  match e with SetIsProcessing _ => False | _ => True end.

(** The entries that a log appends to the job list. *)
Definition appended (l : list Effect) : list Jobs.JobEntry :=
  omap (λ e, match e with SetJobs (AppendJob tmp) => Some tmp | _ => None end) l.

(** Any effect but a write of the job list or the start of a poller. *)
Definition not_job_write (e : Effect) : Prop :=
  match e with SetJobs _ | SpawnPoll _ => False | _ => True end.

(** The references of the entries are older than the next one to come. *)
Definition refs_below (n : nat) (jobs : list Jobs.JobEntry) : Prop :=
  Forall (λ x, ∀ r, Jobs.entry_ref x = Some r → (r < n)%nat) jobs.

(** A request or the mark of a cancellation request. *)
Definition only_fetches (e : Effect) : Prop :=
  match e with Fetch _ | Cancelled => True | _ => False end.

(** *** The loop of a panel, in the words of its code

    Each round asks for the status.  The first snapshot whose state is
    neither PENDING nor STARTED is written to the job of the panel, with
    its result, and ends the loop; after any other snapshot the loop waits
    [delay] ms and asks again.  When the snapshots run out, the last
    request is left unanswered. *)
Definition panel_settled (s : Json) : bool :=
  MergePanel.settled (FeaturePage.snapshot_field s "state").

Fixpoint panel_trace (delay : Z) (task_id : option Json) (req : Request)
    (snapshots : list Json) : list Effect :=
  match snapshots with
  | [] => [Fetch req]
  | s :: rest =>
      Fetch req ::
        (if panel_settled s
         then [SetJob task_id (FeaturePage.snapshot_field s "state")
                 (FeaturePage.snapshot_field s "result")]
         else Sleep delay :: panel_trace delay task_id req rest)
  end.

(** The snapshots up to the first settled one, inclusive. *)
Fixpoint up_to_settled (snapshots : list Json) : list Json :=
  match snapshots with
  | [] => []
  | s :: rest => s :: (if panel_settled s then [] else up_to_settled rest)
  end.

(** What a click on a panel writes of its job: the PENDING job, and then
    the first settled snapshot, when there is one. *)
Definition panel_job (task_id : option Json) (snapshots : list Json)
    : list (option Json * option Json * option Json) :=
  (task_id, Some (JStr "PENDING"), None)
  :: match List.find panel_settled snapshots with
     | Some s => [(task_id, FeaturePage.snapshot_field s "state",
                   FeaturePage.snapshot_field s "result")]
     | None => []
     end.

(** An effect that names an upload endpoint names a normalised one: the
    component state holds nothing or an endpoint that ends in [/files], and
    an upload goes to an endpoint that ends in [/files]. *)
Definition normal_endpoints (e : Effect) : Prop :=
  match e with
  | SetTusEndpoint s => s = "" ∨ endsWith "/files" s = true
  | UppyUpload endpoint _ _ _ => ∃ s, endpoint = Some (JStr s) ∧ endsWith "/files" s = true
  | _ => True
  end.

(** *** The parts recorded by an upload *)

(** Every entry of [parts] is the record of a part that was sent and has
    come back with an ETag, at the index of its number. *)
Definition parts_sound (info : ApiClient.MultipartUploadInfo) (st : ApiClient.UploadState)
    : Prop :=
  ∀ idx v, ApiClient.parts st !! idx = Some v →
    ∃ k p, ApiClient.presigned_urls info !! k = Some p
           ∧ idx = ApiClient.part_number p - 1
           ∧ v.1 = ApiClient.part_number p ∧ v.2 ≠ ""
           ∧ (k < started st)%nat ∧ (k ∉ ApiClient.inflight st).

(** Every part that was sent and is not outstanding has its entry. *)
Definition parts_cover (info : ApiClient.MultipartUploadInfo) (st : ApiClient.UploadState)
    : Prop :=
  ∀ k p, (k < started st)%nat → (k ∉ ApiClient.inflight st) →
         ApiClient.presigned_urls info !! k = Some p →
         is_Some (ApiClient.parts st !! (ApiClient.part_number p - 1)).

(** The completion request for the parts recorded now. *)
Definition completion_request (this : ApiClient.APIClient)
    (info : ApiClient.MultipartUploadInfo) (st : ApiClient.UploadState) : Request :=
  ApiClient.request_fetch this "/uploads/s3/complete"
    (ApiClient.complete_options (ApiClient.key info) (ApiClient.upload_id info)
       (ApiClient.parts_array (ApiClient.parts st))).

Definition parts_inv (this : ApiClient.APIClient) (st : ApiClient.UploadState) : Prop :=
  match ApiClient.uploadInfo st with
  | None => ApiClient.parts st = ∅
  | Some info =>
      parts_sound info st
      ∧ ((complete_calls this (ApiClient.ulog st) = []
          ∧ ∃ e, ApiClient.phase st = ApiClient.Rejected e)
         ∨ parts_cover info st)
      ∧ (complete_calls this (ApiClient.ulog st) = []
         ∨ complete_calls this (ApiClient.ulog st) = [completion_request this info st])
  end.

(** The writes of the endpoint held in the component state. *)
Definition endpoint_writes (l : list Effect) : list string :=
  omap (λ e, match e with SetTusEndpoint s => Some s | _ => None end) l.

(** Any effect but a request or a write of the endpoint. *)
Definition no_discovery (e : Effect) : Prop :=
  match e with Fetch _ | SetTusEndpoint _ => False | _ => True end.

(** The log of the loop of [pollJob] over the snapshots the backend
    answers with, for a callback that performs [f s]. *)
Fixpoint poll_log (f : Json → Effect) (req : Request) (snapshots : list Json)
    : list Effect :=
  match snapshots with
  | [] => [Fetch req]
  | s :: rest =>
      Fetch req :: f s ::
        (if snapshot_terminal s then [] else Sleep 1200 :: poll_log f req rest)
  end.

(** The files handed to Uppy by the uploads of a log. *)
Definition uploaded_files (l : list Effect) : list (list File) :=
  omap (λ e, match e with UppyUpload _ _ _ files => Some files | _ => None end) l.

(** The alerts of a log. *)
Definition alerts (l : list Effect) : list string :=
  omap (λ e, match e with Alert msg => Some msg | _ => None end) l.

(** *** The progress callbacks of an upload *)

(** The calls of [onProgress]: the bytes completed and the size they are
    divided by. *)
Definition progress_reports (l : list Effect) : list (Z * Z) :=
  omap (λ e, match e with OnProgress done total => Some (done, total) | _ => None end) l.

(** The calls of [onPartProgress]: the part number and the percentage. *)
Definition part_reports (l : list Effect) : list (Z * Z) :=
  omap (λ e, match e with OnPartProgress n percent => Some (n, percent) | _ => None end) l.

(** A list of numbers that never goes down. *)
Definition non_decreasing (l : list Z) : Prop :=
  ∀ i j a b, (i <= j)%nat → l !! i = Some a → l !! j = Some b → a <= b.

(** The reports so far are in order, none is beyond the bytes completed,
    and the last one is the bytes completed. *)
Definition reports_inv (file : File) (st : ApiClient.UploadState) : Prop :=
  let rs := progress_reports (ApiClient.ulog st) in
  non_decreasing (fst <$> rs)
  ∧ Forall (λ r, 0 <= r.1 <= ApiClient.completedBytes st ∧ r.2 = file_size file) rs
  ∧ (last rs = Some (ApiClient.completedBytes st, file_size file)
     ∨ (rs = [] ∧ ApiClient.completedBytes st = 0))
  ∧ Forall (λ p, p.2 = 100) (part_reports (ApiClient.ulog st))
  ∧ length (part_reports (ApiClient.ulog st)) = length rs.


(** *** The handler and its pollers *)

(** The submissions of a log: its POST requests. *)
Definition posted (l : list Effect) : list Request :=
  omap (λ e, match e with
             | Fetch r => match req_method r with POST => Some r | _ => None end
             | _ => None
             end) l.

(** The ids for which a log starts a poller. *)
Definition spawned (l : list Effect) : list (option Json) :=
  omap (λ e, match e with SpawnPoll task_id => Some task_id | _ => None end) l.

(** What a poller of [task_id] can do: ask for the status of that job,
    hand a snapshot to the job list under that id, wait 1200 ms. *)
Definition poller_effect (API : string) (task_id : option Json) (e : Effect) : Prop :=
  match e with
  | Fetch r => r = EventLoop.status_request API task_id
  | SetJobs (UpdateFrom id _) => id = task_id
  | Sleep ms => ms = 1200
  | Cancelled => True
  | _ => False
  end.

(** A request of a whole run is the handler's own, or a status request of
    a poller that the handler has started. *)
Definition own_or_status (API : string) (main : list Effect) (r : Request) : Prop :=
  r ∈ fetches main ∨ ∃ task_id, task_id ∈ spawned main
                                ∧ r = EventLoop.status_request API task_id.

(** The requests of a log and its calls of [pollJob], in order. *)
Definition dispatched (l : list Effect) : list (Request + option Json) :=
  omap (λ e, match e with
             | Fetch r => Some (inl r)
             | SpawnPoll task_id => Some (inr task_id)
             | _ => None
             end) l.

(** Submissions and the pollers started for them, in turn: each request is
    followed by the start of its poller, as long as there is one. *)
Fixpoint in_turn (posts : list Request) (started : list (option Json))
    : list (Request + option Json) :=
  match posts with
  | [] => []
  | post :: posts' =>
      inl post ::
        match started with
        | [] => in_turn posts' []
        | task_id :: started' => inr task_id :: in_turn posts' started'
        end
  end.

(** A schedule for a handler that starts one poller at its turn [n] and
    has one more turn: the poller gets its one answer before the handler
    sets [isProcessing] back. *)
Definition poller_before_flag (n : nat) : list EventLoop.Turn :=
  (replicate n EventLoop.Handler ++ [EventLoop.Poller 0; EventLoop.Handler])%list.

(** Two uploads whose split jobs are created as [t1] and [t2]; each poller
    gets its answer as soon as it has been started. *)
Module TwoUploads.

Definition ups : list (File * string) :=
  [ (Examples.video_file, "http://tus/files/1");
    (Examples.audio_file, "http://tus/files/2") ].

Definition created (task_id : string) : EnvEvent :=
  Answer (Responded (Examples.response 200 (Some (JObj [("task_id", JStr task_id)])))).

Definition timeline : list EnvEvent := [created "t1"; created "t2"].

Definition schedule : list EventLoop.Turn :=
  (replicate 4 EventLoop.Handler ++ [EventLoop.Poller 0]
   ++ replicate 4 EventLoop.Handler ++ [EventLoop.Poller 1])%list.

Definition timelines : list (list EnvEvent) :=
  [ [Examples.status_response "SUCCESS"]; [Examples.status_response "FAILURE"] ].

End TwoUploads.

(** A video and an audio file that have the same name and are two
    objects. *)
Module SameName.

Definition video : File :=
  {| file_ref := 5; file_name := "track.mp4"; file_size := 1000;
     file_type := "video/mp4"; file_text := ""; file_text_json := None |}.

Definition audio : File :=
  {| file_ref := 6; file_name := "track.mp4"; file_size := 500;
     file_type := "audio/mp4"; file_text := ""; file_text_json := None |}.

End SameName.

(** The part that an event completes: the event settles the fetch of a
    part that is outstanding, with a response that is ok and carries an
    ETag. *)
Definition completes_part (st : ApiClient.UploadState) (ev : ApiClient.Settle)
    : option (ApiClient.MultipartUploadInfo * ApiClient.PresignedUrl) :=
  match ev with
  | ApiClient.Settled (ApiClient.TokPart k) o =>
      if decide (k ∈ ApiClient.inflight st) then
        info ← ApiClient.uploadInfo st;
        p ← ApiClient.presigned_urls info !! k;
        match ApiClient.uploadPart_settle p o with
        | inr _ => Some (info, p)
        | inl _ => None
        end
      else None
  | _ => None
  end.

(** Every part that was started is outstanding or has reported, and has
    reported once: the parts that have reported and the outstanding ones
    are as many as the parts started, as long as no part has failed; after
    a failure they are at most as many. *)
Definition reports_count (st : ApiClient.UploadState) : Prop :=
  (length (part_reports (ApiClient.ulog st)) + length (ApiClient.inflight st)
   <= started st)%nat
  ∧ ((∀ e, ApiClient.phase st ≠ ApiClient.Rejected e) →
     (length (part_reports (ApiClient.ulog st)) + length (ApiClient.inflight st))%nat
     = started st).
(** * Properties *)

(** ** Part ranges (uploadPart) *)

Section PartRanges.
Import ApiClient.

Lemma tiles_le lo hi rs : tiles lo hi rs → lo <= hi.
Proof.
  revert lo. induction rs as [|r rs IH]; simpl; intros lo H; [lia|].
  destruct H as (Hs & Hlt & Ht). apply IH in Ht. lia.
Qed.

Lemma tiles_outside lo hi rs b :
  tiles lo hi rs → b < lo ∨ hi <= b → cover_count b rs = 0%nat.
Proof.
  unfold cover_count. revert lo.
  induction rs as [|r rs IH]; simpl; intros lo H Hb; [done|].
  destruct H as (Hs & Hlt & Ht).
  pose proof (tiles_le _ _ _ Ht) as Hle.
  replace (covers b r) with false by (unfold covers; lia).
  apply (IH _ Ht). lia.
Qed.

Lemma tiles_once lo hi rs b :
  tiles lo hi rs → lo <= b < hi → cover_count b rs = 1%nat.
Proof.
  revert lo. induction rs as [|r rs IH]; simpl; intros lo H Hb; [lia|].
  destruct H as (Hs & Hlt & Ht).
  unfold cover_count; simpl.
  destruct (covers b r) eqn:Hc; simpl.
  - f_equal. apply (tiles_outside _ _ _ _ Ht). unfold covers in Hc. lia.
  - apply (IH _ Ht). unfold covers in Hc. lia.
Qed.

Lemma covered_inside lo hi rs b r :
  tiles lo hi rs → r ∈ rs → covers b r = true → lo <= b < hi.
Proof.
  revert lo. induction rs as [|r' rs IH]; simpl; intros lo H Hin Hc.
  - by apply elem_of_nil in Hin.
  - destruct H as (Hs & Hlt & Ht). pose proof (tiles_le _ _ _ Ht).
    apply elem_of_cons in Hin as [->|Hin].
    + unfold covers in Hc. lia.
    + specialize (IH _ Ht Hin Hc). lia.
Qed.

Lemma numParts_bounds fileSize chunkSize :
  0 <= fileSize → 0 < chunkSize →
  let n := numParts fileSize chunkSize in
  0 <= n ∧ fileSize <= n * chunkSize ∧ (0 < fileSize → (n - 1) * chunkSize < fileSize)
  ∧ (fileSize = 0 → n = 0).
Proof.
  intros HF Hc n. unfold numParts in n.
  pose proof (Z.mul_div_le (fileSize + chunkSize - 1) chunkSize Hc) as H1.
  pose proof (Z.mul_succ_div_gt (fileSize + chunkSize - 1) chunkSize Hc) as H2.
  fold n in H1, H2.
  assert (0 <= n) by (apply Z.div_pos; lia).
  repeat split; try nia.
Qed.

Lemma chunk_ranges_planned chunkSize fileSize parts :
  produced_for chunkSize fileSize parts →
  chunk_ranges chunkSize fileSize parts
  = range_of chunkSize fileSize <$> planned fileSize chunkSize.
Proof.
  unfold produced_for, chunk_ranges. intros <-.
  rewrite <- list_fmap_compose. by apply list_fmap_ext.
Qed.

Lemma range_of_planned_part fileSize chunkSize i :
  0 < chunkSize → Z.of_nat i * chunkSize < fileSize →
  range_of chunkSize fileSize (planned_part fileSize chunkSize i)
  = (Z.of_nat i * chunkSize, Z.min ((Z.of_nat i + 1) * chunkSize) fileSize).
Proof.
  intros Hc Hi. unfold range_of, planned_part, blob_slice, blob_clamp; simpl.
  replace (Z.of_nat i + 1 - 1) with (Z.of_nat i) by lia.
  repeat case_match; f_equal; lia.
Qed.

Lemma tiles_planned_from fileSize chunkSize m k :
  0 <= fileSize → 0 < chunkSize →
  Z.of_nat (k + m) = numParts fileSize chunkSize →
  tiles (Z.min (Z.of_nat k * chunkSize) fileSize) fileSize
    (range_of chunkSize fileSize <$> (planned_part fileSize chunkSize <$> seq k m)).
Proof.
  intros HF Hc.
  destruct (numParts_bounds fileSize chunkSize HF Hc) as (Hn0 & Hhi & Hlo & Hz).
  revert k. induction m as [|m IH]; intros k Hk; cbn [seq]; [simpl|rewrite !fmap_cons].
  - rewrite <- Hk in Hhi. nia.
  - assert (Z.of_nat k * chunkSize < fileSize) as Hlt.
    { assert (0 < fileSize) by (destruct (decide (fileSize = 0)); [lia|lia]).
      specialize (Hlo ltac:(done)). rewrite <- Hk in Hlo. nia. }
    rewrite range_of_planned_part by done. cbn [tiles fst snd].
    split; [lia|]. split; [nia|].
    replace (Z.of_nat k + 1) with (Z.of_nat (S k)) by lia.
    apply IH. rewrite <- Hk. lia.
Qed.

Lemma tiles_chunk_ranges chunkSize fileSize parts :
  0 <= fileSize → 0 < chunkSize → produced_for chunkSize fileSize parts →
  tiles 0 fileSize (chunk_ranges chunkSize fileSize parts).
Proof.
  intros HF Hc Hp. rewrite (chunk_ranges_planned _ _ _ Hp). unfold planned.
  pose proof (numParts_bounds fileSize chunkSize HF Hc) as (Hn0 & _).
  pose proof (tiles_planned_from fileSize chunkSize
                (Z.to_nat (numParts fileSize chunkSize)) 0 HF Hc) as H.
  replace (Z.min (Z.of_nat 0 * chunkSize) fileSize) with 0 in H by lia.
  apply H. lia.
Qed.

Lemma produced_for_length chunkSize fileSize parts :
  produced_for chunkSize fileSize parts →
  length parts = Z.to_nat (numParts fileSize chunkSize).
Proof.
  intros Hp. apply (f_equal length) in Hp.
  unfold planned in Hp. by rewrite !length_fmap, length_seq in Hp.
Qed.

Lemma last_chunk_len chunkSize fileSize parts p :
  0 <= fileSize → 0 < chunkSize → produced_for chunkSize fileSize parts →
  last parts = Some p →
  chunk_len chunkSize fileSize p
  = fileSize - (Z.of_nat (length parts) - 1) * chunkSize.
Proof.
  intros HF Hc Hp Hl.
  pose proof (produced_for_length _ _ _ Hp) as Hlen.
  destruct (numParts_bounds fileSize chunkSize HF Hc) as (Hn0 & Hhi & Hlo & Hz).
  rewrite last_lookup in Hl.
  assert (length parts ≠ 0)%nat as Hne.
  { intros E. destruct parts; simpl in *; [done|lia]. }
  assert (0 < fileSize) as HFpos.
  { destruct (decide (fileSize = 0)) as [E|]; [|lia]. apply Hz in E. lia. }
  specialize (Hlo HFpos).
  set (i := pred (length parts)) in *.
  assert (range_of chunkSize fileSize (part_number p, part_size p)
          = (Z.of_nat i * chunkSize, Z.min ((Z.of_nat i + 1) * chunkSize) fileSize)) as Hr.
  { assert (((λ q, (part_number q, part_size q)) <$> parts) !! i
            = Some (part_number p, part_size p)) as Hq
      by (by rewrite list_lookup_fmap, Hl).
    rewrite Hp in Hq. unfold planned in Hq.
    rewrite list_lookup_fmap in Hq.
    destruct (seq 0 (Z.to_nat (numParts fileSize chunkSize)) !! i) as [j|] eqn:Hj;
      [|done].
    apply lookup_seq in Hj as [-> _]. simpl in Hq.
    assert (planned_part fileSize chunkSize i = (part_number p, part_size p)) as <-
      by congruence.
    apply range_of_planned_part; [done|]. subst i. nia. }
  unfold chunk_len, chunk_range, part_end, part_start.
  unfold range_of in Hr; simpl in Hr. rewrite Hr. simpl. subst i. nia.
Qed.

End PartRanges.

Section PartRangesMain.
Import ApiClient.

Lemma chunk_len_planned chunkSize fileSize parts :
  produced_for chunkSize fileSize parts →
  chunk_len chunkSize fileSize <$> parts
  = (λ d, (range_of chunkSize fileSize d).2 - (range_of chunkSize fileSize d).1)
      <$> planned fileSize chunkSize.
Proof.
  unfold produced_for. intros <-.
  rewrite <- list_fmap_compose. by apply list_fmap_ext.
Qed.

(** C1 — For a file of [fileSize] bytes and descriptors produced for
    [chunkSize], the byte ranges that [uploadPart] slices
    (start = (part_number − 1) × chunkSize, end = min(start + size, fileSize))
    tile [0, fileSize) in order: every byte of the file lies in exactly one
    range and no range reaches outside the file; the last chunk holds
    fileSize − (numParts − 1) × chunkSize bytes; and for chunkSize = 5MB,
    fileSize = 12MB the chunks hold 5MB, 5MB and 2MB. *)
Theorem C1_part_ranges_partition (fileSize chunkSize : Z) (parts : list PresignedUrl) :
  0 <= fileSize → 0 < chunkSize → produced_for chunkSize fileSize parts →
  let ranges := chunk_ranges chunkSize fileSize parts in
  tiles 0 fileSize ranges
  ∧ (∀ b, 0 <= b < fileSize → cover_count b ranges = 1%nat)
  ∧ (∀ b, ¬ (0 <= b < fileSize) → cover_count b ranges = 0%nat)
  ∧ (∀ p, last parts = Some p →
       chunk_len chunkSize fileSize p
       = fileSize - (Z.of_nat (length parts) - 1) * chunkSize)
  ∧ (chunkSize = 5 * MB → fileSize = 12 * MB →
       chunk_len chunkSize fileSize <$> parts = [5 * MB; 5 * MB; 2 * MB]).
Proof.
  intros HF Hc Hp ranges.
  pose proof (tiles_chunk_ranges _ _ _ HF Hc Hp) as Ht. fold ranges in Ht.
  split; [done|]. split; [|split; [|split]].
  - intros b Hb. by apply (tiles_once 0 fileSize).
  - intros b Hb. apply (tiles_outside 0 fileSize); [done|lia].
  - intros p Hl. by apply last_chunk_len.
  - intros -> ->. rewrite (chunk_len_planned _ _ _ Hp). by vm_compute.
Qed.

Lemma C1_witness :
  chunk_ranges (5 * MB) (12 * MB) parts_12MB
    = [(0, 5 * MB); (5 * MB, 10 * MB); (10 * MB, 12 * MB)]
  ∧ chunk_len (5 * MB) (12 * MB) <$> parts_12MB = [5 * MB; 5 * MB; 2 * MB].
Proof.
  split; [reflexivity|].
  refine (proj2 (proj2 (proj2 (proj2
    (C1_part_ranges_partition (12 * MB) (5 * MB) parts_12MB _ _ _)))) _ _);
    first [reflexivity | by vm_compute].
Defined.

End PartRangesMain.

(** ** The wrappers of api.ts *)

Section Wrappers.
Variable API : string.
Lemma fetch_json_answered (req : Request) (r : Response) (rest : list EnvEvent) :
  (resp ← fetch req; lift (response_json resp)) (world (Answer (Responded r) :: rest))
  = (parsed_body r, {| future := rest; log := [Fetch req]; next_ref := 0 |}).
Proof.
  unfold parsed_body, response_json. cbv [mbind Net_bind fetch perform await_event world].
  simpl. by destruct (json r).
Qed.

End Wrappers.

(** C10 — [createSplit], [createMerge], [createTranscribe], [bulkRename]
    and [getJob] send one request and return the parsed body of the
    response whatever its status code: for a response of any status they
    return the body when it parses and throw only when it does not.  A 500
    whose body is JSON without [task_id] is returned to the caller, who
    reads [task_id] as undefined; [getTusEndpoint], which tests [r.ok],
    throws on the same response. *)
Theorem C10_wrappers_ignore_status (API : string) (r : Response) (rest : list EnvEvent) :
  let w := world (Answer (Responded r) :: rest) in
  let after req := {| future := rest; log := [Fetch req]; next_ref := 0 |} in
  (∀ tus_url,
     Api.createSplit API tus_url w
     = (parsed_body r, after (Api.post_json (API ++ "/split")
                                (JObj [("tus_url", JStr tus_url)]))))
  ∧ (∀ v a off,
     Api.createMerge API v a off w
     = (parsed_body r, after (Api.post_json (API ++ "/merge")
                                (JObj (defined_fields
                                         [("video_tus_url", v);
                                          ("audio_tus_url", a);
                                          ("offset_sec", Some (JNum off))])))))
  ∧ (∀ tus_url,
     Api.createTranscribe API tus_url w
     = (parsed_body r, after (Api.post_json (API ++ "/transcribe")
                                (JObj [("tus_url", JStr tus_url);
                                       ("target_languages", JArr [JStr "original"])]))))
  ∧ (∀ keys pattern start_index pad dryRun,
     Api.bulkRename API keys pattern start_index pad dryRun w
     = (parsed_body r, after (Api.post_json (API ++ "/rename")
                                (JObj [("keys", JArr keys); ("pattern", JStr pattern);
                                       ("start_index", JNum start_index);
                                       ("pad", JNum pad); ("dryRun", JBool dryRun)]))))
  ∧ (∀ task_id,
     Api.getJob API task_id w
     = (parsed_body r, after (Api.get_no_store
                                (API ++ "/jobs/" ++ js_string_opt task_id))))
  ∧ (let '(out, _) := run (Api.createSplit API "tus://f") [Answer (Responded Examples.error_500)] in
     out = Returned (JObj [("detail", JStr "boom")])
     ∧ js_prop (JObj [("detail", JStr "boom")]) "task_id" = inr None)
  ∧ (run (Api.getTusEndpoint API) [Answer (Responded Examples.error_500)]).1
    = Threw (Error "tus endpoint failed").
Proof.
  intros w after. subst w after.
  repeat split; intros; try apply fetch_json_answered.
Qed.

(** ** The polling loop *)

Section Poller.
Variable API : string.
Variable task_id : option Json.

Let req : Request := Api.get_no_store (API ++ "/jobs/" ++ js_string_opt task_id).

Lemma poll_rounds (rs : list Response) :
  ∀ (n : nat) (l : list Effect) (nr : nat),
  (length rs < n)%nat → forallb is_status_response rs = true →
  rounds n (FeaturePage.pollJob_round API task_id FeaturePage.emit)
    {| future := answers rs; log := l; next_ref := nr |}
  = (if existsb snapshot_terminal (omap json rs) then Returned () else Pending,
     {| future := answers (drop (length (up_to_terminal (omap json rs))) rs);
        log := l ++ poll_trace req (omap json rs);
        next_ref := nr |}).
Proof.
  induction rs as [|r rs IH]; intros n l nr Hn Hs.
  - destruct n as [|n]; [simpl in Hn; lia|]. reflexivity.
  - destruct n as [|n]; [simpl in Hn; lia|].
    simpl in Hs. apply andb_prop in Hs as [Hr Hrs].
    unfold is_status_response in Hr.
    destruct (json r) as [s|] eqn:Hj; [|done].
    assert (js_prop s "state" = inr (FeaturePage.snapshot_field s "state")) as Hstate
      by (unfold FeaturePage.snapshot_field; by destruct s).
    cbn [omap list_omap]. rewrite Hj. cbn [existsb up_to_terminal poll_trace length].
    cbn [rounds]. unfold mbind at 1, Net_bind at 1.
    assert (FeaturePage.pollJob_round API task_id FeaturePage.emit
              {| future := answers (r :: rs); log := l; next_ref := nr |}
            = (Returned (snapshot_terminal s),
               {| future := answers rs;
                  log := l ++ Fetch req :: Emit s ::
                           (if snapshot_terminal s then [] else [Sleep 1200]);
                  next_ref := nr |})) as ->.
    { unfold FeaturePage.pollJob_round, Api.getJob, fetch, FeaturePage.emit, sleep,
        snapshot_terminal.
      cbv [mbind Net_bind perform await_event mret Net_ret lift response_json]. simpl.
      rewrite Hj. cbn [future log next_ref]. rewrite Hstate.
      destruct (FeaturePage.terminal (FeaturePage.snapshot_field s "state"));
        cbn [future log next_ref]; by rewrite <- !app_assoc. }
    destruct (snapshot_terminal s) eqn:Ht; cbn [orb].
    + reflexivity.
    + rewrite (IH n _ nr) by (simpl in Hn; lia || done).
      by rewrite <- !app_assoc.
Qed.

Lemma emitted_poll_trace (ss : list Json) :
  emitted (poll_trace req ss) = up_to_terminal ss.
Proof.
  induction ss as [|s ss IH]; [done|].
  cbn [poll_trace up_to_terminal]. unfold emitted in *. cbn [omap list_omap].
  destruct (snapshot_terminal s); cbn [omap list_omap]; [done|]. by rewrite IH.
Qed.

Lemma sleeps_poll_trace (ss : list Json) :
  Forall (λ ms, ms = 1200) (sleeps (poll_trace req ss)).
Proof.
  induction ss as [|s ss IH]; [by constructor|].
  cbn [poll_trace]. unfold sleeps in *. cbn [omap list_omap].
  destruct (snapshot_terminal s); cbn [omap list_omap]; [constructor|].
  by constructor.
Qed.

Lemma fetches_poll_trace (ss : list Json) :
  length (fetches (poll_trace req ss))
  = if existsb snapshot_terminal ss then length (up_to_terminal ss)
    else S (length (up_to_terminal ss)).
Proof.
  induction ss as [|s ss IH]; [done|].
  cbn [poll_trace up_to_terminal existsb]. unfold fetches in *. cbn [omap list_omap].
  destruct (snapshot_terminal s); cbn [omap list_omap orb length]; [done|].
  rewrite IH. by destruct (existsb snapshot_terminal ss).
Qed.

Lemma up_to_terminal_last (ss : list Json) :
  existsb snapshot_terminal ss = true →
  ∃ s, last (up_to_terminal ss) = Some s ∧ snapshot_terminal s = true
       ∧ Forall (λ s', snapshot_terminal s' = false)
           (take (pred (length (up_to_terminal ss))) ss).
Proof.
  induction ss as [|s ss IH]; [done|].
  cbn [existsb up_to_terminal]. destruct (snapshot_terminal s) eqn:Hs; cbn [orb].
  - intros _. exists s. repeat split; [done|]. simpl. constructor.
  - intros Hex. destruct (IH Hex) as (s' & Hl & Ht & Hall).
    exists s'. split; [|split; [done|]].
    + destruct (up_to_terminal ss) eqn:E; [done|]. by rewrite last_cons, Hl.
    + destruct (up_to_terminal ss) eqn:E; [done|]. simpl in *. by constructor.
Qed.

Lemma up_to_terminal_all (ss : list Json) :
  existsb snapshot_terminal ss = false → up_to_terminal ss = ss.
Proof.
  induction ss as [|s ss IH]; [done|].
  cbn [existsb up_to_terminal]. destruct (snapshot_terminal s); cbn [orb]; [done|].
  intros H. by rewrite IH.
Qed.

End Poller.

(** C4 — For every sequence of status responses, each iteration of
    [pollJob] makes one status request and emits its snapshot to the
    callback; the loop ends exactly when a reported state is terminal
    (SUCCESS or FAILURE), at the first such response, and otherwise sleeps
    the fixed 1200 ms (within 1.0–1.2 s) before the next request; so once
    the backend answers with a terminal state, the request that follows the
    current delay is the last one. *)
Theorem C4_pollJob_stops_at_first_terminal
    (API : string) (task_id : option Json) (rs : list Response) :
  forallb is_status_response rs = true →
  let snapshots := omap json rs in
  let req := Api.get_no_store (API ++ "/jobs/" ++ js_string_opt task_id) in
  let '(out, w) := run (FeaturePage.pollJob API task_id FeaturePage.emit) (answers rs) in
  log w = poll_trace req snapshots
  ∧ emitted (log w) = up_to_terminal snapshots
  ∧ length (fetches (log w))
    = (length (emitted (log w)) + match out with Returned _ => 0 | _ => 1 end)%nat
  ∧ (out = Returned () ↔ existsb snapshot_terminal snapshots = true)
  ∧ (out = Pending ↔ existsb snapshot_terminal snapshots = false)
  ∧ (out = Returned () →
       ∃ s, last (emitted (log w)) = Some s ∧ snapshot_terminal s = true
            ∧ Forall (λ s', snapshot_terminal s' = false)
                (take (pred (length (emitted (log w)))) snapshots))
  ∧ (out = Pending → emitted (log w) = snapshots)
  ∧ future w = answers (drop (length (up_to_terminal snapshots)) rs)
  ∧ Forall (λ ms, ms = 1200 ∧ 1000 <= ms <= 1200) (sleeps (log w)).
Proof.
  intros Hs snapshots req. subst snapshots req.
  unfold run, FeaturePage.pollJob, while_true, world. cbn [future].
  rewrite (poll_rounds API task_id rs _ [] 0%nat);
    [|unfold answers; rewrite length_fmap; lia|done].
  cbn [log future app].
  rewrite emitted_poll_trace, fetches_poll_trace.
  destruct (existsb snapshot_terminal (omap json rs)) eqn:Hex.
  - repeat split; try done; try lia.
    + intros _. by apply up_to_terminal_last.
    + eapply Forall_impl; [apply sleeps_poll_trace|]. simpl. intros ? ->. lia.
  - repeat split; try done; try lia.
    + intros _. by apply up_to_terminal_all.
    + eapply Forall_impl; [apply sleeps_poll_trace|]. simpl. intros ? ->. lia.
Qed.

Lemma C4_witness :
  let '(out, w) := run (FeaturePage.pollJob Examples.API Examples.task FeaturePage.emit)
                     (answers Examples.three_answers) in
  out = Returned ()
  ∧ emitted (log w) = [Examples.snapshot "STARTED"; Examples.snapshot "SUCCESS"]
  ∧ sleeps (log w) = [1200]
  ∧ length (fetches (log w)) = 2%nat.
Proof.
  pose proof (C4_pollJob_stops_at_first_terminal Examples.API Examples.task
                Examples.three_answers eq_refl) as H.
  cbv zeta in H.
  destruct (run _ _) as [out w] eqn:E.
  destruct H as (Hlog & Hem & Hf & Hret & _).
  split; [by apply Hret|]. rewrite Hem, Hlog. by vm_compute.
Defined.

(** ** Cancellation and the poller *)

Lemma lift_world {A} (r : JsError + A) (w : World) : (lift r w).2 = w.
Proof. by destruct r. Qed.

Section Rounds.
Variable body : Net bool.
Hypothesis body_consumes : ∀ w w1,
  body w = (Returned false, w1) → (length (future w1) < length (future w))%nat.

(** A loop whose body takes an event of the timeline in every round that
    does not end it: more rounds than there are events to come change
    nothing. *)
Lemma rounds_enough_consuming (n m : nat) (w : World) :
  (length (future w) < n)%nat → (length (future w) < m)%nat →
  rounds n body w = rounds m body w.
Proof.
  revert m w. induction n as [|n IH]; intros m w Hn Hm; [lia|].
  destruct m as [|m]; [lia|].
  cbn [rounds]. unfold mbind, Net_bind.
  destruct (body w) as [[[]| |] w1] eqn:E; try done.
  apply body_consumes in E. apply IH; lia.
Qed.

End Rounds.

Lemma await_shorter {A} (select : EnvEvent → option A) fut l a rest l' :
  await select fut l = (Some a, rest, l') → (length rest < length fut)%nat.
Proof.
  revert l. induction fut as [|ev fut IH]; intros l H; [done|].
  destruct ev; cbn [await] in H.
  - destruct (select (Answer o)); [|done]. injection H as _ <- _. simpl. lia.
  - destruct (select (Uploaded o)); [|done]. injection H as _ <- _. simpl. lia.
  - apply IH in H. simpl. lia.
Qed.

Lemma fetch_shorter (req : Request) (w w1 : World) (r : Response) :
  fetch req w = (Returned r, w1) → (length (future w1) < length (future w))%nat.
Proof.
  unfold fetch. cbv [mbind Net_bind perform await_event]. cbn [future log next_ref].
  destruct (await is_answer (future w) (log w ++ [Fetch req])) as [[[[r'|]|] rest] l] eqn:E;
    try done.
  apply await_shorter in E. by intros [= _ <-].
Qed.

(** The loop of [MergePanel] takes an answer in every round. *)
Lemma merge_poll_round_consumes (API : string) (task_id : option Json) (w w1 : World) :
  MergePanel.poll_round API task_id w = (Returned false, w1) →
  (length (future w1) < length (future w))%nat.
Proof.
  unfold MergePanel.poll_round, Api.getJob, mbind, Net_bind.
  set (req := Api.get_no_store _).
  destruct (fetch req w) as [[r| |] w'] eqn:E; try done.
  apply fetch_shorter in E.
  pose proof (lift_world (response_json r) w') as H2.
  destruct (lift (response_json r) w') as [[s| |] w2]; try done.
  simpl in H2. subst w2.
  pose proof (lift_world (js_prop s "state") w') as H3.
  destruct (lift (js_prop s "state") w') as [[state| |] w3]; try done.
  simpl in H3. subst w3.
  destruct (MergePanel.settled state).
  - pose proof (lift_world (js_prop s "result") w') as H4.
    destruct (lift (js_prop s "result") w') as [[res| |] w4]; try done.
  - unfold sleep. cbv [perform mret Net_ret]. intros [= <-]. done.
Qed.

Section PollerRounds.
Variable API : string.
Variable task_id : option Json.
Variable f : Json → Effect.

Let req : Request := Api.get_no_store (API ++ "/jobs/" ++ js_string_opt task_id).
Let body : Net bool := FeaturePage.pollJob_round API task_id (λ s, perform (f s)).

Lemma pollJob_round_unfold (w : World) : body w = poll_round_result req f w.
Proof.
  unfold body, poll_round_result, FeaturePage.pollJob_round, Api.getJob, fetch, sleep.
  cbv [mbind Net_bind perform await_event mret Net_ret lift response_json throw].
  cbn [future log next_ref]. fold req.
  destruct (await is_answer (future w) (log w ++ [Fetch req])) as [[[[r|]|] rest] l];
    cbn [future log next_ref]; try done.
  destruct (json r) as [s|]; cbn [future log next_ref]; [|done].
  destruct (js_prop s "state") as [e|state]; cbn [future log next_ref]; [done|].
  by destruct (FeaturePage.terminal state).
Qed.

Lemma round_consumes (w w1 : World) :
  body w = (Returned false, w1) → (length (future w1) < length (future w))%nat.
Proof.
  rewrite pollJob_round_unfold. unfold poll_round_result.
  destruct (await is_answer (future w) (log w ++ [Fetch req])) as [[[[r|]|] rest] l] eqn:E;
    try done.
  apply await_shorter in E.
  destruct (json r) as [s|]; [|done].
  destruct (js_prop s "state") as [e|state]; [done|].
  destruct (FeaturePage.terminal state); [done|].
  intros [= <-]. done.
Qed.

(** More rounds than there are events to come change nothing: the loop
    never runs out of rounds. *)
Lemma rounds_enough (n m : nat) (w : World) :
  (length (future w) < n)%nat → (length (future w) < m)%nat →
  rounds n body w = rounds m body w.
Proof. apply rounds_enough_consuming. intros ? ?. apply round_consumes. Qed.

Lemma await_calm {A} (select : EnvEvent → option A) fut l :
  await select (calm fut) (uncancelled l)
  = let '(r, rest, l') := await select fut l in (r, calm rest, uncancelled l').
Proof.
  revert l. induction fut as [|ev fut IH]; intros l; [done|].
  destruct ev; cbn [await calm List.filter].
  - by destruct (select (Answer o)).
  - by destruct (select (Uploaded o)).
  - fold (calm fut). rewrite <- IH. unfold uncancelled. rewrite List.filter_app.
    simpl. by rewrite app_nil_r.
Qed.

Hypothesis f_not_mark : ∀ s, f s ≠ Cancelled.

Lemma uncancelled_snoc (l : list Effect) (e : Effect) :
  e ≠ Cancelled → uncancelled (l ++ [e]) = (uncancelled l ++ [e])%list.
Proof.
  intros He. unfold uncancelled. rewrite List.filter_app. simpl.
  by destruct e.
Qed.

Lemma round_calm (w w' : World) :
  same_but_cancel w w' →
  (body w').1 = (body w).1 ∧ same_but_cancel (body w).2 (body w').2.
Proof.
  intros (Hf & Hl & Hn). rewrite !pollJob_round_unfold. unfold poll_round_result.
  rewrite Hf, Hl, Hn, <- uncancelled_snoc, await_calm by done.
  destruct (await is_answer (future w) (log w ++ [Fetch req])) as [[[[r|]|] rest] l];
    try done.
  destruct (json r) as [s|]; [|done].
  destruct (js_prop s "state") as [e|state].
  { split; [done|]. split; [done|]. split; [|done]. cbn [log snd].
    by rewrite uncancelled_snoc. }
  destruct (FeaturePage.terminal state).
  - split; [done|]. split; [done|]. split; [|done]. cbn [log snd].
    by rewrite uncancelled_snoc.
  - split; [done|]. split; [done|]. split; [|done]. cbn [log snd].
    by rewrite !uncancelled_snoc.
Qed.

Lemma rounds_calm (n : nat) (w w' : World) :
  same_but_cancel w w' →
  (rounds n body w').1 = (rounds n body w).1
  ∧ same_but_cancel (rounds n body w).2 (rounds n body w').2.
Proof.
  revert w w'. induction n as [|n IH]; intros w w' H; [done|].
  cbn [rounds]. unfold mbind, Net_bind.
  destruct (round_calm w w' H) as [Ho Hw].
  destruct (body w) as [o w1], (body w') as [o' w1']. simpl in Ho, Hw. subst o'.
  destruct o as [[]| |]; try done. by apply IH.
Qed.

Lemma calm_shorter (fut : list EnvEvent) : (length (calm fut) <= length fut)%nat.
Proof. unfold calm. apply List.filter_length_le. Qed.

Lemma pollJob_calm (fut : list EnvEvent) :
  let '(out, w) := run (FeaturePage.pollJob API task_id (λ s, perform (f s))) fut in
  let '(out', w') := run (FeaturePage.pollJob API task_id (λ s, perform (f s))) (calm fut) in
  out' = out ∧ log w' = uncancelled (log w) ∧ future w' = calm (future w).
Proof.
  unfold run, FeaturePage.pollJob, while_true. fold body. cbn [world future].
  pose proof (calm_shorter fut).
  rewrite (rounds_enough (S (length (calm fut))) (S (length fut)) (world (calm fut)))
    by (simpl; lia).
  destruct (rounds_calm (S (length fut)) (world fut) (world (calm fut))) as [Ho Hw];
    [done|].
  destruct (rounds (S (length fut)) body (world fut)) as [out w].
  destruct (rounds (S (length fut)) body (world (calm fut))) as [out' w'].
  simpl in Ho, Hw. destruct Hw as (? & ? & ?). done.
Qed.

End PollerRounds.

(** C5, as stated, fails: there is no cancellation flag.  The backend
    answers STARTED, the owner cancels, the backend answers SUCCESS: the
    poller still makes the job-list write for SUCCESS after the
    cancellation, and the entry of the job ends as SUCCESS. *)
Lemma C5_counterexample :
  let '(out, w) := run (FeaturePage.pollJob Examples.API Examples.task
                          (FeaturePage.job_callback Examples.task))
                     Examples.cancelled_timeline in
  out = Returned ()
  ∧ log w = [ Fetch (Api.get_no_store "http://api.test/jobs/t1");
              SetJobs (UpdateFrom Examples.task (Examples.snapshot "STARTED"));
              Sleep 1200;
              Fetch (Api.get_no_store "http://api.test/jobs/t1");
              Cancelled;
              SetJobs (UpdateFrom Examples.task (Examples.snapshot "SUCCESS")) ]
  ∧ quiet_after_cancel (log w) = false
  ∧ Jobs.status <$> FeaturePage.jobs_after (log w) Examples.one_job
    = [Some (JStr "SUCCESS")].
Proof. by vm_compute. Qed.

(** C5 (amended) — [pollJob] has no cancellation flag and reads no
    cancellation request: whatever requests to cancel the owner makes and
    whenever, the run is the run without them — the same outcome, the same
    status requests, the same snapshots given to the callback and the same
    job-list writes, in the same order, up to the first terminal
    snapshot. *)
Theorem C5_pollJob_ignores_cancellation
    (API : string) (task_id : option Json) (timeline : list EnvEvent) :
  (let '(out, w) :=
     run (FeaturePage.pollJob API task_id (FeaturePage.job_callback task_id)) timeline in
   let '(out', w') :=
     run (FeaturePage.pollJob API task_id (FeaturePage.job_callback task_id)) (calm timeline) in
   out' = out ∧ log w' = uncancelled (log w) ∧ future w' = calm (future w))
  ∧
  (let '(out, w) := run (FeaturePage.pollJob API task_id FeaturePage.emit) timeline in
   let '(out', w') := run (FeaturePage.pollJob API task_id FeaturePage.emit) (calm timeline) in
   out' = out ∧ log w' = uncancelled (log w) ∧ future w' = calm (future w)).
Proof.
  split.
  - apply (pollJob_calm API task_id (λ s, SetJobs (UpdateFrom task_id s))). done.
  - apply (pollJob_calm API task_id Emit). done.
Qed.

(** ** Calls of the API client *)

Section ClientCalls.
Import ApiClient.

Lemma fetches_app (l1 l2 : list Effect) :
  fetches (l1 ++ l2) = (fetches l1 ++ fetches l2)%list.
Proof. unfold fetches. apply omap_app. Qed.

Lemma fetches_await {A} (select : EnvEvent → option A) fut l :
  fetches (await select fut l).2 = fetches l.
Proof.
  revert l. induction fut as [|ev fut IH]; intros l; [done|].
  destruct ev; cbn [await].
  - by destruct (select (Answer o)).
  - by destruct (select (Uploaded o)).
  - rewrite IH, fetches_app. simpl. by rewrite app_nil_r.
Qed.

(** A fetch always leaves one more request in the log, whatever the
    answer, and also when none comes. *)
Lemma fetches_fetch (req : Request) (w : World) :
  fetches (log (fetch req w).2) = (fetches (log w) ++ [req])%list.
Proof.
  unfold fetch. cbv [mbind Net_bind perform await_event]. cbn [future log next_ref].
  pose proof (fetches_await is_answer (future w) (log w ++ [Fetch req])) as H.
  destruct (await is_answer (future w) (log w ++ [Fetch req])) as [[[[r|]|] rest] l];
    simpl in *; by rewrite H, fetches_app.
Qed.

Lemma fetches_request (this : APIClient) (endpoint : string) (options : RequestInit)
    (w : World) :
  fetches (log (request this endpoint options w).2)
  = (fetches (log w) ++ [request_fetch this endpoint options])%list.
Proof.
  rewrite <- fetches_fetch. unfold request, mbind, Net_bind.
  destruct (fetch _ w) as [[r| |] w']; [|done|done].
  simpl. by rewrite lift_world.
Qed.

(** The promise of [request] settles as [request_settle] says. *)
Lemma request_answered (this : APIClient) (endpoint : string) (options : RequestInit)
    (o : FetchOutcome) (rest : list EnvEvent) :
  request this endpoint options (world (Answer o :: rest))
  = (match request_settle o with inl e => Threw e | inr j => Returned j end,
     {| future := rest; log := [Fetch (request_fetch this endpoint options)];
        next_ref := 0 |}).
Proof.
  unfold request, fetch. cbv [mbind Net_bind perform await_event world]. simpl.
  destruct o as [r|]; simpl; [|done]. by destruct (request_response r).
Qed.

Lemma fetches_for_of {A} (xs : list A) (f : A → Net unit) (w : World) :
  (∀ x w', fetches (log (f x w').2) = fetches (log w')) →
  fetches (log (for_of xs f w).2) = fetches (log w).
Proof.
  intros Hf. revert w. induction xs as [|x xs IH]; intros w; [done|].
  cbn [for_of]. unfold mbind, Net_bind.
  pose proof (Hf x w) as Hx. destruct (f x w) as [[[]| |] w']; simpl in *;
    by rewrite ?IH.
Qed.

Lemma prefix_app (b p q : string) :
  String.prefix (b ++ p) (b ++ q) = String.prefix p q.
Proof.
  induction b as [|c b IH]; [done|]. simpl.
  by destruct (ascii_dec c c).
Qed.

Lemma abort_is_abort_call (this : APIClient) (key uploadId : string) :
  is_abort_call this (request_fetch this (abort_endpoint key uploadId) abort_options) = true.
Proof. unfold is_abort_call, request_fetch, abort_endpoint. simpl. by rewrite prefix_app. Qed.

Lemma discovery_is_discovery_call (this : APIClient) :
  is_discovery_call this (request_fetch this "/uploads/tus" no_options) = true.
Proof. unfold is_discovery_call, request_fetch. simpl. apply String.eqb_refl. Qed.

End ClientCalls.

(** C7, as stated, fails: nothing remembers that an abort was asked for.
    Two calls of [abortMultipartUpload] for the same upload make two
    network calls. *)
Lemma C7_counterexample :
  let w := calls 2 (ApiClient.abortMultipartUpload Examples.client "raw/a.mp4" "U")
             (world [Answer (Responded Examples.ok_response);
                     Answer (Responded Examples.ok_response)]) in
  length (abort_calls Examples.client (log w)) = 2%nat
  ∧ fetches (log w)
    = [ ApiClient.request_fetch Examples.client
          "/uploads/s3/abort?key=raw/a.mp4&upload_id=U" ApiClient.abort_options;
        ApiClient.request_fetch Examples.client
          "/uploads/s3/abort?key=raw/a.mp4&upload_id=U" ApiClient.abort_options ].
Proof. by vm_compute. Qed.

(** C7 (amended) — every call of [abortMultipartUpload] makes one network
    abort call: asking [n] times makes [n] calls, whatever the backend
    answers. *)
Theorem C7_every_abort_is_a_network_call
    (this : ApiClient.APIClient) (key uploadId : string) (n : nat) (w : World) :
  length (abort_calls this
            (log (calls n (ApiClient.abortMultipartUpload this key uploadId) w)))
  = (length (abort_calls this (log w)) + n)%nat.
Proof.
  revert w. induction n as [|n IH]; intros w; cbn [calls]; [lia|].
  rewrite IH. unfold abort_calls at 1, ApiClient.abortMultipartUpload.
  rewrite fetches_request, List.filter_app. cbn [List.filter].
  rewrite abort_is_abort_call, length_app. unfold abort_calls. simpl. lia.
Qed.

(** C8, as stated, fails: nothing caches the capability.  Two calls of
    [getUploadInfo] make two network fetches, and the second returns what
    the second fetch answered, not the first value. *)
Lemma C8_counterexample :
  let first := ApiClient.getUploadInfo Examples.client (world Examples.two_capabilities) in
  let second := ApiClient.getUploadInfo Examples.client first.2 in
  first.1 = Returned (Examples.capability "http://tus-a/files")
  ∧ second.1 = Returned (Examples.capability "http://tus-b/files")
  ∧ length (discovery_calls Examples.client (log second.2)) = 2%nat.
Proof. by vm_compute. Qed.

(** C8 (amended) — discovery is not cached: every call of [getUploadInfo]
    fetches [/uploads/tus] and returns what that response carries, so [n]
    calls make [n] fetches; every pick of [TusUploader] and every mount
    fetch the endpoint again, with [cache: no-store].  Only FeaturePage
    keeps the endpoint, in its component state, and [uploadViaTus] fetches
    none while that state is not empty.  There is no refresh operation. *)
Theorem C8_discovery_fetches_every_time
    (this : ApiClient.APIClient) (API : string) (n : nat) (w : World)
    (r : Response) (rest : list EnvEvent) (files : list File) (c : ascii) (s : string) :
  length (discovery_calls this (log (calls n (ApiClient.getUploadInfo this) w)))
  = (length (discovery_calls this (log w)) + n)%nat
  ∧ (ApiClient.getUploadInfo this (world (Answer (Responded r) :: rest))).1
    = (lift (ApiClient.request_response r) (world rest)).1
  ∧ fetches (log (TusUploader.onPick API files w).2)
    = (fetches (log w) ++ [Api.get_no_store (API ++ "/uploads/tus")])%list
  ∧ fetches (log (TusUploader.mount API w).2)
    = (fetches (log w) ++ [Api.get_no_store (API ++ "/uploads/tus")])%list
  ∧ fetches (log (FeaturePage.uploadViaTus API (String c s) files w).2) = fetches (log w).
Proof.
  split; [|split; [|split; [|split]]].
  - revert w. induction n as [|n IH]; intros w; cbn [calls]; [lia|].
    rewrite IH. unfold discovery_calls at 1, ApiClient.getUploadInfo.
    rewrite fetches_request, List.filter_app. cbn [List.filter].
    rewrite discovery_is_discovery_call, length_app. unfold discovery_calls. simpl. lia.
  - unfold ApiClient.getUploadInfo, ApiClient.request, fetch.
    cbv [mbind Net_bind perform await_event world]. simpl.
    by destruct (ApiClient.request_response r).
  - rewrite <- fetches_fetch.
    unfold TusUploader.onPick, Api.getTusEndpoint, mbind, Net_bind.
    destruct (fetch _ w) as [[resp| |] w']; [|done|done]. cbn [snd].
    destruct (negb (ok resp)); [done|].
    destruct (response_json resp) as [e|j]; [done|]. simpl.
    destruct (js_prop j "tus_endpoint") as [e|v]; [done|]. simpl.
    rewrite fetches_app. simpl. by rewrite app_nil_r.
  - rewrite <- fetches_fetch.
    unfold TusUploader.mount, Api.getTusEndpoint, mbind, Net_bind.
    destruct (fetch _ w) as [[resp| |] w']; [|done|done]. cbn [snd].
    destruct (negb (ok resp)); [done|].
    destruct (response_json resp) as [e|j]; [done|]. simpl.
    destruct (js_prop j "tus_endpoint") as [e|v]; [done|]. simpl.
    rewrite fetches_app. simpl. by rewrite app_nil_r.
  - unfold FeaturePage.uploadViaTus.
    cbv [mbind Net_bind mret Net_ret perform await_event]. cbn [future log next_ref].
    pose proof (fetches_await is_uploaded (future w)
                  (log w ++ [UppyUpload (Some (JStr (FeaturePage.ensureFilesEndpoint (String c s))))
                               (5 * 1024 * 1024) (Some [0; 1000; 3000; 5000; 10000]) files]))
      as Ha.
    destruct (await is_uploaded _ _) as [[[[succ fails|e]|] rest'] l]; simpl in Ha |- *;
      rewrite ?Ha, ?fetches_app; simpl; rewrite ?app_nil_r; try done.
    match goal with
    | |- context [for_of fails ?f ?w0] =>
        pose proof (fetches_for_of fails f w0) as Hfo
    end.
    destruct (for_of fails _ _) as [[[]| |] w'']; simpl in *;
      (rewrite Hfo; [by rewrite Ha, fetches_app; simpl; rewrite app_nil_r|];
       intros x w'; cbv [mbind Net_bind perform]; simpl;
       rewrite !fetches_app; simpl; by rewrite !app_nil_r).
Qed.

(** ** The multipart upload *)

Section Upload.
Import ApiClient.
Variable this : APIClient.
Variable file : File.

Lemma puts_app (l1 l2 : list Effect) : puts (l1 ++ l2) = (puts l1 ++ puts l2)%list.
Proof. unfold puts. by rewrite fetches_app, List.filter_app. Qed.

Lemma fetches_put_batch (chunkSize : Z) (batch : list PresignedUrl) :
  fetches (Fetch ∘ put_request file chunkSize <$> batch)
  = put_request file chunkSize <$> batch.
Proof. induction batch as [|p batch IH]; [done|]. simpl. by f_equal. Qed.

Lemma puts_put_batch (chunkSize : Z) (batch : list PresignedUrl) :
  puts (Fetch ∘ put_request file chunkSize <$> batch)
  = put_request file chunkSize <$> batch.
Proof.
  unfold puts. rewrite fetches_put_batch.
  induction batch as [|p batch IH]; [done|]. simpl. by f_equal.
Qed.

Lemma put_not_abort (chunkSize : Z) (p : PresignedUrl) :
  is_abort_call this (put_request file chunkSize p) = false.
Proof. done. Qed.

Lemma post_not_abort (endpoint : string) (options : RequestInit) :
  String.prefix "/uploads/s3/abort" endpoint = false →
  is_abort_call this (request_fetch this endpoint options) = false.
Proof.
  intros H. unfold is_abort_call, request_fetch. cbn [req_method req_url].
  destruct (default GET (init_method options)); try done. by rewrite prefix_app.
Qed.

Lemma take_add_drop {A} (l : list A) (i m : nat) :
  take (i + m) l = (take i l ++ take m (drop i l))%list.
Proof.
  revert l. induction i as [|i IH]; intros l; [done|].
  destruct l as [|x l]; simpl; [by rewrite take_nil|]. by rewrite IH.
Qed.

Lemma length_remove (k : nat) (l : list nat) : (length (remove k l) <= length l)%nat.
Proof. apply length_filter. Qed.

Lemma elem_of_remove (k x : nat) (l : list nat) : x ∈ remove k l → x ∈ l.
Proof. unfold remove. rewrite list_elem_of_filter. tauto. Qed.

Lemma upload_inv_start : upload_inv this file (start this file).
Proof.
  split.
  - cbn. constructor; [|constructor]. by apply post_not_abort.
  - cbn. eauto.
Qed.

Lemma upload_effects_no_abort (l : list Effect) :
  Forall (upload_effect this) l → abort_calls this l = [].
Proof.
  unfold abort_calls. induction 1 as [|e l He _ IH]; [done|].
  destruct e; try done. cbn. cbn in He, IH. by rewrite He.
Qed.

Lemma upload_effects_no_sleep (l : list Effect) :
  Forall (upload_effect this) l → sleeps l = [].
Proof.
  induction 1 as [|e l He _ IH]; [done|]. by destruct e.
Qed.

Lemma upload_inv_fail (e : JsError) (st : UploadState) :
  Forall (upload_effect this) (ulog st) →
  match uploadInfo st with
  | None => inflight st = [] ∧ puts (ulog st) = []
  | Some info =>
      (1 <= Z.to_nat (maxConcurrent_of info))%nat
      ∧ puts (ulog st)
        = put_request file (chunkSize_of info) <$> take (started st) (presigned_urls info)
      ∧ (started st <= length (presigned_urls info))%nat
      ∧ (length (inflight st) <= Z.to_nat (maxConcurrent_of info))%nat
      ∧ (∀ k, k ∈ inflight st → (k < started st)%nat)
  end →
  upload_inv this file (fail e st).
Proof.
  intros Hab H. unfold upload_inv, fail, set_phase, add_log, started in *.
  cbn [ulog uploadInfo inflight phase].
  rewrite puts_app. cbn [fetches puts omap list_omap List.filter].
  rewrite !app_nil_r.
  split; [apply Forall_app; split; [done|by repeat constructor]|].
  destruct (uploadInfo st) as [info|].
  - destruct H as (? & ? & ? & ? & ?). done.
  - destruct H as [? ?]. eauto.
Qed.

Lemma upload_inv_loop_head (info : MultipartUploadInfo) (i : nat) (st : UploadState) :
  Forall (upload_effect this) (ulog st) →
  uploadInfo st = Some info →
  (1 <= Z.to_nat (maxConcurrent_of info))%nat →
  inflight st = [] →
  puts (ulog st)
  = put_request file (chunkSize_of info) <$> take i (presigned_urls info) →
  (length (puts (ulog st)) = Nat.min i (length (presigned_urls info))) →
  upload_inv this file (loop_head this file info i st).
Proof.
  intros Hab Hinfo Hm Hin Hputs Hstarted. unfold loop_head.
  set (urls := presigned_urls info) in *.
  set (m := Z.to_nat (maxConcurrent_of info)) in *.
  destruct (i <? length urls)%nat eqn:Hi.
  - apply Nat.ltb_lt in Hi.
    set (batch := take m (drop i urls)).
    assert (length batch = Nat.min m (length urls - i)) as Hlen
      by (unfold batch; by rewrite length_take, length_drop).
    unfold upload_inv, started. cbn [ulog uploadInfo inflight phase].
    rewrite Hinfo, Hin. cbn [app].
    rewrite puts_app, puts_put_batch.
    split.
    { apply Forall_app. split; [done|].
      apply Forall_fmap, Forall_forall. intros; apply put_not_abort. }
    fold urls m. rewrite Hputs, <- fmap_app. fold batch.
    rewrite length_fmap, length_app, length_take, Hlen.
    assert (take i urls ++ batch = take (i `min` length urls + m `min` (length urls - i)) urls)%list
      as ->.
    { replace (i `min` length urls + m `min` (length urls - i))%nat
        with (i + (m `min` (length urls - i)))%nat by lia.
      rewrite take_add_drop. f_equal. unfold batch.
      apply list_eq. intros j. rewrite !lookup_take.
      repeat case_decide; try done; try lia.
      - rewrite lookup_ge_None_2; [done|]. rewrite length_drop. lia.
    }
    split; [done|]. split; [done|]. split; [lia|].
    split; [done|]. split.
    { intros E. apply (f_equal length) in E. rewrite length_seq in E.
      simpl in E. unfold batch in Hlen. lia. }
    unfold batch in Hlen.
    split; [rewrite length_seq; lia|]. split; [lia|].
    intros k Hk. apply elem_of_seq in Hk. lia.
  - apply Nat.ltb_ge in Hi.
    unfold upload_inv, started, set_phase, add_log.
    cbn [ulog uploadInfo inflight phase].
    rewrite puts_app, Hinfo.
    cbn [fetches puts omap list_omap List.filter request_fetch req_method
           complete_options init_method default from_option id].
    rewrite !app_nil_r.
    split.
    { apply Forall_app. split; [done|]. constructor; [|constructor].
      by apply post_not_abort. }
    fold urls m. rewrite Hstarted.
    replace (i `min` length urls)%nat with (length urls) by lia.
    rewrite Hputs, !take_ge by lia. done.
Qed.

Lemma maxConcurrent_positive (info : MultipartUploadInfo) :
  valid_array_length (maxConcurrent_of info) = true →
  (1 <= Z.to_nat (maxConcurrent_of info))%nat.
Proof.
  unfold valid_array_length, maxConcurrent_of, js_or.
  destruct (metadata info ≫= max_concurrent) as [v|]; [|lia].
  destruct (Z.eqb_spec v 0); lia.
Qed.

Lemma upload_inv_initiated (o : FetchOutcome) (st : UploadState) :
  upload_inv this file st → phase st = Initiating →
  upload_inv this file (initiated this file o st).
Proof.
  intros [Hab H] Hph. rewrite Hph in H.
  destruct (uploadInfo st) as [info0|] eqn:Hinfo; [destruct H as (_ & _ & _ & []) |].
  destruct H as (Hin & Hputs & _).
  assert (∀ e, upload_inv this file (fail e st)) as Hfail.
  { intros e. apply upload_inv_fail; [done|]. by rewrite Hinfo. }
  unfold initiated.
  destruct (request_settle o) as [e|j]; [done|].
  destruct (as_MultipartUploadInfo j) as [info|]; [|done].
  destruct (valid_array_length (maxConcurrent_of info)) eqn:Hv; [|done].
  apply upload_inv_loop_head; cbn [ulog uploadInfo inflight]; try done;
    first [by apply maxConcurrent_positive | by rewrite Hputs].
Qed.

Lemma upload_inv_part_settled (k : nat) (o : FetchOutcome) (st : UploadState) :
  upload_inv this file st → k ∈ inflight st →
  upload_inv this file (part_settled this file k o st).
Proof.
  intros Hinv Hk. pose proof Hinv as [Hab H]. unfold part_settled.
  destruct (uploadInfo st) as [info|] eqn:Hinfo; [|done].
  destruct (presigned_urls info !! k) as [partInfo|]; [|done].
  destruct H as (Hm & Hputs & Hle & Hph).
  set (m := Z.to_nat (maxConcurrent_of info)) in *.
  set (urls := presigned_urls info) in *.
  destruct (uploadPart_settle partInfo o) as [e|etag].
  - (* the part fails *)
    cbn [phase].
    destruct (phase st) as [|i waiting| | |e0] eqn:Hphase.
    + done.
    + destruct Hph as (Hin & Hne & Hlen & Hst & Hmem).
      apply upload_inv_fail; cbn [ulog uploadInfo inflight]; [done|].
      rewrite ?Hinfo. fold m urls. unfold started in *. cbn [ulog].
      split; [done|]. split; [done|]. split; [done|]. split.
      * rewrite Hin. pose proof (length_remove k waiting). lia.
      * intros x Hx. apply elem_of_remove in Hx. rewrite Hin in Hx.
        apply Hmem in Hx. lia.
    + destruct Hph as [Hin _]. rewrite Hin in Hk. by apply elem_of_nil in Hk.
    + destruct Hph as [Hin _]. rewrite Hin in Hk. by apply elem_of_nil in Hk.
    + destruct Hph as [Hlen Hmem].
      unfold upload_inv, started in *. cbn [ulog uploadInfo inflight phase].
      rewrite ?Hinfo, ?Hphase. fold m urls.
      split; [done|]. split; [done|]. split; [done|]. split; [done|]. split.
      * pose proof (length_remove k (inflight st)). lia.
      * intros x Hx. apply elem_of_remove in Hx. by apply Hmem.
  - (* the part succeeds *)
    unfold part_done. cbn [phase ulog uploadInfo inflight parts completedBytes].
    set (l2 := (ulog st ++ _)%list).
    assert (Forall (upload_effect this) l2) as Hf2
      by (apply Forall_app; split; [done|by repeat constructor]).
    assert (puts l2 = puts (ulog st)) as Hp2
      by (unfold l2; rewrite puts_app; cbn; by rewrite app_nil_r).
    destruct (phase st) as [|i waiting| | |e0] eqn:Hphase.
    + done.
    + destruct Hph as (Hin & Hne & Hlen & Hst & Hmem).
      destruct (remove k waiting) as [|x waiting'] eqn:Hrem.
      * apply upload_inv_loop_head; cbn [ulog uploadInfo inflight]; try done.
        -- by rewrite Hin, Hrem.
        -- rewrite Hp2, Hputs, Hst. fold m urls.
           destruct (decide (i + m <= length urls)%nat).
           ++ by rewrite Nat.min_l by lia.
           ++ rewrite Nat.min_r by lia. by rewrite !take_ge by lia.
        -- rewrite Hp2. fold (started st). rewrite Hst. fold m urls. lia.
      * unfold upload_inv, set_phase, started in *.
        cbn [ulog uploadInfo inflight phase]. rewrite ?Hinfo, ?Hf2, ?Hp2. fold m urls.
        split; [done|]. split; [done|]. split; [done|]. split; [done|].
        split; [by rewrite Hin, Hrem|]. split; [done|]. split.
        -- rewrite <- Hrem. pose proof (length_remove k waiting). lia.
        -- split; [done|]. intros y Hy. rewrite <- Hrem in Hy.
           apply elem_of_remove in Hy. by apply Hmem.
    + destruct Hph as [Hin _]. rewrite Hin in Hk. by apply elem_of_nil in Hk.
    + destruct Hph as [Hin _]. rewrite Hin in Hk. by apply elem_of_nil in Hk.
    + destruct Hph as [Hlen Hmem].
      unfold upload_inv, started in *. cbn [ulog uploadInfo inflight phase].
      rewrite ?Hinfo, ?Hphase, ?Hf2, ?Hp2. fold m urls.
      split; [done|]. split; [done|]. split; [done|]. split; [done|]. split.
      * pose proof (length_remove k (inflight st)). lia.
      * intros x Hx. apply elem_of_remove in Hx. by apply Hmem.
Qed.

Lemma upload_inv_completed (o : FetchOutcome) (st : UploadState) :
  upload_inv this file st → phase st = Completing →
  upload_inv this file (completed o st).
Proof.
  intros [Hab H] Hph. unfold completed.
  destruct (uploadInfo st) as [info|] eqn:Hinfo.
  - rewrite Hph in H. destruct H as (Hm & Hputs & Hle & Hin & Hst).
    assert (∀ e, upload_inv this file (fail e st)) as Hfail.
    { intros e. apply upload_inv_fail; [done|]. rewrite Hinfo.
      split; [done|]. split; [done|]. split; [done|]. rewrite Hin.
      split; [simpl; lia|]. intros k Hk. by apply elem_of_nil in Hk. }
    destruct (request_settle o) as [e|j]; [apply Hfail|].
    destruct (s3_url (key info)) as [e|s]; [apply Hfail|].
    unfold upload_inv, set_phase, started in *.
    cbn [ulog uploadInfo inflight phase]. by rewrite Hinfo.
  - destruct H as (_ & _ & [Hi | [e He]]); congruence.
Qed.

Lemma upload_inv_step (st : UploadState) (ev : Settle) :
  upload_inv this file st → upload_inv this file (step this file st ev).
Proof.
  intros Hinv. destruct ev as [[|k|] o]; cbn [step].
  - destruct (phase st) eqn:Hph; try done. by apply upload_inv_initiated.
  - case_decide; [|done]. by apply upload_inv_part_settled.
  - destruct (phase st) eqn:Hph; try done. by apply upload_inv_completed.
Qed.

Lemma upload_inv_foldl (events : list Settle) (st : UploadState) :
  upload_inv this file st → upload_inv this file (foldl (step this file) st events).
Proof.
  revert st. induction events as [|ev events IH]; intros st Hinv; [done|].
  cbn [foldl]. by apply IH, upload_inv_step.
Qed.

Lemma upload_inv_run (events : list Settle) :
  upload_inv this file (uploadWithS3Multipart this file events).
Proof. apply upload_inv_foldl, upload_inv_start. Qed.

(** *** When parts start *)

Lemma loop_head_starts (info : MultipartUploadInfo) (i : nat) (st : UploadState) :
  inflight st = [] →
  (1 <= Z.to_nat (maxConcurrent_of info))%nat →
  length (puts (ulog st)) = Nat.min i (length (presigned_urls info)) →
  let st' := loop_head this file info i st in
  started st' = started st
  ∨ ((started st < started st')%nat
     ∧ inflight st' = seq (started st) (started st' - started st)).
Proof.
  intros Hin Hm Hst st'. subst st'. unfold loop_head, started.
  destruct (i <? length (presigned_urls info))%nat eqn:Hi.
  - apply Nat.ltb_lt in Hi. right. cbn [ulog inflight].
    rewrite puts_app, puts_put_batch, length_app, length_fmap, length_take, length_drop.
    rewrite Hin, Hst. cbn [app].
    replace (i `min` length (presigned_urls info))%nat with i by lia.
    split; [lia|]. f_equal. lia.
  - left. unfold set_phase, add_log. cbn [ulog].
    rewrite puts_app. cbn. by rewrite app_nil_r.
Qed.

Lemma step_starts (st : UploadState) (ev : Settle) :
  upload_inv this file st →
  let st' := step this file st ev in
  started st' = started st
  ∨ ((started st < started st')%nat
     ∧ inflight st' = seq (started st) (started st' - started st)).
Proof.
  intros [Hab H] st'. subst st'.
  assert (∀ e s, started (fail e s) = started s) as Hfail.
  { intros e s. unfold started, fail, set_phase, add_log. cbn [ulog].
    rewrite puts_app. cbn. by rewrite app_nil_r. }
  destruct ev as [[|k|] o]; cbn [step].
  - destruct (phase st) eqn:Hph; try by left.
    rewrite ?Hph in H.
    destruct (uploadInfo st) as [info0|] eqn:Hinfo; [destruct H as (_ & _ & _ & []) |].
    destruct H as (Hin & Hputs & _).
    unfold initiated.
    destruct (request_settle o) as [e|j]; [left; apply Hfail|].
    destruct (as_MultipartUploadInfo j) as [info|]; [|left; apply Hfail].
    destruct (valid_array_length (maxConcurrent_of info)) eqn:Hv; [|left; apply Hfail].
    match goal with
    | |- context [loop_head _ _ _ ?j ?s] =>
        pose proof (loop_head_starts info j s) as Hl
    end.
    cbn [ulog inflight] in Hl. unfold started in Hl. cbn [ulog] in Hl.
    unfold started. apply Hl; [done|by apply maxConcurrent_positive|by rewrite Hputs].
  - case_decide as Hk; [|by left]. unfold part_settled.
    destruct (uploadInfo st) as [info|] eqn:Hinfo; [|by left].
    destruct (presigned_urls info !! k) as [partInfo|]; [|by left].
    destruct H as (Hm & Hputs & Hle & Hph).
    destruct (uploadPart_settle partInfo o) as [e|etag].
    + cbn [phase]. destruct (phase st); try by left. left. by rewrite Hfail.
    + unfold part_done. cbn [phase ulog uploadInfo inflight parts completedBytes].
      set (l2 := (ulog st ++ _)%list).
      assert (puts l2 = puts (ulog st)) as Hp2
        by (unfold l2; rewrite puts_app; cbn; by rewrite app_nil_r).
      destruct (phase st) as [|i waiting| | |e0] eqn:Hphase;
        try (left; unfold started; cbn [ulog]; by rewrite Hp2).
      destruct Hph as (Hin & Hne & Hlen & Hst & Hmem).
      destruct (remove k waiting) as [|x waiting'] eqn:Hrem.
      * match goal with
        | |- context [loop_head _ _ _ ?j ?s] =>
            pose proof (loop_head_starts info j s) as Hl
        end.
        cbn [ulog inflight] in Hl. unfold started in Hl. cbn [ulog] in Hl.
        rewrite Hp2 in Hl. unfold started. apply Hl; [by rewrite Hin, Hrem|done|].
        unfold started in Hst. rewrite Hst. lia.
      * left. unfold started, set_phase. cbn [ulog]. by rewrite Hp2.
  - destruct (phase st) eqn:Hph; try by left.
    unfold completed. destruct (request_settle o) as [e|j]; [left; apply Hfail|].
    destruct (uploadInfo st) as [info|]; [|by left].
    destruct (s3_url (key info)); [left; apply Hfail|by left].
Qed.

(** *** After a failure *)

Lemma rejected_step (e : JsError) (st : UploadState) (ev : Settle) :
  phase st = Rejected e →
  phase (step this file st ev) = Rejected e
  ∧ fetches (ulog (step this file st ev)) = fetches (ulog st).
Proof.
  intros Hph. destruct ev as [[|k|] o]; cbn [step]; rewrite ?Hph; try done.
  case_decide; [|done]. unfold part_settled.
  destruct (uploadInfo st) as [info|]; [|done].
  destruct (presigned_urls info !! k) as [partInfo|]; [|done].
  destruct (uploadPart_settle partInfo o) as [e'|etag]; unfold part_done;
    cbn [phase]; rewrite !Hph; cbn [phase ulog].
  - done.
  - split; [done|]. rewrite fetches_app. cbn. by rewrite app_nil_r.
Qed.

Lemma rejected_foldl (e : JsError) (events : list Settle) (st : UploadState) :
  phase st = Rejected e →
  phase (foldl (step this file) st events) = Rejected e
  ∧ fetches (ulog (foldl (step this file) st events)) = fetches (ulog st).
Proof.
  revert st. induction events as [|ev events IH]; intros st Hph; [done|].
  cbn [foldl]. destruct (rejected_step e st ev Hph) as [Hph' Hf].
  destruct (IH _ Hph') as [? ?]. split; [done|congruence].
Qed.

(** A part that fails: it is not sent again, nothing waits, and the upload
    that was waiting for it is rejected with the error of the part. *)
Lemma part_failure (st : UploadState) (k : nat) (o : FetchOutcome)
    (info : MultipartUploadInfo) (partInfo : PresignedUrl) (e : JsError) :
  k ∈ inflight st →
  uploadInfo st = Some info → presigned_urls info !! k = Some partInfo →
  uploadPart_settle partInfo o = inl e →
  let st' := step this file st (Settled (TokPart k) o) in
  fetches (ulog st') = fetches (ulog st)
  ∧ (k ∉ inflight st')
  ∧ (phase st' = phase st
     ∨ (∃ i waiting, phase st = Uploading i waiting ∧ phase st' = Rejected e)).
Proof.
  intros Hk Hinfo Hp He st'. subst st'. cbn [step].
  rewrite decide_True by done. unfold part_settled. rewrite Hinfo, Hp, He. cbn [phase].
  assert (k ∉ remove k (inflight st)) as Hnot.
  { unfold remove. rewrite list_elem_of_filter. tauto. }
  destruct (phase st) as [|i waiting| | |e0] eqn:Hphase; cbn [ulog inflight phase];
    rewrite ?Hphase; try (split; [done|]; split; [done|]; by left).
  unfold fail, set_phase, add_log. cbn [ulog inflight phase].
  rewrite fetches_app. cbn. rewrite app_nil_r.
  split; [done|]. split; [done|]. right. eauto.
Qed.

End Upload.

(** C2, as stated, fails in its second half: the uploader is not a
    pipelined semaphore.  With three parts and at most two at a time, when
    the first part of the first batch has completed, one upload is
    outstanding, one slot is free and the third part is pending, yet it is
    not started; it starts only when the second part has completed too. *)
Lemma C2_counterexample :
  let st := ApiClient.uploadWithS3Multipart Examples.client Examples.media
              [Examples.initiated_ok; Examples.part_ok 0] in
  let st' := ApiClient.step Examples.client Examples.media st (Examples.part_ok 1) in
  (ApiClient.maxConcurrent_of <$> ApiClient.uploadInfo st) = Some 2
  ∧ (length ∘ ApiClient.presigned_urls <$> ApiClient.uploadInfo st) = Some 3%nat
  ∧ ApiClient.inflight st = [1%nat]
  ∧ started st = 2%nat
  ∧ ApiClient.phase st = ApiClient.Uploading 0 [1%nat]
  ∧ started st' = 3%nat
  ∧ ApiClient.inflight st' = [2%nat].
Proof. by vm_compute. Qed.

(** C2 (amended) — At most [maxConcurrent] part uploads are outstanding at
    any moment.  Parts are started in batches of at most [maxConcurrent]:
    whenever an event starts new parts, no part started earlier is still
    outstanding, so the next batch starts only after the whole current
    batch has completed. *)
Theorem C2_bounded_batches
    (this : ApiClient.APIClient) (file : File) (events : list ApiClient.Settle)
    (ev : ApiClient.Settle) :
  let st := ApiClient.uploadWithS3Multipart this file events in
  let st' := ApiClient.step this file st ev in
  Z.of_nat (length (ApiClient.inflight st))
    <= default 0 (ApiClient.maxConcurrent_of <$> ApiClient.uploadInfo st)
  ∧ (started st' = started st
     ∨ ((started st < started st')%nat
        ∧ ApiClient.inflight st' = seq (started st) (started st' - started st))).
Proof.
  intros st st'. pose proof (upload_inv_run this file events) as Hinv. fold st in Hinv.
  split; [|by apply step_starts].
  destruct Hinv as [_ H].
  destruct (ApiClient.uploadInfo st) as [info|]; simpl.
  - destruct H as (Hm & _ & _ & Hph).
    destruct (ApiClient.phase st) as [|i waiting| | |e].
    + done.
    + destruct Hph as (-> & _ & Hlen & _). lia.
    + destruct Hph as [-> _]. simpl. lia.
    + destruct Hph as [-> _]. simpl. lia.
    + destruct Hph as [Hlen _]. lia.
  - destruct H as (-> & _). done.
Qed.

(** C3, as stated, fails in its second half: no abort call is made.  All
    three parts succeed, the completion call is answered 500: the upload is
    rejected with the error, and the requests made are the initiate call,
    the three PUTs and the completion call. *)
Lemma C3_counterexample :
  let st := ApiClient.uploadWithS3Multipart Examples.client Examples.media
              (Examples.all_parts_ok
               ++ [ApiClient.Settled ApiClient.TokComplete
                     (Responded Examples.error_500)]) in
  ApiClient.phase st = ApiClient.Rejected (Error "API Error: boom")
  ∧ abort_calls Examples.client (ApiClient.ulog st) = []
  ∧ (λ r, (req_method r, req_url r)) <$> fetches (ApiClient.ulog st)
    = [ (POST, "http://localhost:8000/uploads/s3/initiate");
        (PUT, "https://s3/p1"); (PUT, "https://s3/p2"); (PUT, "https://s3/p3");
        (POST, "http://localhost:8000/uploads/s3/complete") ].
Proof. by vm_compute. Qed.

(** C3 (amended) — When the completion call fails after all parts
    succeeded, the failure is fatal: the error is printed and thrown to the
    caller, and the upload stays rejected.  [uploadWithS3Multipart] makes
    no abort call, then or ever; [abortMultipartUpload] is left to the
    caller. *)
Theorem C3_completion_failure_is_fatal
    (this : ApiClient.APIClient) (file : File) (events more : list ApiClient.Settle)
    (o : FetchOutcome) (e : JsError) :
  let st := ApiClient.uploadWithS3Multipart this file events in
  ApiClient.phase st = ApiClient.Completing →
  ApiClient.request_settle o = inl e →
  let st' := ApiClient.step this file st (ApiClient.Settled ApiClient.TokComplete o) in
  let st'' := foldl (ApiClient.step this file) st' more in
  ApiClient.inflight st = []
  ∧ (length ∘ ApiClient.presigned_urls <$> ApiClient.uploadInfo st) = Some (started st)
  ∧ ApiClient.phase st' = ApiClient.Rejected e
  ∧ ApiClient.ulog st' = (ApiClient.ulog st ++ [ConsoleError e])%list
  ∧ ApiClient.phase st'' = ApiClient.Rejected e
  ∧ fetches (ApiClient.ulog st'') = fetches (ApiClient.ulog st)
  ∧ abort_calls this (ApiClient.ulog st'') = [].
Proof.
  intros st Hph He st' st''.
  pose proof (upload_inv_run this file events) as Hinv. fold st in Hinv.
  assert (ApiClient.phase st' = ApiClient.Rejected e
          ∧ ApiClient.ulog st' = (ApiClient.ulog st ++ [ConsoleError e])%list) as [Hph' Hlog'].
  { subst st'. cbn [ApiClient.step]. rewrite Hph. unfold ApiClient.completed.
    by rewrite He. }
  destruct (rejected_foldl this file e more st' Hph') as [Hph'' Hf''].
  fold st'' in Hph'', Hf''.
  assert (upload_inv this file st'') as [Hab'' _].
  { by apply upload_inv_foldl, upload_inv_step. }
  destruct Hinv as [_ H].
  destruct (ApiClient.uploadInfo st) as [info|].
  - rewrite Hph in H. destruct H as (_ & _ & _ & Hin & Hst).
    repeat split; try done.
    + cbn. by rewrite Hst.
    + rewrite Hf'', Hlog', fetches_app. cbn. by rewrite app_nil_r.
    + by apply upload_effects_no_abort.
  - destruct H as (_ & _ & [Hi | [e0 He0]]); congruence.
Qed.

Lemma C3_witness :
  let st := ApiClient.uploadWithS3Multipart Examples.client Examples.media
              Examples.all_parts_ok in
  let st'' := foldl (ApiClient.step Examples.client Examples.media)
                (ApiClient.step Examples.client Examples.media st
                   (ApiClient.Settled ApiClient.TokComplete (Responded Examples.error_500)))
                [Examples.part_ok 0] in
  ApiClient.phase st'' = ApiClient.Rejected (Error "API Error: boom")
  ∧ abort_calls Examples.client (ApiClient.ulog st'') = [].
Proof.
  pose proof (C3_completion_failure_is_fatal Examples.client Examples.media
                Examples.all_parts_ok [Examples.part_ok 0]
                (Responded Examples.error_500) (Error "API Error: boom")
                eq_refl eq_refl) as H.
  cbv zeta in H. destruct H as (_ & _ & _ & _ & H1 & _ & H2). by split.
Defined.

(** C6, as stated, fails in its first half: a part upload is never
    retried.  The first part is answered 503: the upload is rejected at
    once with the error of the part; the part was sent once, nothing
    waited, and the settlement of the other part of the batch starts
    nothing. *)
Lemma C6_counterexample :
  let st := ApiClient.uploadWithS3Multipart Examples.client Examples.media
              [ Examples.initiated_ok;
                ApiClient.Settled (ApiClient.TokPart 0) (Responded Examples.unavailable);
                Examples.part_ok 1 ] in
  ApiClient.phase st
    = ApiClient.Rejected (Error "Part 1 upload failed: Service Unavailable")
  ∧ req_url <$> ApiClient.puts (ApiClient.ulog st) = ["https://s3/p1"; "https://s3/p2"]
  ∧ sleeps (ApiClient.ulog st) = []
  ∧ ApiClient.inflight st = [].
Proof. by vm_compute. Qed.

(** C6 (amended) — A part upload of the S3 path is attempted once.  Any
    failure — a response that is not 2xx (5xx and 429 included), a network
    failure, a missing ETag — fails the part at once: no request is sent
    for it again, no delay is taken, and the upload that waits for it is
    rejected with the error of the part.  Every part is sent at most once,
    in order.  The delays 0 s, 3 s, 5 s, 10 s, 20 s are only the
    [retryDelays] option that [uploadWithTUS] hands to the tus client. *)
Theorem C6_part_failure_is_immediate
    (this : ApiClient.APIClient) (file : File) (events : list ApiClient.Settle)
    (k : nat) (o : FetchOutcome) (info : ApiClient.MultipartUploadInfo)
    (partInfo : ApiClient.PresignedUrl) (e : JsError) (endpoint : string) :
  let st := ApiClient.uploadWithS3Multipart this file events in
  k ∈ ApiClient.inflight st →
  ApiClient.uploadInfo st = Some info →
  ApiClient.presigned_urls info !! k = Some partInfo →
  ApiClient.uploadPart_settle partInfo o = inl e →
  let st' := ApiClient.step this file st (ApiClient.Settled (ApiClient.TokPart k) o) in
  fetches (ApiClient.ulog st') = fetches (ApiClient.ulog st)
  ∧ sleeps (ApiClient.ulog st') = []
  ∧ (k ∉ ApiClient.inflight st')
  ∧ (ApiClient.phase st' = ApiClient.phase st
     ∨ (∃ i waiting, ApiClient.phase st = ApiClient.Uploading i waiting
                     ∧ ApiClient.phase st' = ApiClient.Rejected e))
  ∧ ApiClient.puts (ApiClient.ulog st')
    = ApiClient.put_request file (ApiClient.chunkSize_of info)
        <$> take (started st') (ApiClient.presigned_urls info)
  ∧ (∀ r, ok r = false →
       ApiClient.uploadPart_settle partInfo (Responded r)
       = inl (Error ("Part " ++ pretty (ApiClient.part_number partInfo)
                     ++ " upload failed: " ++ statusText r)))
  ∧ ApiClient.uploadPart_settle partInfo NetworkFailure = inl (TypeError "Failed to fetch")
  ∧ ApiClient.tus_retryDelays (ApiClient.uploadWithTUS_options file endpoint)
    = [0; 3000; 5000; 10000; 20000].
Proof.
  intros st Hk Hinfo Hp He st'.
  destruct (part_failure this file st k o info partInfo e Hk Hinfo Hp He)
    as (Hf & Hnot & Hph). fold st' in Hf, Hnot, Hph.
  assert (upload_inv this file st') as [Hab' H'].
  { apply upload_inv_step, upload_inv_run. }
  assert (ApiClient.uploadInfo st' = Some info) as Hinfo'.
  { subst st'. cbn [ApiClient.step]. rewrite decide_True by done.
    unfold ApiClient.part_settled. rewrite Hinfo, Hp, He. cbn [ApiClient.phase].
    by destruct (ApiClient.phase st). }
  rewrite Hinfo' in H'. destruct H' as (_ & Hputs & _).
  repeat split; try done.
  - by apply (upload_effects_no_sleep this).
  - intros r Hr. unfold ApiClient.uploadPart_settle. by rewrite Hr.
Qed.

Lemma C6_witness :
  let st := ApiClient.uploadWithS3Multipart Examples.client Examples.media
              [Examples.initiated_ok] in
  let st' := ApiClient.step Examples.client Examples.media st
               (ApiClient.Settled (ApiClient.TokPart 0)
                  (Responded Examples.too_many_requests)) in
  fetches (ApiClient.ulog st') = fetches (ApiClient.ulog st)
  ∧ sleeps (ApiClient.ulog st') = []
  ∧ ApiClient.phase st' = ApiClient.Rejected (Error "Part 1 upload failed: Too Many Requests").
Proof.
  pose proof (C6_part_failure_is_immediate Examples.client Examples.media
                [Examples.initiated_ok] 0 (Responded Examples.too_many_requests)
                {| ApiClient.upload_id := Some (JStr "U");
                   ApiClient.key := Some (JStr "raw/a.mp4");
                   ApiClient.presigned_urls :=
                     [ {| ApiClient.part_number := 1; ApiClient.url := "https://s3/p1";
                          ApiClient.part_size := 5 * ApiClient.MB |};
                       {| ApiClient.part_number := 2; ApiClient.url := "https://s3/p2";
                          ApiClient.part_size := 5 * ApiClient.MB |};
                       {| ApiClient.part_number := 3; ApiClient.url := "https://s3/p3";
                          ApiClient.part_size := 2 * ApiClient.MB |} ];
                   ApiClient.complete_url := None; ApiClient.abort_url := None;
                   ApiClient.metadata :=
                     Some {| ApiClient.chunk_size := Some (5 * ApiClient.MB);
                             ApiClient.max_concurrent := Some 2 |} |}
                {| ApiClient.part_number := 1; ApiClient.url := "https://s3/p1";
                   ApiClient.part_size := 5 * ApiClient.MB |}
                (Error "Part 1 upload failed: Too Many Requests") "http://tus/files"
                ltac:(by vm_compute; apply list_elem_of_here)
                ltac:(by vm_compute) eq_refl ltac:(by vm_compute)) as H.
  cbv zeta in H. destruct H as (H1 & H2 & _ & _). split; [done|]. split; [done|].
  by vm_compute.
Defined.

(** ** More on the multipart upload: the order of its requests *)

Section UploadShape.
Import ApiClient.
Variable this : APIClient.
Variable file : File.

Lemma loop_head_batch (info : MultipartUploadInfo) (i : nat) (st : UploadState) :
  (i < length (presigned_urls info))%nat →
  loop_head this file info i st
  = let batch := take (Z.to_nat (maxConcurrent_of info)) (drop i (presigned_urls info)) in
    {| phase := Uploading i (seq i (length batch));
       uploadInfo := uploadInfo st;
       inflight := inflight st ++ seq i (length batch);
       parts := parts st;
       completedBytes := completedBytes st;
       ulog := ulog st ++ (Fetch ∘ put_request file (chunkSize_of info) <$> batch) |}.
Proof. intros Hi. unfold loop_head. apply Nat.ltb_lt in Hi. by rewrite Hi. Qed.

Lemma loop_head_end (info : MultipartUploadInfo) (i : nat) (st : UploadState) :
  (length (presigned_urls info) <= i)%nat →
  loop_head this file info i st
  = set_phase Completing
      (add_log [Fetch (request_fetch this "/uploads/s3/complete"
                         (complete_options (key info) (upload_id info)
                            (parts_array (parts st))))] st).
Proof. intros Hi. unfold loop_head. apply Nat.ltb_ge in Hi. by rewrite Hi. Qed.

Lemma complete_calls_app (l1 l2 : list Effect) :
  complete_calls this (l1 ++ l2) = (complete_calls this l1 ++ complete_calls this l2)%list.
Proof. unfold complete_calls. by rewrite fetches_app, List.filter_app. Qed.

Lemma complete_calls_put_batch (chunkSize : Z) (batch : list PresignedUrl) :
  complete_calls this (Fetch ∘ put_request file chunkSize <$> batch) = [].
Proof.
  unfold complete_calls. rewrite fetches_put_batch.
  induction batch as [|p batch IH]; [done|]. by simpl.
Qed.

Lemma complete_is_complete_call (options : RequestInit) :
  init_method options = Some POST →
  is_complete_call this (request_fetch this "/uploads/s3/complete" options) = true.
Proof.
  intros H. unfold is_complete_call, request_fetch. cbn [req_method req_url].
  rewrite H. cbn. apply String.eqb_refl.
Qed.

Lemma app_inj_base (b p q : string) : (b ++ p = b ++ q)%string → p = q.
Proof. induction b as [|c b IH]; [done|]. simpl. intros [= H]. by apply IH. Qed.

Lemma initiate_not_complete :
  is_complete_call this (initiate_request this file) = false.
Proof.
  unfold is_complete_call, initiate_request, request_fetch. cbn [req_method req_url].
  cbn. apply String.eqb_neq. intros H. by apply app_inj_base in H.
Qed.

Lemma fetch_shape_start : fetch_shape this file (start this file).
Proof.
  unfold fetch_shape, complete_calls, start. cbn [ulog phase inflight].
  cbn [fetches omap list_omap List.filter]. fold (initiate_request this file).
  rewrite initiate_not_complete.
  split; [done|]. split; [by left|]. split; [done|].
  intros [?|[? ?]]; done.
Qed.

(** How the log grows. *)
Lemma fetches_no_fetch (l l' : list Effect) :
  fetches l' = [] → fetches (l ++ l') = fetches l.
Proof. intros H. by rewrite fetches_app, H, app_nil_r. Qed.

Lemma shape_fail (e : JsError) (st st1 : UploadState) :
  fetch_shape this file st →
  ulog st1 = ulog st → uploadInfo st1 = uploadInfo st →
  (inflight st = [] → inflight st1 = []) →
  fetch_shape this file (fail e st1).
Proof.
  intros (Hf & Hcc & Hp & Hc) Hl Hi Hin.
  unfold fetch_shape, fail, set_phase, add_log, complete_calls, puts, all_started, started in *.
  cbn [ulog phase inflight uploadInfo]. rewrite Hl, Hi.
  rewrite fetches_no_fetch by done. unfold puts.
  rewrite fetches_no_fetch by done.
  split; [done|]. split.
  - destruct Hcc as [?|(? & ? & ?)]; [by left|right]. auto.
  - split; [done|]. intros [?|[? ?]]; done.
Qed.

Lemma shape_loop_head (info : MultipartUploadInfo) (i : nat) (st : UploadState) :
  fetches (ulog st) = initiate_request this file :: puts (ulog st) →
  complete_calls this (ulog st) = [] →
  inflight st = [] → uploadInfo st = Some info →
  length (puts (ulog st)) = Nat.min i (length (presigned_urls info)) →
  fetch_shape this file (loop_head this file info i st).
Proof.
  intros Hf Hcc Hin Hinfo Hst.
  destruct (decide (i < length (presigned_urls info))%nat) as [Hi|Hi].
  - rewrite loop_head_batch by done. cbv zeta.
    unfold fetch_shape. cbn [ulog phase inflight uploadInfo in_progress].
    rewrite complete_calls_app, complete_calls_put_batch, Hcc.
    rewrite fetches_app, puts_app, fetches_put_batch, puts_put_batch, Hf.
    cbn [app]. rewrite !app_nil_r.
    split; [done|]. split; [by left|]. split; [done|].
    intros [?|[? ?]]; done.
  - rewrite loop_head_end by lia.
    set (c := request_fetch this "/uploads/s3/complete" _).
    assert (complete_calls this [Fetch c] = [c]) as Hc1.
    { unfold complete_calls. cbn [fetches omap list_omap List.filter].
      unfold c. by rewrite complete_is_complete_call. }
    assert (puts [Fetch c] = []) as Hp1 by done.
    unfold fetch_shape, set_phase, add_log. cbn [ulog phase inflight uploadInfo in_progress].
    rewrite complete_calls_app, Hcc, Hc1, fetches_app, puts_app, Hf, Hp1.
    cbn [app fetches omap list_omap]. rewrite !app_nil_r.
    split; [done|]. split.
    + right. split; [done|]. split; [done|]. exists info. split; [done|].
      unfold started, add_log, set_phase. cbn [ulog]. rewrite puts_app, Hp1.
      rewrite app_nil_r, Hst. lia.
    + split; [done|]. by intros _ ?.
Qed.

Lemma fetch_shape_step (st : UploadState) (ev : Settle) :
  upload_inv this file st → fetch_shape this file st →
  fetch_shape this file (step this file st ev).
Proof.
  intros [Hab H] Hsh. pose proof Hsh as (Hf & Hcc & Hp & Hc).
  destruct ev as [[|k|] o]; cbn [step].
  - destruct (phase st) eqn:Hph; try done.
    destruct (uploadInfo st) as [info0|] eqn:Hinfo; [destruct H as (_ & _ & _ & []) |].
    destruct H as (Hin & Hputs & _).
    unfold initiated.
    destruct (request_settle o) as [e|j]; [by apply (shape_fail e st st)|].
    destruct (as_MultipartUploadInfo j) as [info|]; [|by apply (shape_fail _ st st)].
    destruct (valid_array_length (maxConcurrent_of info)) eqn:Hv;
      [|by apply (shape_fail _ st st)].
    specialize (Hp eq_refl).
    apply shape_loop_head; cbn [ulog inflight uploadInfo]; try done.
    + by rewrite Hf, Hp, app_nil_r.
    + by rewrite Hputs.
  - case_decide as Hk; [|done]. unfold part_settled.
    destruct (uploadInfo st) as [info|] eqn:Hinfo; [|done].
    destruct (presigned_urls info !! k) as [partInfo|]; [|done].
    destruct H as (Hm & Hputs & Hle & Hph).
    destruct (uploadPart_settle partInfo o) as [e|etag].
    + cbn [phase].
      assert (fetch_shape this file
                {| phase := phase st; uploadInfo := Some info;
                   inflight := remove k (inflight st); parts := parts st;
                   completedBytes := completedBytes st; ulog := ulog st |}) as Hsh1.
      { unfold fetch_shape, all_started, started in *.
        cbn [ulog phase inflight uploadInfo]. split; [done|]. split; [|done].
        destruct Hcc as [?|(? & Hi0 & ?)]; [by left|].
        rewrite Hi0 in Hk. by apply elem_of_nil in Hk. }
      destruct (phase st) eqn:Hphase; try done.
      apply (shape_fail e st); try done.
      intros Hi0. rewrite Hi0 in Hk. by apply elem_of_nil in Hk.
    + unfold part_done. cbn [phase ulog uploadInfo inflight parts completedBytes].
      set (l2 := (ulog st ++ _)%list).
      assert (fetches l2 = fetches (ulog st)) as Hf2 by (by apply fetches_no_fetch).
      assert (puts l2 = puts (ulog st)) as Hp2 by (unfold puts; by rewrite Hf2).
      assert (complete_calls this l2 = complete_calls this (ulog st)) as Hc2
        by (unfold complete_calls; by rewrite Hf2).
      assert (complete_calls this (ulog st) = []) as Hcc0.
      { destruct Hcc as [?|(? & Hi0 & ?)]; [done|].
        rewrite Hi0 in Hk. by apply elem_of_nil in Hk. }
      destruct (phase st) as [|i waiting| | |e0] eqn:Hphase.
      * done.
      * destruct Hph as (Hin & Hne & Hlen & Hst & Hmem).
        destruct (remove k waiting) as [|x waiting'] eqn:Hrem.
        -- apply shape_loop_head; cbn [ulog inflight uploadInfo]; try done.
           ++ by rewrite Hf2, Hp2, Hf, Hcc0, app_nil_r.
           ++ by rewrite Hc2.
           ++ by rewrite Hin, Hrem.
           ++ rewrite Hp2. fold (started st). rewrite Hst. lia.
        -- unfold fetch_shape, set_phase. cbn [ulog phase inflight uploadInfo in_progress].
           rewrite Hc2, Hf2, Hp2, Hcc0. split; [by rewrite Hf, Hcc0|].
           split; [by left|]. split; [done|]. intros [?|[? ?]]; done.
      * destruct Hph as [Hi0 _]. rewrite Hi0 in Hk. by apply elem_of_nil in Hk.
      * destruct Hph as [Hi0 _]. rewrite Hi0 in Hk. by apply elem_of_nil in Hk.
      * unfold fetch_shape. cbn [ulog phase inflight uploadInfo in_progress].
        rewrite Hc2, Hf2, Hp2, Hcc0. split; [by rewrite Hf, Hcc0|].
        split; [by left|]. split; [done|]. intros [?|[? ?]]; done.
  - destruct (phase st) eqn:Hph; try done.
    unfold completed. destruct (request_settle o) as [e|j];
      [by apply (shape_fail e st st)|].
    destruct (uploadInfo st) as [info|] eqn:Hinfo; [|done].
    destruct (s3_url (key info)) as [e|s]; [by apply (shape_fail e st st)|].
    unfold fetch_shape, set_phase, all_started, started in *.
    cbn [ulog phase inflight uploadInfo in_progress].
    split; [done|]. split; [exact Hcc|]. split; [done|].
    intros _. apply Hc. by left.
Qed.

Lemma fetch_shape_foldl (events : list Settle) (st : UploadState) :
  upload_inv this file st → fetch_shape this file st →
  fetch_shape this file (foldl (step this file) st events).
Proof.
  revert st. induction events as [|ev events IH]; intros st Hinv Hsh; [done|].
  cbn [foldl]. apply IH; [by apply upload_inv_step|by apply fetch_shape_step].
Qed.

Lemma fetch_shape_run (events : list Settle) :
  fetch_shape this file (uploadWithS3Multipart this file events).
Proof. apply fetch_shape_foldl; [apply upload_inv_start|apply fetch_shape_start]. Qed.

(** A returned upload stays as it is. *)
Lemma resolved_step (s : string) (st : UploadState) (ev : Settle) :
  upload_inv this file st → phase st = Resolved s → step this file st ev = st.
Proof.
  intros [_ H] Hph. destruct ev as [[|k|] o]; cbn [step]; rewrite ?Hph; try done.
  case_decide as Hk; [|done].
  destruct (uploadInfo st) as [info|].
  - rewrite Hph in H. destruct H as (_ & _ & _ & Hin & _).
    rewrite Hin in Hk. by apply elem_of_nil in Hk.
  - destruct H as (Hin & _). rewrite Hin in Hk. by apply elem_of_nil in Hk.
Qed.

Lemma resolved_foldl (s : string) (events : list Settle) (st : UploadState) :
  upload_inv this file st → phase st = Resolved s →
  foldl (step this file) st events = st.
Proof.
  intros Hinv Hph. induction events as [|ev events IH]; [done|].
  cbn [foldl]. by rewrite (resolved_step s).
Qed.

End UploadShape.

(** ** More on the multipart upload: the account of the bytes *)

Section UploadProgress.
Import ApiClient.
Variable this : APIClient.
Variable file : File.

Lemma zsum_app (f : nat → Z) (l1 l2 : list nat) :
  zsum f (l1 ++ l2) = zsum f l1 + zsum f l2.
Proof. induction l1 as [|k l1 IH]; simpl; [done|]. rewrite IH. lia. Qed.

Lemma zsum_remove (f : nat → Z) (k : nat) (l : list nat) :
  NoDup l → k ∈ l → zsum f (remove k l) = zsum f l - f k.
Proof.
  unfold remove. induction 1 as [|x l Hx Hnd IH]; intros Hk.
  - by apply elem_of_nil in Hk.
  - rewrite filter_cons. destruct (decide (x ≠ k)) as [Hne|Heq].
    + apply elem_of_cons in Hk as [->|Hk]; [done|]. simpl. rewrite IH by done. lia.
    + assert (x = k) as -> by (destruct (decide (x = k)); [done|by destruct Heq]).
      simpl. assert (filter (λ y, y ≠ k) l = l) as ->; [|lia].
      clear IH Hk Heq Hnd. induction l as [|y l IH]; [done|].
      rewrite filter_cons. apply not_elem_of_cons in Hx as [Hy Hl].
      destruct (decide (y ≠ k)) as [|Hn]; [by rewrite IH|].
      destruct Hn. congruence.
Qed.

Lemma NoDup_remove (k : nat) (l : list nat) : NoDup l → NoDup (remove k l).
Proof. apply NoDup_filter. Qed.

Lemma seq_add_app (a b : nat) : seq 0 (a + b) = (seq 0 a ++ seq a b)%list.
Proof. by rewrite seq_app. Qed.

Lemma zsum_positions {A} (f : A → Z) (l : list A) (start : nat) (g : nat → Z) :
  (∀ i, g (start + i)%nat = from_option f 0 (l !! i)) →
  zsum g (seq start (length l)) = foldr Z.add 0 (f <$> l).
Proof.
  revert start g. induction l as [|x l IH]; intros start g Hg; [done|].
  cbn [length seq zsum foldr fmap list_fmap].
  specialize (Hg 0%nat) as H0. rewrite Nat.add_0_r in H0. rewrite H0. cbn. f_equal.
  apply (IH (S start)). intros i.
  replace (S start + i)%nat with (start + S i)%nat by lia. by rewrite Hg.
Qed.

Lemma zsum_all_parts (info : MultipartUploadInfo) :
  zsum (part_len file info) (seq 0 (length (presigned_urls info))) = total_len file info.
Proof. unfold total_len. by apply zsum_positions. Qed.

Lemma tiles_total (lo hi : Z) (rs : list (Z * Z)) :
  tiles lo hi rs → foldr Z.add 0 ((λ r, r.2 - r.1) <$> rs) = hi - lo.
Proof.
  revert lo. induction rs as [|r rs IH]; intros lo H.
  - simpl in *. lia.
  - cbn [fmap list_fmap foldr]. cbn [tiles] in H.
    destruct H as (Hs & Hlt & Ht). change (list_fmap _ _ ?g rs) with (g <$> rs).
    rewrite (IH _ Ht). lia.
Qed.

Lemma started_set_phase (p : Phase) (st : UploadState) : started (set_phase p st) = started st.
Proof. done. Qed.

Lemma progress_start : progress_inv file (start this file).
Proof. done. Qed.

Lemma progress_fail (e : JsError) (st : UploadState) :
  match uploadInfo st with
  | None => completedBytes st = 0
  | Some _ => NoDup (inflight st)
  end →
  progress_inv file (fail e st).
Proof.
  unfold progress_inv, fail, set_phase, add_log. cbn [uploadInfo completedBytes inflight phase].
  destruct (uploadInfo st); [|done]. intros H. split; [done|]. left. eauto.
Qed.

Lemma progress_loop_head (info : MultipartUploadInfo) (i : nat) (st : UploadState) :
  uploadInfo st = Some info → inflight st = [] →
  length (puts (ulog st)) = Nat.min i (length (presigned_urls info)) →
  completedBytes st = zsum (part_len file info) (seq 0 (started st)) →
  progress_inv file (loop_head this file info i st).
Proof.
  intros Hinfo Hin Hst Hcb.
  destruct (decide (i < length (presigned_urls info))%nat) as [Hi|Hi].
  - rewrite loop_head_batch by done. cbv zeta.
    unfold progress_inv, started in *. cbn [ulog phase inflight uploadInfo completedBytes].
    rewrite Hinfo, Hin. cbn [app]. split; [apply NoDup_seq|]. right.
    rewrite puts_app, puts_put_batch, length_app, length_fmap.
    rewrite seq_add_app, zsum_app, Hcb, Hst.
    by replace (i `min` length (presigned_urls info))%nat with i by lia.
  - rewrite loop_head_end by lia.
    unfold progress_inv, started, set_phase, add_log in *.
    cbn [ulog phase inflight uploadInfo completedBytes].
    rewrite Hinfo, Hin. split; [constructor|]. right.
    rewrite puts_app. cbn. rewrite app_nil_r, Hcb. lia.
Qed.

Lemma progress_step (st : UploadState) (ev : Settle) :
  upload_inv this file st → progress_inv file st →
  progress_inv file (step this file st ev).
Proof.
  intros [Hab H] Hpr.
  destruct ev as [[|k|] o]; cbn [step].
  - destruct (phase st) eqn:Hph; try done.
    destruct (uploadInfo st) as [info0|] eqn:Hinfo; [destruct H as (_ & _ & _ & []) |].
    destruct H as (Hin & Hputs & _).
    unfold progress_inv in Hpr. rewrite Hinfo in Hpr.
    assert (∀ e, progress_inv file (fail e st)) as Hfail
      by (intros e; apply progress_fail; by rewrite Hinfo).
    unfold initiated.
    destruct (request_settle o) as [e|j]; [done|].
    destruct (as_MultipartUploadInfo j) as [info|]; [|done].
    destruct (valid_array_length (maxConcurrent_of info)) eqn:Hv; [|done].
    apply progress_loop_head; cbn [ulog inflight uploadInfo completedBytes]; try done.
    + by rewrite Hputs.
    + unfold started. cbn [ulog]. by rewrite Hputs.
  - case_decide as Hk; [|done]. unfold part_settled.
    destruct (uploadInfo st) as [info|] eqn:Hinfo; [|done].
    destruct (presigned_urls info !! k) as [partInfo|] eqn:Hpart; [|done].
    destruct H as (Hm & Hputs & Hle & Hph).
    unfold progress_inv in Hpr. rewrite Hinfo in Hpr. destruct Hpr as [Hnd Hsum].
    assert (part_len file info k
            = chunk_len (chunkSize_of info) (file_size file) partInfo) as Hlen
      by (unfold part_len; by rewrite Hpart).
    destruct (uploadPart_settle partInfo o) as [e|etag].
    + cbn [phase]. destruct (phase st) eqn:Hphase.
      * done.
      * apply progress_fail. cbn [uploadInfo inflight]. by apply NoDup_remove.
      * destruct Hph as [Hi0 _]. rewrite Hi0 in Hk. by apply elem_of_nil in Hk.
      * destruct Hph as [Hi0 _]. rewrite Hi0 in Hk. by apply elem_of_nil in Hk.
      * unfold progress_inv. cbn [uploadInfo inflight phase].
        split; [by apply NoDup_remove|]. left. eauto.
    + unfold part_done. cbn [phase ulog uploadInfo inflight parts completedBytes].
      set (l2 := (ulog st ++ _)%list).
      assert (puts l2 = puts (ulog st)) as Hp2
        by (unfold l2; rewrite puts_app; cbn; by rewrite app_nil_r).
      destruct (phase st) as [|i waiting| | |e0] eqn:Hphase.
      * done.
      * destruct Hph as (Hin & Hne & Hlenw & Hst & Hmem).
        destruct Hsum as [[e0 ?]|Hsum]; [done|].
        assert (completedBytes st + chunk_len (chunkSize_of info) (file_size file) partInfo
                + zsum (part_len file info) (remove k (inflight st))
                = zsum (part_len file info) (seq 0 (started st))) as Hsum'.
        { rewrite zsum_remove by done. rewrite <- Hlen. lia. }
        destruct (remove k waiting) as [|x waiting'] eqn:Hrem.
        -- apply progress_loop_head; cbn [ulog inflight uploadInfo completedBytes]; try done.
           ++ by rewrite Hin, Hrem.
           ++ rewrite Hp2. fold (started st). rewrite Hst. lia.
           ++ unfold started in *. cbn [ulog]. rewrite Hp2.
              rewrite Hin, Hrem in Hsum'. simpl in Hsum'. lia.
        -- unfold progress_inv, set_phase, started in *.
           cbn [ulog phase inflight uploadInfo completedBytes].
           rewrite Hp2. split; [by apply NoDup_remove|]. by right.
      * destruct Hph as [Hi0 _]. rewrite Hi0 in Hk. by apply elem_of_nil in Hk.
      * destruct Hph as [Hi0 _]. rewrite Hi0 in Hk. by apply elem_of_nil in Hk.
      * unfold progress_inv. cbn [ulog phase inflight uploadInfo completedBytes].
        split; [by apply NoDup_remove|]. left. eauto.
  - destruct (phase st) eqn:Hph; try done.
    unfold completed. destruct (request_settle o) as [e|j].
    + apply progress_fail. unfold progress_inv in Hpr.
      destruct (uploadInfo st); [by destruct Hpr|done].
    + destruct (uploadInfo st) as [info|] eqn:Hinfo; [|done].
      destruct (s3_url (key info)) as [e|s].
      { apply progress_fail. unfold progress_inv in Hpr. rewrite Hinfo in *.
        by destruct Hpr. }
      unfold progress_inv, set_phase, started in *.
      cbn [ulog phase inflight uploadInfo completedBytes]. rewrite Hinfo in *.
      destruct Hpr as [Hnd [[e ?]|Hsum]]; [congruence|]. split; [done|]. by right.
Qed.

Lemma progress_run (events : list Settle) :
  progress_inv file (uploadWithS3Multipart this file events).
Proof.
  unfold uploadWithS3Multipart.
  assert (∀ st, upload_inv this file st → progress_inv file st →
                progress_inv file (foldl (step this file) st events)) as H.
  { induction events as [|ev events IH]; intros st Hinv Hpr; [done|].
    cbn [foldl]. apply IH; [by apply upload_inv_step|by apply progress_step]. }
  apply H; [apply upload_inv_start|apply progress_start].
Qed.

Lemma loop_head_not_resolved (info : MultipartUploadInfo) (i : nat) (st : UploadState)
    (s : string) :
  phase (loop_head this file info i st) ≠ Resolved s.
Proof.
  destruct (decide (i < length (presigned_urls info))%nat).
  - by rewrite loop_head_batch.
  - by rewrite loop_head_end by lia.
Qed.

Lemma resolved_url_step (st : UploadState) (ev : Settle) :
  upload_inv this file st → resolved_url st → resolved_url (step this file st ev).
Proof.
  intros Hinv Hurl s Hs.
  destruct (phase st) as [|i waiting| |s0|e0] eqn:Hph.
  - destruct ev as [[|k|] o]; cbn [step] in Hs; rewrite ?Hph in Hs.
    + unfold initiated in Hs.
      destruct (request_settle o); [done|].
      destruct (as_MultipartUploadInfo _); [|done].
      destruct (valid_array_length _); [|done].
      by apply loop_head_not_resolved in Hs.
    + case_decide as Hdec; [|congruence]. unfold part_settled in Hs.
      destruct Hinv as [_ H]. rewrite Hph in H.
      destruct (uploadInfo st); [by destruct H as (_&_&_&[])|]. congruence.
    + congruence.
  - destruct ev as [[|k|] o]; cbn [step] in Hs; rewrite ?Hph in Hs; try congruence.
    case_decide as Hdec; [|congruence]. unfold part_settled in Hs.
    destruct (uploadInfo st) as [info|]; [|congruence].
    destruct (presigned_urls info !! k) as [partInfo|]; [|congruence].
    destruct (uploadPart_settle partInfo o).
    + cbn [phase] in Hs. by rewrite Hph in Hs.
    + unfold part_done in Hs. cbn [phase] in Hs. rewrite Hph in Hs.
      destruct (remove k waiting); [by apply loop_head_not_resolved in Hs|done].
  - destruct ev as [[|k|] o]; cbn [step] in Hs; rewrite ?Hph in Hs; try congruence.
    + case_decide as Hk; [|congruence]. destruct Hinv as [_ H]. rewrite Hph in H.
      destruct (uploadInfo st) eqn:Hinfo.
      * destruct H as (_ & _ & _ & Hin & _). rewrite Hin in Hk.
        by apply elem_of_nil in Hk.
      * destruct H as (Hin & _). rewrite Hin in Hk. by apply elem_of_nil in Hk.
    + cbn [step]. rewrite Hph. unfold completed in *.
      destruct (request_settle o); [done|].
      destruct (uploadInfo st) as [info|] eqn:Hinfo; [|congruence].
      destruct (s3_url (key info)) as [e|s'] eqn:Hkey; [done|].
      unfold set_phase in *. cbn [phase uploadInfo] in *.
      unfold s3_url in Hkey. destruct (key info) as [[| | |k| |]|] eqn:Hk; try done.
      exists info, k. split; [done|]. split; [done|]. congruence.
  - rewrite (resolved_step this file s0 st ev Hinv Hph) in *. by apply Hurl.
  - destruct (rejected_step this file e0 st ev Hph) as [Hr _]. congruence.
Qed.

Lemma resolved_url_run (events : list Settle) (s : string) :
  phase (uploadWithS3Multipart this file events) = Resolved s →
  ∃ info k, uploadInfo (uploadWithS3Multipart this file events) = Some info
            ∧ key info = Some (JStr k)
            ∧ s = "s3://" ++ first_segment k ++ "/" ++ k.
Proof.
  unfold uploadWithS3Multipart.
  assert (∀ st, upload_inv this file st → resolved_url st →
                resolved_url (foldl (step this file) st events)) as H.
  { induction events as [|ev events IH]; intros st Hinv Hu; [done|].
    cbn [foldl]. apply IH; [by apply upload_inv_step|by apply resolved_url_step]. }
  apply H; [apply upload_inv_start|]. by intros s0 Hs0.
Qed.

End UploadProgress.

(** ** The multipart upload as a whole *)

(** X1 — The requests of [uploadWithS3Multipart] go out in one order: the
    initiate call, then the part PUTs, then at most one completion call.
    The completion call goes out only when every descriptor has had its PUT
    and no PUT is outstanding. *)
Theorem upload_requests_in_order
    (this : ApiClient.APIClient) (file : File) (events : list ApiClient.Settle) :
  let st := ApiClient.uploadWithS3Multipart this file events in
  let cc := complete_calls this (ApiClient.ulog st) in
  fetches (ApiClient.ulog st)
    = (initiate_request this file :: ApiClient.puts (ApiClient.ulog st) ++ cc)%list
  ∧ (length cc <= 1)%nat
  ∧ (cc = [] ∨ (ApiClient.inflight st = [] ∧ all_started st)).
Proof.
  intros st cc.
  destruct (fetch_shape_run this file events) as (Hf & Hcc & _).
  fold st in Hf, Hcc. fold cc in Hf, Hcc.
  split; [done|]. destruct Hcc as [Hcc|(Hlen & Hin & Hall)].
  - rewrite Hcc. split; [simpl; lia|by left].
  - split; [lia|]. right. by split.
Qed.

(** X2 — A part that fails while the upload is under way ends the upload:
    it is rejected (with the error of the part, unless it was rejected
    before), and whatever settles afterwards, no completion call is made and
    no further request is sent. *)
Theorem failed_part_prevents_completion
    (this : ApiClient.APIClient) (file : File) (events more : list ApiClient.Settle)
    (k : nat) (o : FetchOutcome) (info : ApiClient.MultipartUploadInfo)
    (partInfo : ApiClient.PresignedUrl) (e : JsError) :
  let st := ApiClient.uploadWithS3Multipart this file events in
  k ∈ ApiClient.inflight st →
  ApiClient.uploadInfo st = Some info →
  ApiClient.presigned_urls info !! k = Some partInfo →
  ApiClient.uploadPart_settle partInfo o = inl e →
  let st' := ApiClient.uploadWithS3Multipart this file
               (events ++ ApiClient.Settled (ApiClient.TokPart k) o :: more) in
  ApiClient.phase st'
    = match ApiClient.phase st with
      | ApiClient.Rejected e0 => ApiClient.Rejected e0
      | _ => ApiClient.Rejected e
      end
  ∧ complete_calls this (ApiClient.ulog st') = []
  ∧ fetches (ApiClient.ulog st') = fetches (ApiClient.ulog st).
Proof.
  intros st Hk Hinfo Hp He st'.
  pose proof (upload_inv_run this file events) as [_ Hinv].
  destruct (fetch_shape_run this file events) as (_ & Hcc & _).
  fold st in Hinv, Hcc.
  assert (complete_calls this (ApiClient.ulog st) = []) as Hnone.
  { destruct Hcc as [?|(_ & Hin & _)]; [done|]. rewrite Hin in Hk.
    by apply elem_of_nil in Hk. }
  set (st1 := ApiClient.step this file st (ApiClient.Settled (ApiClient.TokPart k) o)).
  assert (st' = foldl (ApiClient.step this file) st1 more) as ->.
  { unfold st', ApiClient.uploadWithS3Multipart. by rewrite foldl_app. }
  assert (∃ e1, ApiClient.phase st1 = ApiClient.Rejected e1
                ∧ ApiClient.Rejected e1
                  = match ApiClient.phase st with
                    | ApiClient.Rejected e0 => ApiClient.Rejected e0
                    | _ => ApiClient.Rejected e
                    end
                ∧ fetches (ApiClient.ulog st1) = fetches (ApiClient.ulog st))
    as (e1 & Hph1 & He1 & Hf1).
  { unfold st1. cbn [ApiClient.step]. rewrite decide_True by done.
    unfold ApiClient.part_settled. rewrite Hinfo, Hp, He. cbn [ApiClient.phase].
    rewrite Hinfo in Hinv. destruct Hinv as (_ & _ & _ & Hph).
    destruct (ApiClient.phase st) as [|i waiting| | |e0] eqn:Hphase.
    - done.
    - exists e. unfold ApiClient.fail, ApiClient.set_phase, ApiClient.add_log.
      cbn [ApiClient.phase ApiClient.ulog]. rewrite fetches_app. cbn.
      by rewrite app_nil_r.
    - destruct Hph as [Hin _]. rewrite Hin in Hk. by apply elem_of_nil in Hk.
    - destruct Hph as [Hin _]. rewrite Hin in Hk. by apply elem_of_nil in Hk.
    - exists e0. by cbn [ApiClient.phase ApiClient.ulog]. }
  destruct (rejected_foldl this file e1 more st1 Hph1) as [Hph' Hf'].
  rewrite Hph', He1. split; [done|].
  unfold complete_calls in *. rewrite Hf', Hf1. by split.
Qed.

Lemma failed_part_prevents_completion_witness :
  let st' := ApiClient.uploadWithS3Multipart Examples.client Examples.media
               [Examples.initiated_ok; Scenarios.part_failed 0; Examples.part_ok 1] in
  ApiClient.phase st'
    = ApiClient.Rejected (Error "Part 1 upload failed: Service Unavailable")
  ∧ complete_calls Examples.client (ApiClient.ulog st') = [].
Proof.
  pose proof (failed_part_prevents_completion Examples.client Examples.media
                [Examples.initiated_ok] [Examples.part_ok 1] 0
                (Responded Examples.unavailable) Scenarios.info_12MB Scenarios.part_1
                (Error "Part 1 upload failed: Service Unavailable")
                ltac:(by vm_compute; apply list_elem_of_here)
                ltac:(by vm_compute) eq_refl ltac:(by vm_compute)) as H.
  cbv zeta in H. destruct H as (H1 & H2 & _). split; [exact H1|exact H2].
Defined.

(** X3 — Once [uploadWithS3Multipart] has returned or thrown, its outcome
    is final: whatever settles afterwards, the outcome stays and no request
    is sent; after a return nothing at all happens any more. *)
Theorem settled_upload_is_final
    (this : ApiClient.APIClient) (file : File) (events more : list ApiClient.Settle) :
  let st := ApiClient.uploadWithS3Multipart this file events in
  is_terminal (ApiClient.phase st) = true →
  let st' := ApiClient.uploadWithS3Multipart this file (events ++ more) in
  ApiClient.phase st' = ApiClient.phase st
  ∧ fetches (ApiClient.ulog st') = fetches (ApiClient.ulog st)
  ∧ ((∃ s, ApiClient.phase st = ApiClient.Resolved s) → st' = st).
Proof.
  intros st Hterm st'.
  assert (st' = foldl (ApiClient.step this file) st more) as ->.
  { unfold st', ApiClient.uploadWithS3Multipart. by rewrite foldl_app. }
  pose proof (upload_inv_run this file events) as Hinv. fold st in Hinv.
  destruct (ApiClient.phase st) as [| | |s|e] eqn:Hph; try done.
  - rewrite (resolved_foldl this file s more st Hinv Hph).
    split; [done|]. split; [done|]. by intros _.
  - destruct (rejected_foldl this file e more st Hph) as [-> ->].
    split; [done|]. split; [done|]. by intros [s ?].
Qed.

Lemma settled_upload_is_final_witness :
  ApiClient.uploadWithS3Multipart Examples.client Examples.media
    (Scenarios.whole_upload ++ [Examples.part_ok 0; Scenarios.completed_ok])
  = ApiClient.uploadWithS3Multipart Examples.client Examples.media Scenarios.whole_upload.
Proof.
  pose proof (settled_upload_is_final Examples.client Examples.media
                Scenarios.whole_upload [Examples.part_ok 0; Scenarios.completed_ok]
                eq_refl) as H.
  cbv zeta in H. destruct H as (_ & _ & H). apply H. eexists. by vm_compute.
Defined.

(** X4 — A failed initiate call ends the upload before anything is
    uploaded.  When [request] rejects the initiate call, because the
    network fails, the status is not 2xx, or the body of an ok response
    other than a 204 does not parse, the upload rejects with that very
    error and prints it once; the initiate call stays its only request
    whatever settles later: no part is sent, no completion call is made, no
    byte is counted and nothing is reported. *)
Theorem failed_initiate_ends_upload
    (this : ApiClient.APIClient) (file : File) (o : FetchOutcome) (e : JsError)
    (before more : list ApiClient.Settle) :
  ApiClient.request_settle o = inl e →
  Forall (λ ev, match ev with
                | ApiClient.Settled ApiClient.TokInitiate _ => False
                | _ => True
                end) before →
  let st := ApiClient.uploadWithS3Multipart this file
              (before ++ ApiClient.Settled ApiClient.TokInitiate o :: more) in
  ApiClient.phase st = ApiClient.Rejected e
  ∧ ApiClient.ulog st = [Fetch (initiate_request this file); ConsoleError e]
  ∧ ApiClient.uploadInfo st = None
  ∧ ApiClient.inflight st = []
  ∧ ApiClient.parts st = ∅
  ∧ ApiClient.completedBytes st = 0
  ∧ match o with
    | NetworkFailure => e = TypeError "Failed to fetch"
    | Responded r =>
        if ok r then resp_status r ≠ 204 ∧ json r = None
                     ∧ e = SyntaxError "Unexpected token in JSON"
        else e = Error ("API Error: " ++ ApiClient.errorMessage r)
    end.
Proof.
  intros Hfail Hbefore st. subst st. unfold ApiClient.uploadWithS3Multipart.
  rewrite foldl_app. cbn [foldl].
  assert (foldl (ApiClient.step this file) (ApiClient.start this file) before
          = ApiClient.start this file) as ->.
  { induction Hbefore as [|ev before Hev _ IH]; [done|].
    cbn [foldl]. destruct ev as [[|k|] o']; [done| |]; cbn [ApiClient.step].
    - rewrite decide_False; [exact IH|]. cbn. by intros ?%elem_of_nil.
    - exact IH. }
  assert (ApiClient.step this file (ApiClient.start this file)
            (ApiClient.Settled ApiClient.TokInitiate o)
          = ApiClient.fail e (ApiClient.start this file)) as ->.
  { cbn [ApiClient.step ApiClient.start ApiClient.phase]. unfold ApiClient.initiated.
    by rewrite Hfail. }
  assert (foldl (ApiClient.step this file) (ApiClient.fail e (ApiClient.start this file))
            more
          = ApiClient.fail e (ApiClient.start this file)) as ->.
  { induction more as [|ev more IH]; [done|].
    cbn [foldl]. destruct ev as [[|k|] o']; cbn [ApiClient.step]; [exact IH| |exact IH].
    rewrite decide_False; [exact IH|]. cbn. by intros ?%elem_of_nil. }
  repeat split; try done.
  unfold ApiClient.request_settle, ApiClient.request_response, response_json in Hfail.
  destruct o as [r|]; [|by injection Hfail as <-].
  destruct (ok r); cbn [negb] in Hfail; [|by injection Hfail as <-].
  destruct (resp_status r =? 204) eqn:H204; [done|].
  destruct (json r); [done|]. injection Hfail as <-.
  repeat split. intros H. rewrite H in H204. done.
Qed.

Lemma failed_initiate_ends_upload_witness :
  let st := ApiClient.uploadWithS3Multipart Examples.client Examples.media
              [Examples.part_ok 0; Scenarios.initiate_failed; Examples.part_ok 0;
               Scenarios.completed_ok] in
  (λ r, (req_method r, req_url r)) <$> fetches (ApiClient.ulog st)
  = [(POST, "http://localhost:8000/uploads/s3/initiate")]
  ∧ ApiClient.phase st = ApiClient.Rejected (Error "API Error: boom").
Proof.
  pose proof (failed_initiate_ends_upload Examples.client Examples.media
                (Responded Examples.error_500) (Error "API Error: boom")
                [Examples.part_ok 0] [Examples.part_ok 0; Scenarios.completed_ok]
                eq_refl ltac:(by repeat constructor)) as H.
  cbv zeta in H |- *. destruct H as (Hph & Hlog & _).
  split; [|exact Hph].
  transitivity ((λ r, (req_method r, req_url r))
                  <$> fetches [Fetch (initiate_request Examples.client Examples.media);
                               ConsoleError (Error "API Error: boom")]); [|done].
  do 2 apply f_equal. exact Hlog.
Defined.

(** X5 — [completedBytes] is an exact account: as long as the upload has
    not thrown, the bytes counted and the chunk sizes of the parts still
    outstanding add up to the chunk sizes of the parts started. *)
Theorem completed_bytes_account
    (this : ApiClient.APIClient) (file : File) (events : list ApiClient.Settle)
    (info : ApiClient.MultipartUploadInfo) :
  let st := ApiClient.uploadWithS3Multipart this file events in
  ApiClient.uploadInfo st = Some info →
  (∀ e, ApiClient.phase st ≠ ApiClient.Rejected e) →
  NoDup (ApiClient.inflight st)
  ∧ ApiClient.completedBytes st + zsum (part_len file info) (ApiClient.inflight st)
    = zsum (part_len file info) (seq 0 (started st)).
Proof.
  intros st Hinfo Hph.
  pose proof (progress_run this file events) as Hpr. fold st in Hpr.
  unfold progress_inv in Hpr. rewrite Hinfo in Hpr.
  destruct Hpr as [Hnd [[e He]|Hsum]]; [by destruct (Hph e)|done].
Qed.

Lemma completed_bytes_account_witness :
  let st := ApiClient.uploadWithS3Multipart Examples.client Examples.media
              [Examples.initiated_ok; Examples.part_ok 1] in
  ApiClient.completedBytes st = 5 * ApiClient.MB.
Proof.
  pose proof (completed_bytes_account Examples.client Examples.media
                [Examples.initiated_ok; Examples.part_ok 1] Scenarios.info_12MB
                ltac:(by vm_compute) ltac:(by vm_compute)) as H.
  cbv zeta in H. destruct H as [_ H]. by vm_compute in H |- *.
Defined.

(** X6 — An upload that returns has sent every byte once: when the
    descriptors are produced for the chunk size, the bodies of its PUTs are
    the chunks that tile the file, in order, one PUT per descriptor, and
    [completedBytes] has reached the size of the file. *)
Theorem resolved_upload_sent_every_byte
    (this : ApiClient.APIClient) (file : File) (events : list ApiClient.Settle)
    (info : ApiClient.MultipartUploadInfo) (s : string) :
  let st := ApiClient.uploadWithS3Multipart this file events in
  ApiClient.phase st = ApiClient.Resolved s →
  ApiClient.uploadInfo st = Some info →
  0 <= file_size file → 0 < ApiClient.chunkSize_of info →
  ApiClient.produced_for (ApiClient.chunkSize_of info) (file_size file)
    (ApiClient.presigned_urls info) →
  let ranges := ApiClient.chunk_ranges (ApiClient.chunkSize_of info) (file_size file)
                  (ApiClient.presigned_urls info) in
  req_body <$> ApiClient.puts (ApiClient.ulog st) = BlobBody (file_name file) <$> ranges
  ∧ tiles 0 (file_size file) ranges
  ∧ ApiClient.completedBytes st = file_size file
  ∧ ∃ k, ApiClient.key info = Some (JStr k)
         ∧ s = "s3://" ++ first_segment k ++ "/" ++ k.
Proof.
  intros st Hph Hinfo HF Hc Hprod ranges.
  pose proof (upload_inv_run this file events) as [_ Hinv].
  pose proof (progress_run this file events) as Hpr. fold st in Hinv, Hpr.
  unfold progress_inv in Hpr. rewrite Hinfo in Hinv, Hpr. rewrite Hph in Hinv.
  destruct Hinv as (_ & Hputs & _ & Hin & Hst).
  destruct Hpr as [_ [[e He]|Hsum]]; [congruence|].
  pose proof (tiles_chunk_ranges _ _ _ HF Hc Hprod) as Ht. fold ranges in Ht.
  split; [|split; [done|split]].
  - rewrite Hputs, Hst, firstn_all. unfold ranges, ApiClient.chunk_ranges.
    rewrite <- !list_fmap_compose. by apply list_fmap_ext.
  - rewrite Hin, Hst, zsum_all_parts in Hsum. simpl in Hsum.
    rewrite Z.add_0_r in Hsum. rewrite Hsum. unfold total_len.
    pose proof (tiles_total _ _ _ Ht) as Htot. unfold ranges, ApiClient.chunk_ranges in Htot.
    rewrite <- list_fmap_compose in Htot. rewrite Z.sub_0_r in Htot.
    etransitivity; [|exact Htot]. done.
  - destruct (resolved_url_run this file events s Hph) as (info' & k & Hinfo' & Hk & ->).
    fold st in Hinfo'. exists k. split; [congruence|done].
Qed.

Lemma resolved_upload_sent_every_byte_witness :
  let st := ApiClient.uploadWithS3Multipart Examples.client Examples.media
              Scenarios.whole_upload in
  ApiClient.completedBytes st = 12 * ApiClient.MB
  ∧ ApiClient.phase st = ApiClient.Resolved "s3://raw/raw/a.mp4".
Proof.
  pose proof (resolved_upload_sent_every_byte Examples.client Examples.media
                Scenarios.whole_upload Scenarios.info_12MB "s3://raw/raw/a.mp4"
                ltac:(by vm_compute) ltac:(by vm_compute) ltac:(by vm_compute)
                ltac:(by vm_compute) ltac:(by vm_compute)) as H.
  cbv zeta in H |- *. destruct H as (_ & _ & H & _). split; [exact H|by vm_compute].
Defined.

(** ** Strings *)

Section Strings.

Lemma append_String (c : ascii) (s t : string) : String c s ++ t = String c (s ++ t).
Proof. reflexivity. Qed.

Lemma append_nil_r (s : string) : s ++ "" = s.
Proof. induction s as [|c s IH]; [done|]. by rewrite append_String, IH. Qed.

Lemma append_assoc (s t u : string) : (s ++ t) ++ u = s ++ (t ++ u).
Proof. induction s as [|c s IH]; [done|]. by rewrite !append_String, IH. Qed.

Lemma rev_app_append (s acc : string) : String.rev_app s acc = String.rev s ++ acc.
Proof.
  unfold String.rev. revert acc. induction s as [|c s IH]; intros acc; [done|].
  cbn [String.rev_app]. rewrite (IH (String c acc)), (IH (String c "")).
  by rewrite append_assoc.
Qed.

Lemma rev_String (c : ascii) (s : string) :
  String.rev (String c s) = String.rev s ++ String c "".
Proof. unfold String.rev at 1. cbn [String.rev_app]. apply rev_app_append. Qed.

Lemma rev_append (s t : string) : String.rev (s ++ t) = String.rev t ++ String.rev s.
Proof.
  induction s as [|c s IH].
  - by rewrite append_nil_r.
  - by rewrite append_String, !rev_String, IH, append_assoc.
Qed.

Lemma rev_rev (s : string) : String.rev (String.rev s) = s.
Proof.
  induction s as [|c s IH]; [done|].
  by rewrite rev_String, rev_append, IH.
Qed.

Lemma prefix_append (p s : string) : String.prefix p (p ++ s) = true.
Proof.
  induction p as [|c p IH]; [by destruct s|].
  rewrite append_String. cbn [String.prefix]. by destruct (ascii_dec c c).
Qed.

Lemma prefix_split (p s : string) :
  String.prefix p s = true → ∃ t, s = p ++ t.
Proof.
  revert s. induction p as [|c p IH]; intros s H; [by exists s|].
  destruct s as [|d s]; [done|]. cbn [String.prefix] in H.
  destruct (ascii_dec c d) as [->|]; [|done].
  destruct (IH s H) as [t ->]. by exists t.
Qed.

Lemma endsWith_append (p s : string) : endsWith p (s ++ p) = true.
Proof. unfold endsWith. rewrite rev_append. apply prefix_append. Qed.

Lemma endsWith_split (p s : string) :
  endsWith p s = true → ∃ stem, s = stem ++ p.
Proof.
  unfold endsWith. intros H. apply prefix_split in H as [t Ht].
  exists (String.rev t). by rewrite <- (rev_rev s), Ht, rev_append, rev_rev.
Qed.

Lemma strip_trailing_slash_cases (s : string) :
  (s = strip_trailing_slash s ++ "/") ∨ strip_trailing_slash s = s.
Proof.
  unfold strip_trailing_slash. destruct (String.rev s) as [|c r] eqn:E; [by right|].
  destruct (decide (c = "/"%char)) as [->|Hc].
  - left. by rewrite <- (rev_rev s), E, rev_String.
  - right. destruct c as [[] [] [] [] [] [] [] []]; try done.
Qed.

Lemma ensureFilesEndpoint_ends (base : string) :
  endsWith "/files" (FeaturePage.ensureFilesEndpoint base) = true.
Proof.
  unfold FeaturePage.ensureFilesEndpoint.
  destruct (endsWith "/files" base) eqn:He; [done|apply endsWith_append].
Qed.

End Strings.

(** X7 — [ensureFilesEndpoint] normalises: its result always ends in
    [/files], applying it again changes nothing, and the result is the
    argument itself, the argument with [/files] added, or the argument with
    its one trailing slash replaced by [/files]. *)
Theorem ensureFilesEndpoint_normalises (base : string) :
  let e := FeaturePage.ensureFilesEndpoint base in
  endsWith "/files" e = true
  ∧ FeaturePage.ensureFilesEndpoint e = e
  ∧ ∃ stem, e = stem ++ "/files"
            ∧ (base = stem ++ "/files" ∨ base = stem ++ "/" ∨ base = stem).
Proof.
  intros e. subst e.
  destruct (endsWith "/files" base) eqn:He.
  - assert (FeaturePage.ensureFilesEndpoint base = base) as ->
      by (unfold FeaturePage.ensureFilesEndpoint; by rewrite He).
    split; [done|]. split.
    + unfold FeaturePage.ensureFilesEndpoint. by rewrite He.
    + destruct (endsWith_split _ _ He) as [stem ->]. exists stem. split; [done|]. by left.
  - assert (FeaturePage.ensureFilesEndpoint base = strip_trailing_slash base ++ "/files")
      as -> by (unfold FeaturePage.ensureFilesEndpoint; by rewrite He).
    split; [apply endsWith_append|]. split.
    + unfold FeaturePage.ensureFilesEndpoint. by rewrite endsWith_append.
    + exists (strip_trailing_slash base). split; [done|].
      destruct (strip_trailing_slash_cases base) as [H|H]; [by right; left|].
      right; right. by rewrite H.
Qed.

(** ** The job endpoints of the API client *)

Section Endpoints.
Variable this : ApiClient.APIClient.

Lemma await_some {A} (select : EnvEvent → option A) fut l a rest l' :
  await select fut l = (Some a, rest, l') → ∃ ev, ev ∈ fut ∧ select ev = Some a.
Proof.
  revert l. induction fut as [|ev fut IH]; intros l H; [done|].
  destruct ev; cbn [await] in H.
  - destruct (select (Answer o)) eqn:E; [|done]. injection H as -> _ _.
    exists (Answer o). split; [apply list_elem_of_here|done].
  - destruct (select (Uploaded o)) eqn:E; [|done]. injection H as -> _ _.
    exists (Uploaded o). split; [apply list_elem_of_here|done].
  - destruct (IH _ H) as (ev & Hin & Hs). exists ev. split; [|done].
    by apply list_elem_of_further.
Qed.

Lemma fetch_returned (req : Request) (w w' : World) (r : Response) :
  fetch req w = (Returned r, w') → Answer (Responded r) ∈ future w.
Proof.
  unfold fetch. cbv [mbind Net_bind perform await_event]. cbn [future log next_ref].
  destruct (await is_answer (future w) (log w ++ [Fetch req])) as [[[[r'|]|] rest] l] eqn:E;
    try done.
  intros [= <- _]. destruct (await_some _ _ _ _ _ _ E) as (ev & Hin & Hs).
  destruct ev; try done. simpl in Hs. by injection Hs as ->.
Qed.

Lemma request_world (endpoint : string) (options : ApiClient.RequestInit) (w : World) :
  (ApiClient.request this endpoint options w).2
  = (fetch (ApiClient.request_fetch this endpoint options) w).2.
Proof.
  unfold ApiClient.request, mbind, Net_bind.
  destruct (fetch _ w) as [[r| |] w']; [|done|done]. apply lift_world.
Qed.

Lemma wrapper_world (req : Request) (w : World) :
  ((r ← fetch req; lift (response_json r)) w).2 = (fetch req w).2.
Proof.
  unfold mbind, Net_bind.
  destruct (fetch _ w) as [[r| |] w']; [|done|done]. apply lift_world.
Qed.

End Endpoints.

(** X8 — The four job submitters of [APIClient] make one request each,
    whatever becomes of it (answered, failed or never answered), and none is
    sent again.  It is the request that the wrapper of [api.ts] of the same
    job kind makes for the same base URL, with the defaults filled in:
    offset 0, target languages [["original"]], start index 1, pad 2, no dry
    run; so the two clients leave the same world behind. *)
Theorem submitters_make_one_request (this : ApiClient.APIClient) (w : World) :
  let API := ApiClient.baseURL this in
  (∀ tusUrl,
     (JobEndpoints.submitSplitJob this tusUrl w).2 = (Api.createSplit API tusUrl w).2
     ∧ fetches (log (JobEndpoints.submitSplitJob this tusUrl w).2)
       = (fetches (log w)
          ++ [Api.post_json (API ++ "/split") (JObj [("tus_url", JStr tusUrl)])])%list)
  ∧ (∀ v a offsetSec,
     (JobEndpoints.submitMergeJob this v a offsetSec w).2
     = (Api.createMerge API (Some (JStr v)) (Some (JStr a)) (default 0 offsetSec) w).2
     ∧ fetches (log (JobEndpoints.submitMergeJob this v a None w).2)
       = (fetches (log w)
          ++ [Api.post_json (API ++ "/merge")
                (JObj [("video_tus_url", JStr v); ("audio_tus_url", JStr a);
                       ("offset_sec", JNum 0)])])%list)
  ∧ (∀ tusUrl,
     (JobEndpoints.submitTranscribeJob this tusUrl None w).2
     = (Api.createTranscribe API tusUrl w).2
     ∧ fetches (log (JobEndpoints.submitTranscribeJob this tusUrl None w).2)
       = (fetches (log w)
          ++ [Api.post_json (API ++ "/transcribe")
                (JObj [("tus_url", JStr tusUrl);
                       ("target_languages", JArr [JStr "original"])])])%list)
  ∧ (∀ keys pattern startIndex pad dryRun,
     (JobEndpoints.submitRenameJob this keys pattern startIndex pad dryRun w).2
     = (Api.bulkRename API keys pattern (default 1 startIndex) (default 2 pad)
          (default false dryRun) w).2
     ∧ fetches (log (JobEndpoints.submitRenameJob this keys pattern None None None w).2)
       = (fetches (log w)
          ++ [Api.post_json (API ++ "/rename")
                (JObj [("keys", JArr keys); ("pattern", JStr pattern);
                       ("start_index", JNum 1); ("pad", JNum 2);
                       ("dryRun", JBool false)])])%list).
Proof.
  intros API. subst API.
  unfold JobEndpoints.submitSplitJob, JobEndpoints.submitMergeJob,
    JobEndpoints.submitTranscribeJob, JobEndpoints.submitRenameJob,
    Api.createSplit, Api.createMerge, Api.createTranscribe, Api.bulkRename.
  repeat split; intros;
    first [ by rewrite request_world, wrapper_world
          | by rewrite request_world, fetches_fetch ].
Qed.

(** X9 — [request] returns only for a response with a 2xx status: the
    value is [{}] for a 204, whatever its body, and the parsed body
    otherwise.  No other answer makes it return, so no method of
    [APIClient] takes a value from an error response. *)
Theorem request_returns_only_ok
    (this : ApiClient.APIClient) (endpoint : string) (options : ApiClient.RequestInit)
    (w w' : World) (j : Json) :
  ApiClient.request this endpoint options w = (Returned j, w') →
  ∃ r, Answer (Responded r) ∈ future w
       ∧ ok r = true
       ∧ ((resp_status r = 204 ∧ j = JObj [])
          ∨ (resp_status r ≠ 204 ∧ json r = Some j)).
Proof.
  unfold ApiClient.request, mbind, Net_bind.
  destruct (fetch _ w) as [[r| |] w1] eqn:E; [|done|done].
  apply fetch_returned in E. intros H. exists r. split; [done|].
  unfold ApiClient.request_response in H.
  destruct (ok r); [|done]. split; [done|]. simpl in H.
  destruct (resp_status r =? 204) eqn:Hs.
  - left. split; [lia|]. by injection H as <- _.
  - right. split; [lia|]. unfold response_json in H.
    destruct (json r); [|done]. by injection H as <- _.
Qed.

Lemma request_returns_only_ok_witness :
  ∃ r, Answer (Responded r) ∈ [Answer (Responded Examples.ok_response)]
       ∧ ok r = true
       ∧ ((resp_status r = 204 ∧ JObj [] = JObj [])
          ∨ (resp_status r ≠ 204 ∧ json r = Some (JObj []))).
Proof.
  exact (request_returns_only_ok Examples.client "/health" ApiClient.no_options
           (world [Answer (Responded Examples.ok_response)]) _ (JObj []) eq_refl).
Defined.

Lemma tus_callback_keeps (st0 : JobEndpoints.TusState) (ev : JobEndpoints.TusEvent)
    (r : JsError + string) :
  JobEndpoints.promise st0 = Some r →
  JobEndpoints.promise (JobEndpoints.tus_callback st0 ev) = Some r.
Proof.
  intros Hr. destruct ev as [a b|e|[[|c u]|]]; cbn [JobEndpoints.tus_callback];
    unfold JobEndpoints.settle; by rewrite ?Hr.
Qed.

Lemma tus_callback_resolves (st0 : JobEndpoints.TusState) (ev : JobEndpoints.TusEvent)
    (s : string) :
  JobEndpoints.promise (JobEndpoints.tus_callback st0 ev) = Some (inr s) →
  JobEndpoints.promise st0 = Some (inr s)
  ∨ (s ≠ "" ∧ ev = JobEndpoints.TusSuccess (Some s)).
Proof.
  destruct (JobEndpoints.promise st0) as [r|] eqn:Hp.
  - rewrite (tus_callback_keeps st0 ev r Hp). by left.
  - destruct ev as [a b|e|[[|c u]|]]; cbn [JobEndpoints.tus_callback];
      unfold JobEndpoints.settle; rewrite ?Hp; cbn [JobEndpoints.promise];
      intros H; try congruence.
    right. injection H as <-. by split.
Qed.

Lemma tus_callback_log (st0 : JobEndpoints.TusState) (ev : JobEndpoints.TusEvent) :
  JobEndpoints.tus_log (JobEndpoints.tus_callback st0 ev)
  = (JobEndpoints.tus_log st0
     ++ match ev with
        | JobEndpoints.TusProgress a b => [OnProgress a b]
        | _ => []
        end)%list.
Proof.
  destruct ev as [a b|e|[[|c u]|]]; cbn [JobEndpoints.tus_callback];
    unfold JobEndpoints.settle; try done;
    destruct (JobEndpoints.promise st0); cbn [JobEndpoints.tus_log];
    by rewrite app_nil_r.
Qed.

(** X10 — The promise of [uploadWithTUS] settles once and keeps its
    outcome: it resolves only with a non-empty URL that [onSuccess] found,
    whatever the client reports afterwards changes nothing, every progress
    report is passed on, before and after, and outside a browser the call is
    rejected before any upload. *)
Theorem uploadWithTUS_settles_once (events more : list JobEndpoints.TusEvent) :
  let st := JobEndpoints.uploadWithTUS true events in
  (∀ s, JobEndpoints.promise st = Some (inr s) →
        s ≠ "" ∧ JobEndpoints.TusSuccess (Some s) ∈ events)
  ∧ (JobEndpoints.promise st = None
     ∨ JobEndpoints.promise (JobEndpoints.uploadWithTUS true (events ++ more))
       = JobEndpoints.promise st)
  ∧ JobEndpoints.tus_log st
    = omap (λ ev, match ev with
                  | JobEndpoints.TusProgress a b => Some (OnProgress a b)
                  | _ => None
                  end) events
  ∧ JobEndpoints.uploadWithTUS false events
    = {| JobEndpoints.promise := Some (inl (Error "TUS upload only available in browser"));
         JobEndpoints.tus_log := [] |}.
Proof.
  intros st. subst st. unfold JobEndpoints.uploadWithTUS.
  set (progress := λ ev, match ev with
                         | JobEndpoints.TusProgress a b => Some (OnProgress a b)
                         | _ => None
                         end).
  set (st0 := {| JobEndpoints.promise := None; JobEndpoints.tus_log := [] |}).
  assert (∀ evs st1 r, JobEndpoints.promise st1 = Some r →
            JobEndpoints.promise (foldl JobEndpoints.tus_callback st1 evs) = Some r)
    as Hkeep.
  { induction evs as [|ev evs IH]; intros st1 r Hr; [done|].
    cbn [foldl]. by apply IH, tus_callback_keeps. }
  split; [|split; [|split]].
  - assert (∀ evs st1 s,
              JobEndpoints.promise (foldl JobEndpoints.tus_callback st1 evs)
              = Some (inr s) →
              JobEndpoints.promise st1 = Some (inr s)
              ∨ (s ≠ "" ∧ JobEndpoints.TusSuccess (Some s) ∈ evs)) as Hres.
    { induction evs as [|ev evs IH]; intros st1 s Hs; [by left|].
      cbn [foldl] in Hs. destruct (IH _ _ Hs) as [H0|[Hne Hin]].
      - destruct (tus_callback_resolves _ _ _ H0) as [?|[Hne ->]]; [by left|].
        right. split; [done|]. apply list_elem_of_here.
      - right. split; [done|]. by apply list_elem_of_further. }
    intros s Hs. by destruct (Hres _ _ _ Hs) as [?|?].
  - destruct (JobEndpoints.promise (foldl _ st0 events)) as [r|] eqn:Hp; [right|by left].
    rewrite foldl_app. by apply Hkeep.
  - assert (∀ evs st1,
              JobEndpoints.tus_log (foldl JobEndpoints.tus_callback st1 evs)
              = (JobEndpoints.tus_log st1 ++ omap progress evs)%list) as Hlog.
    { induction evs as [|ev evs IH]; intros st1; [by rewrite app_nil_r|].
      cbn [foldl]. rewrite IH, tus_callback_log, <- app_assoc. f_equal.
      by destruct ev. }
    by rewrite Hlog.
  - done.
Qed.

(** ** The list of chosen files *)

Lemma filter_index_delete {A} (i : Z) (k : nat) (l : list A) :
  FileList.filter_index (λ index, negb (Z.of_nat index =? i)) k l
  = if bool_decide (Z.of_nat k <= i < Z.of_nat k + Z.of_nat (length l))
    then (take (Z.to_nat i - k) l ++ drop (S (Z.to_nat i - k)) l)%list
    else l.
Proof.
  revert k. induction l as [|x l IH]; intros k.
  - cbn [FileList.filter_index]. rewrite take_nil, drop_nil. by case_bool_decide.
  - cbn [FileList.filter_index length]. rewrite IH.
    destruct (Z.of_nat k =? i) eqn:Hk; cbn [negb].
    + apply Z.eqb_eq in Hk. subst i.
      rewrite bool_decide_false by lia. rewrite bool_decide_true by lia.
      rewrite Nat2Z.id, Nat.sub_diag. done.
    + apply Z.eqb_neq in Hk. case_bool_decide as H1; case_bool_decide as H2; try lia.
      * replace (Z.to_nat i - k)%nat with (S (Z.to_nat i - S k)) by lia. done.
      * done.
Qed.

(** X11 — [removeFile] takes out the file at the index and nothing else;
    an index outside the list (negative, or the length and beyond) leaves
    the list as it is.  Removing at the old length right after a drop of one
    file gives the old list back. *)
Theorem removeFile_deletes_one (indexToRemove : Z) (prev : list File) (f : File) :
  FileList.removeFile indexToRemove prev
  = (if bool_decide (0 <= indexToRemove < Z.of_nat (length prev))
     then take (Z.to_nat indexToRemove) prev ++ drop (S (Z.to_nat indexToRemove)) prev
     else prev)%list
  ∧ FileList.removeFile (Z.of_nat (length prev)) (FileList.handleDrop [f] prev) = prev.
Proof.
  unfold FileList.removeFile, FileList.handleDrop. rewrite !filter_index_delete.
  split.
  - rewrite Nat.sub_0_r. change (Z.of_nat 0) with 0. rewrite Z.add_0_l.
    reflexivity.
  - rewrite length_app. cbn [length].
    rewrite bool_decide_true by lia.
    rewrite Nat2Z.id, Nat.sub_0_r.
    rewrite take_app_length, drop_ge by (rewrite length_app; simpl; lia).
    by rewrite app_nil_r.
Qed.

(** ** What the computations add to the log *)

Section Adds.
Context {A B : Type}.
Variable P : Effect → Prop.

Lemma adds_ret (a : A) : adds P (mret a : Net A).
Proof. intros w. exists []. by rewrite app_nil_r. Qed.

Lemma adds_throw (e : JsError) : adds P (throw e : Net A).
Proof. intros w. exists []. by rewrite app_nil_r. Qed.

Lemma adds_lift (r : JsError + A) : adds P (lift r).
Proof. destruct r; [apply adds_throw|apply adds_ret]. Qed.

Lemma adds_pending : adds P (λ w, (Pending, w) : Outcome A * World).
Proof. intros w. exists []. by rewrite app_nil_r. Qed.

Lemma adds_bind (m : Net A) (f : A → Net B) :
  adds P m → (∀ a, adds P (f a)) → adds P (m ≫= f).
Proof.
  intros Hm Hf w. unfold mbind, Net_bind.
  destruct (Hm w) as (l1 & Hl1 & HP1).
  destruct (m w) as [[a| |] w1]; simpl in Hl1.
  - destruct (Hf a w1) as (l2 & Hl2 & HP2). exists (l1 ++ l2)%list.
    rewrite Hl2, Hl1, app_assoc. split; [done|]. by apply Forall_app.
  - by exists l1.
  - by exists l1.
Qed.

Lemma adds_try_catch (m : Net A) (h : JsError → Net A) :
  adds P m → (∀ e, adds P (h e)) → adds P (try_catch m h).
Proof.
  intros Hm Hh w. unfold try_catch.
  destruct (Hm w) as (l1 & Hl1 & HP1).
  destruct (m w) as [[a|e|] w1]; simpl in Hl1.
  - by exists l1.
  - destruct (Hh e w1) as (l2 & Hl2 & HP2). exists (l1 ++ l2)%list.
    rewrite Hl2, Hl1, app_assoc. split; [done|]. by apply Forall_app.
  - by exists l1.
Qed.

Lemma adds_try_finally (m : Net A) (f : Net unit) :
  adds P m → adds P f → adds P (try_finally m f).
Proof.
  intros Hm Hf w. unfold try_finally.
  destruct (Hm w) as (l1 & Hl1 & HP1).
  destruct (m w) as [[a|e|] w1]; simpl in Hl1.
  - destruct (Hf w1) as (l2 & Hl2 & HP2). exists (l1 ++ l2)%list.
    split; [|by apply Forall_app].
    destruct (f w1) as [[[]| |] w2]; simpl in *; by rewrite Hl2, Hl1, app_assoc.
  - destruct (Hf w1) as (l2 & Hl2 & HP2). exists (l1 ++ l2)%list.
    split; [|by apply Forall_app].
    destruct (f w1) as [[[]| |] w2]; simpl in *; by rewrite Hl2, Hl1, app_assoc.
  - by exists l1.
Qed.

End Adds.

Section AddsMore.
Context {A : Type}.
Variable P : Effect → Prop.

Lemma adds_perform (e : Effect) : P e → adds P (perform e).
Proof. intros He w. exists [e]. split; [done|]. by constructor. Qed.

Lemma adds_fresh_ref : adds P fresh_ref.
Proof. intros w. exists []. by rewrite app_nil_r. Qed.

Lemma await_log (select : EnvEvent → option A) fut l :
  ∃ k, (await select fut l).2 = (l ++ replicate k Cancelled)%list.
Proof.
  revert l. induction fut as [|ev fut IH]; intros l.
  - exists 0%nat. by rewrite app_nil_r.
  - destruct ev; cbn [await].
    + exists 0%nat. rewrite app_nil_r. by destruct (select (Answer o)).
    + exists 0%nat. rewrite app_nil_r. by destruct (select (Uploaded o)).
    + destruct (IH (l ++ [Cancelled])%list) as [k Hk]. exists (S k).
      by rewrite Hk, <- app_assoc.
Qed.

Lemma adds_await_event (select : EnvEvent → option A) :
  P Cancelled → adds P (await_event select).
Proof.
  intros Hc w. unfold await_event.
  destruct (await_log select (future w) (log w)) as [k Hk].
  exists (replicate k Cancelled). split; [|by apply Forall_replicate].
  by destruct (await select (future w) (log w)) as [[[a|] rest] l]; simpl in *.
Qed.

Lemma adds_weaken (Q : Effect → Prop) (m : Net A) :
  (∀ e, P e → Q e) → adds P m → adds Q m.
Proof.
  intros HPQ Hm w. destruct (Hm w) as (l & Hl & HP). exists l. split; [done|].
  by eapply Forall_impl.
Qed.

Lemma adds_for_of (xs : list A) (f : A → Net unit) :
  (∀ x, adds P (f x)) → adds P (for_of xs f).
Proof.
  intros Hf. induction xs as [|x xs IH]; cbn [for_of]; [apply adds_ret|].
  apply adds_bind; [apply Hf|]. by intros _.
Qed.

End AddsMore.

Section AddsLoops.
Variable P : Effect → Prop.

Lemma adds_fetch (req : Request) : P (Fetch req) → P Cancelled → adds P (fetch req).
Proof.
  intros Hf Hc. unfold fetch.
  apply adds_bind; [by apply adds_perform|]. intros _.
  apply adds_bind; [by apply adds_await_event|]. intros [r|];
    [apply adds_ret|apply adds_throw].
Qed.

Lemma adds_rounds (n : nat) (body : Net bool) : adds P body → adds P (rounds n body).
Proof.
  intros Hb. induction n as [|n IH]; cbn [rounds]; [apply adds_pending|].
  apply adds_bind; [done|]. intros [|]; [apply adds_ret|done].
Qed.

Lemma adds_while_true (body : Net bool) : adds P body → adds P (while_true body).
Proof. intros Hb w. unfold while_true. by apply adds_rounds. Qed.

End AddsLoops.

(** The steps of a proof that a computation adds effects of a kind: the
    binds are taken apart, the primitives are looked up, and the effects are
    checked. *)
Ltac adds_step :=
  lazymatch goal with
  | |- adds _ (mbind _ _) => apply adds_bind; [|intros ?]
  | |- adds _ (mret _) => apply adds_ret
  | |- adds _ (throw _) => apply adds_throw
  | |- adds _ (lift _) => apply adds_lift
  | |- adds _ (perform _) => apply adds_perform
  | |- adds _ fresh_ref => apply adds_fresh_ref
  | |- adds _ (await_event _) => apply adds_await_event
  | |- adds _ (fetch _) => apply adds_fetch
  | |- adds _ (sleep _) => apply adds_perform
  | |- adds _ (while_true _) => apply adds_while_true
  | |- adds _ (for_of _ _) => apply adds_for_of; intros ?
  | |- adds _ (try_catch _ _) => apply adds_try_catch; [|intros ?]
  | |- adds _ (try_finally _ _) => apply adds_try_finally
  | |- adds _ (match ?x with _ => _ end) => destruct x
  | |- adds _ (if ?x then _ else _) => destruct x
  end.

Ltac adds_all := repeat adds_step; try done.
(** ** The handler and its pollers *)

Section Pollers.
Variable API : string.

Lemma poller_effects (task_id : option Json) (timeline : list EnvEvent) :
  Forall (poller_effect API task_id) (EventLoop.poller API task_id timeline).
Proof.
  assert (adds (poller_effect API task_id)
            (FeaturePage.pollJob API task_id (FeaturePage.job_callback task_id))) as H.
  { unfold FeaturePage.pollJob, FeaturePage.pollJob_round, Api.getJob,
      FeaturePage.job_callback.
    adds_all. }
  unfold EventLoop.poller, run. by destruct (H (world timeline)) as (l & -> & Hl).
Qed.

Lemma bind_extends {A B} (m : Net A) (f : A → Net B) (w : World) :
  (∀ a, adds (λ _, True) (f a)) →
  ∃ l, log ((m ≫= f) w).2 = (log (m w).2 ++ l)%list.
Proof.
  intros Hf. unfold mbind, Net_bind. destruct (m w) as [[a|e|] w1]; cbn [snd].
  - destruct (Hf a w1) as (l & Hl & _). by exists l.
  - exists []. by rewrite app_nil_r.
  - exists []. by rewrite app_nil_r.
Qed.

(** The first thing a poller does is to send its request. *)
Lemma poller_first (task_id : option Json) (timeline : list EnvEvent) :
  ∃ rest, EventLoop.poller API task_id timeline
          = Fetch (EventLoop.status_request API task_id) :: rest.
Proof.
  unfold EventLoop.poller, run, FeaturePage.pollJob, while_true.
  set (w := world timeline). cbn [rounds].
  destruct (bind_extends (FeaturePage.pollJob_round API task_id
                            (FeaturePage.job_callback task_id))
              (λ stop : bool, if stop then mret ()
                              else rounds (length (future w))
                                     (FeaturePage.pollJob_round API task_id
                                        (FeaturePage.job_callback task_id))) w)
    as (l1 & ->).
  { intros [|]; [apply adds_ret|]. apply adds_rounds.
    unfold FeaturePage.pollJob_round, Api.getJob, FeaturePage.job_callback. adds_all. }
  unfold FeaturePage.pollJob_round.
  destruct (bind_extends (Api.getJob API task_id)
              (λ s, FeaturePage.job_callback task_id s;;
                    state ← lift (js_prop s "state");
                    if FeaturePage.terminal state then mret true
                    else sleep 1200;; mret false) w) as (l2 & ->).
  { intros s. unfold FeaturePage.job_callback. adds_all. }
  unfold Api.getJob.
  destruct (bind_extends (fetch (Api.get_no_store (API ++ "/jobs/" ++ js_string_opt task_id)))
              (λ r, lift (response_json r)) w) as (l3 & ->).
  { intros r. adds_all. }
  unfold fetch.
  destruct (bind_extends (perform (Fetch (Api.get_no_store
                                            (API ++ "/jobs/" ++ js_string_opt task_id))))
              (λ _, o ← await_event is_answer;
                    match o with
                    | Responded resp => mret resp
                    | NetworkFailure => throw (TypeError "Failed to fetch")
                    end) w) as (l4 & ->).
  { intros _. adds_all. }
  cbn [perform snd log w world app]. by eexists.
Qed.

Lemma spawned_elem (task_id : option Json) (l : list Effect) :
  task_id ∈ spawned l ↔ SpawnPoll task_id ∈ l.
Proof.
  unfold spawned. rewrite list_elem_of_omap. split.
  - intros (e & He & Hf). destruct e; try done. by injection Hf as ->.
  - intros H. by exists (SpawnPoll task_id).
Qed.

Lemma spawned_nil_cons (e : Effect) (l : list Effect) :
  spawned (e :: l) = [] → (∀ task_id, e ≠ SpawnPoll task_id) ∧ spawned l = [].
Proof. unfold spawned. destruct e; cbn [omap list_omap]; try done. Qed.

(** Whatever holds of all the handler does and of all that the pollers it
    starts can do holds of all that happens. *)
Lemma weave_Forall (Q : Effect → Prop) (timelines : list (list EnvEvent))
    (schedule : list EventLoop.Turn) :
  ∀ main pollers g,
  EventLoop.weave API schedule timelines main pollers = Some g →
  Forall Q main →
  (∀ task_id e, task_id ∈ spawned main → poller_effect API task_id e → Q e) →
  Forall (Forall Q) pollers →
  Forall Q g.
Proof.
  induction schedule as [|turn schedule IH]; intros main pollers g Hw Hmain Hsp Hps.
  - cbn in Hw. destruct main; [|done]. destruct (forallb _ _); [|done].
    injection Hw as <-. constructor.
  - destruct turn as [|i]; cbn [EventLoop.weave] in Hw.
    + destruct main as [|e main]; [done|].
      apply Forall_cons in Hmain as [He Hmain].
      assert (∀ task_id e0, task_id ∈ spawned main → poller_effect API task_id e0 → Q e0)
        as Hsp'.
      { intros task_id e0 Hin. apply Hsp. apply spawned_elem.
        apply list_elem_of_further. by apply spawned_elem. }
      assert (∀ g', EventLoop.weave API schedule timelines main pollers = Some g' →
                    Forall Q g') as Hplain by (intros g' Hg'; by apply (IH main pollers)).
      destruct e;
        try (destruct (EventLoop.weave API schedule timelines main pollers) as [g'|] eqn:Hg;
             [|done]; injection Hw as <-; constructor; [done|by apply Hplain]).
      set (p := EventLoop.poller API task_id _) in Hw.
      assert (Forall Q p) as Hp.
      { eapply Forall_impl; [apply poller_effects|]. intros e0. apply Hsp.
        apply spawned_elem, list_elem_of_here. }
      destruct (EventLoop.weave API schedule timelines main (pollers ++ [drop 1 p]))
        as [g'|] eqn:Hg; [|done].
      injection Hw as <-. constructor; [done|]. apply Forall_app. split.
      * by apply Forall_take.
      * apply (IH main (pollers ++ [drop 1 p])%list); try done.
        apply Forall_app. split; [done|]. constructor; [|done]. by apply Forall_drop.
    + destruct (pollers !! i) as [[|e p]|] eqn:Hi; try done.
      destruct (EventLoop.weave API schedule timelines main (<[i:=p]> pollers))
        as [g'|] eqn:Hg; [|done].
      injection Hw as <-.
      pose proof (proj1 (Forall_lookup _ _) Hps i _ Hi) as Hep.
      apply Forall_cons in Hep as [He Hp].
      constructor; [done|]. apply (IH main (<[i:=p]> pollers)); try done.
      by apply Forall_insert.
Qed.

(** A reading that sees nothing of what a poller does reads of a whole
    run what it reads of the handler. *)
Lemma weave_reading {B} (f : Effect → option B) (timelines : list (list EnvEvent))
    (schedule : list EventLoop.Turn) :
  (∀ task_id e, poller_effect API task_id e → f e = None) →
  ∀ main pollers g,
  EventLoop.weave API schedule timelines main pollers = Some g →
  Forall (Forall (λ e, f e = None)) pollers →
  omap f g = omap f main.
Proof.
  intros Hf.
  assert (∀ task_id timeline,
            Forall (λ e, f e = None) (EventLoop.poller API task_id timeline)) as Hpoller.
  { intros task_id timeline. eapply Forall_impl; [apply poller_effects|].
    intros e. apply Hf. }
  assert (∀ l, Forall (λ e, f e = None) l → omap f l = []) as Hquiet.
  { intros l Hl. induction Hl as [|e l He _ IHl]; [done|].
    cbn [omap list_omap]. by rewrite He. }
  induction schedule as [|turn schedule IH]; intros main pollers g Hw Hps.
  - cbn in Hw. destruct main; [|done]. destruct (forallb _ _); [|done].
    by injection Hw as <-.
  - destruct turn as [|i]; cbn [EventLoop.weave] in Hw.
    + destruct main as [|e main]; [done|].
      assert (∀ g', EventLoop.weave API schedule timelines main pollers = Some g' →
                    omap f (e :: g') = omap f (e :: main)) as Hplain.
      { intros g' Hg'. cbn [omap list_omap]. by rewrite (IH main pollers g'). }
      destruct e;
        try (destruct (EventLoop.weave API schedule timelines main pollers) as [g'|] eqn:Hg;
             [|done]; injection Hw as <-; by apply Hplain).
      set (p := EventLoop.poller API task_id _) in Hw.
      destruct (EventLoop.weave API schedule timelines main (pollers ++ [drop 1 p]))
        as [g'|] eqn:Hg; [|done].
      injection Hw as <-. cbn [omap list_omap]. rewrite omap_app.
      rewrite (Hquiet (take 1 p)) by (apply Forall_take, Hpoller).
      rewrite (IH main (pollers ++ [drop 1 p])%list g' Hg); [done|].
      apply Forall_app. split; [done|]. constructor; [|done].
      apply Forall_drop, Hpoller.
    + destruct (pollers !! i) as [[|e p]|] eqn:Hi; try done.
      destruct (EventLoop.weave API schedule timelines main (<[i:=p]> pollers))
        as [g'|] eqn:Hg; [|done].
      injection Hw as <-.
      pose proof (proj1 (Forall_lookup _ _) Hps i _ Hi) as Hep.
      apply Forall_cons in Hep as [He Hp].
      cbn [omap list_omap]. rewrite He.
      apply (IH main (<[i:=p]> pollers)); [done|]. by apply Forall_insert.
Qed.

(** Until the handler starts a poller, a whole run is what the handler
    does. *)
Lemma whole_run_prefix (timelines : list (list EnvEvent)) (l1 : list Effect) :
  spawned l1 = [] →
  ∀ schedule main g,
  EventLoop.whole_run API schedule timelines (l1 ++ main) = Some g →
  ∃ schedule' g', g = (l1 ++ g')%list
                  ∧ EventLoop.whole_run API schedule' timelines main = Some g'.
Proof.
  unfold EventLoop.whole_run.
  induction l1 as [|e l1 IH]; intros Hsp schedule main g Hw.
  - by exists schedule, g.
  - apply spawned_nil_cons in Hsp as [He Hsp].
    destruct schedule as [|[|i] schedule]; cbn in Hw; try done.
    destruct (EventLoop.weave API schedule timelines (l1 ++ main) []) as [g0|] eqn:Hg.
    + destruct (IH Hsp schedule main g0 Hg) as (schedule' & g' & -> & Hg').
      exists schedule', g'. split; [|done].
      destruct e; cbn in Hw; try (by injection Hw as <-). by destruct (He task_id).
    + destruct e; cbn in Hw; try done. by destruct (He task_id).
Qed.

Lemma whole_run_no_poller (timelines : list (list EnvEvent))
    (schedule : list EventLoop.Turn) (main g : list Effect) :
  spawned main = [] →
  EventLoop.whole_run API schedule timelines main = Some g → g = main.
Proof.
  intros Hsp Hw. rewrite <- (app_nil_r main) in Hw.
  destruct (whole_run_prefix timelines main Hsp schedule [] g Hw)
    as (schedule' & g' & -> & Hg').
  unfold EventLoop.whole_run in Hg'.
  destruct schedule' as [|[|i] schedule']; cbn in Hg'; try done.
  injection Hg' as <-. by rewrite app_nil_r.
Qed.

(** What a whole run keeps of the handler: its submissions, the entries it
    adds to the job list, its uploads and alerts, and the pollers it
    starts; and every request of the run is the handler's, or a status
    request of one of these pollers. *)
Lemma whole_run_readings (timelines : list (list EnvEvent))
    (schedule : list EventLoop.Turn) (main g : list Effect) :
  EventLoop.whole_run API schedule timelines main = Some g →
  posted g = posted main
  ∧ appended g = appended main
  ∧ uploads g = uploads main
  ∧ uploaded_files g = uploaded_files main
  ∧ alerts g = alerts main
  ∧ spawned g = spawned main
  ∧ Forall (own_or_status API main) (fetches g).
Proof.
  intros Hw. unfold EventLoop.whole_run in Hw.
  repeat split;
    try (apply (weave_reading _ timelines schedule) with (pollers := []);
         [|done|constructor];
         intros task_id e He; destruct e as [r| | | | | |u| | | | | | | |]; try done;
         first [by destruct u|by cbn in He; subst]).
  assert (Forall (λ e, match e with Fetch r => own_or_status API main r | _ => True end) g)
    as H.
  { apply (weave_Forall _ timelines schedule main [] g Hw); [| |constructor].
    - apply List.Forall_forall. intros e Hin.
      destruct e as [r| | | | | | | | | | | | | |]; try done. left.
      unfold fetches. apply list_elem_of_omap. exists (Fetch r).
      split; [by apply list_elem_of_In|done].
    - intros task_id [] Hin He; try done. right. exists task_id. by cbn in He. }
  clear Hw. unfold fetches. induction H as [|e g' He _ IH]; [constructor|].
  destruct e; cbn [omap list_omap]; try done. by constructor.
Qed.

(** *** Requests and poller starts of the handler *)

Lemma dispatched_app (l1 l2 : list Effect) :
  dispatched (l1 ++ l2) = (dispatched l1 ++ dispatched l2)%list.
Proof. unfold dispatched. apply omap_app. Qed.

Lemma fetches_dispatched (l : list Effect) :
  fetches l = omap (λ d, match d with inl r => Some r | inr _ => None end) (dispatched l).
Proof.
  unfold fetches, dispatched. induction l as [|e l IH]; [done|].
  destruct e; cbn [omap list_omap]; by rewrite ?IH.
Qed.

Lemma spawned_dispatched (l : list Effect) :
  spawned l = omap (λ d, match d with inl _ => None | inr t => Some t end) (dispatched l).
Proof.
  unfold spawned, dispatched. induction l as [|e l IH]; [done|].
  destruct e; cbn [omap list_omap]; by rewrite ?IH.
Qed.

Lemma posted_fetches (l : list Effect) :
  posted l = omap (λ r, match req_method r with POST => Some r | _ => None end) (fetches l).
Proof.
  unfold posted, fetches. induction l as [|e l IH]; [done|].
  destruct e; cbn [omap list_omap]; try done. rewrite IH.
  by destruct (req_method r).
Qed.

Lemma fetch_log (req : Request) (w : World) :
  ∃ k, log (fetch req w).2 = (log w ++ Fetch req :: replicate k Cancelled)%list.
Proof.
  unfold fetch. cbv [mbind Net_bind perform await_event]. cbn [future log next_ref].
  destruct (await_log is_answer (future w) (log w ++ [Fetch req])) as [k Hk].
  exists k.
  destruct (await is_answer (future w) (log w ++ [Fetch req])) as [[[[r|]|] rest] l];
    cbn [fst snd log] in *; by rewrite Hk, <- app_assoc.
Qed.

Lemma wrapper_dispatched (req : Request) (w : World) :
  dispatched (log ((r ← fetch req; lift (response_json r)) w).2)
  = (dispatched (log w) ++ [inl req])%list.
Proof.
  rewrite wrapper_world. destruct (fetch_log req w) as [k ->].
  rewrite dispatched_app. f_equal. cbn. f_equal.
  induction k as [|k IH]; [done|]. by cbn.
Qed.

(** [submit] sends its request and then, when it returns and only then,
    starts one poller. *)
Lemma submit_dispatched (submission : Net Json) (req : Request) (label : string)
    (kind : Jobs.JobKind) (tusUrl : option string) (w : World) :
  (∀ w0, dispatched (log (submission w0).2) = (dispatched (log w0) ++ [inl req])%list) →
  let r := FeaturePage.submit submission label kind tusUrl w in
  ∃ started,
    dispatched (log r.2) = (dispatched (log w) ++ inl req :: (inr <$> started))%list
    ∧ match r.1 with
      | Returned _ => length started = 1%nat
      | _ => started = []
      end.
Proof.
  intros Hsub r. subst r.
  unfold FeaturePage.submit, mbind, Net_bind, fresh_ref, perform.
  cbn [future log next_ref].
  set (w1 := {| future := _; log := _; next_ref := _ |}).
  pose proof (Hsub w1) as Hd.
  assert (dispatched (log w1) = dispatched (log w)) as Hw1.
  { unfold w1. cbn [log]. rewrite dispatched_app. cbn. by rewrite app_nil_r. }
  rewrite Hw1 in Hd.
  destruct (submission w1) as [[j|e|] w2]; cbn [fst snd] in *.
  - destruct (js_prop j "task_id") as [e|task_id]; cbn [lift throw mret Net_ret fst snd].
    + exists []. by rewrite Hd.
    + exists [task_id]. cbn [future log next_ref].
      rewrite !dispatched_app, Hd. cbn. by rewrite app_nil_r, <- app_assoc.
  - exists []. by rewrite Hd.
  - exists []. by rewrite Hd.
Qed.

Lemma omap_head_split {A B} (f : A → option B) (l : list A) (b : B) :
  head (omap f l) = Some b →
  ∃ l1 e l2, l = (l1 ++ e :: l2)%list ∧ omap f l1 = [] ∧ f e = Some b.
Proof.
  induction l as [|e l IH]; [done|]. cbn [omap list_omap].
  destruct (f e) as [b'|] eqn:He.
  - intros [= ->]. by exists [], e, l.
  - intros H. destruct (IH H) as (l1 & e' & l2 & -> & Hl1 & He').
    exists (e :: l1), e', l2. split; [done|]. split; [|done].
    cbn [omap list_omap]. by rewrite He.
Qed.

(** When the handler sends a request before it starts a poller, that
    request is the first of the whole run. *)
Lemma whole_run_first (timelines : list (list EnvEvent))
    (schedule : list EventLoop.Turn) (main g : list Effect) (r : Request) :
  EventLoop.whole_run API schedule timelines main = Some g →
  head (dispatched main) = Some (inl r) →
  head (fetches g) = Some r.
Proof.
  intros Hw Hhead. unfold dispatched in Hhead.
  apply omap_head_split in Hhead as (l1 & e & l2 & -> & Hl1 & He).
  destruct e; try done. injection He as ->.
  assert (spawned (l1 ++ [Fetch r]) = []) as Hsp.
  { rewrite spawned_dispatched, dispatched_app. unfold dispatched at 1.
    by rewrite Hl1. }
  rewrite (cons_middle (Fetch r)), app_assoc in Hw.
  destruct (whole_run_prefix timelines _ Hsp schedule l2 g Hw)
    as (schedule' & g' & -> & _).
  rewrite !fetches_app, fetches_dispatched. unfold dispatched. by rewrite Hl1.
Qed.

Lemma own_or_status_dispatched (main : list Effect) (post : Request)
    (started : list (option Json)) (r : Request) :
  dispatched main = inl post :: (inr <$> started) →
  own_or_status API main r →
  r = post ∨ ∃ task_id, task_id ∈ started ∧ r = EventLoop.status_request API task_id.
Proof.
  intros Hd. unfold own_or_status.
  rewrite fetches_dispatched, spawned_dispatched, Hd. cbn [omap list_omap].
  assert (omap (λ d : Request + option Json,
                  match d with inl r0 => Some r0 | inr _ => None end) (inr <$> started)
          = []) as ->.
  { clear Hd. induction started as [|t started IH]; [done|]. cbn. exact IH. }
  assert (omap (λ d : Request + option Json,
                  match d with inl _ => None | inr t => Some t end) (inr <$> started)
          = started) as ->.
  { clear Hd. induction started as [|t started IH]; [done|]. cbn. f_equal. exact IH. }
  intros [Hin|H]; [left|by right].
  by apply list_elem_of_singleton in Hin.
Qed.

Lemma dispatched_one (main : list Effect) (post : Request)
    (started : list (option Json)) :
  dispatched main = inl post :: (inr <$> started) →
  fetches main = [post] ∧ spawned main = started
  ∧ head (dispatched main) = Some (inl post).
Proof.
  intros Hd. rewrite fetches_dispatched, spawned_dispatched, Hd.
  cbn [omap list_omap head]. split; [|split; [|done]].
  - f_equal. clear Hd. induction started as [|t started IH]; [done|]. cbn. exact IH.
  - clear Hd. induction started as [|t started IH]; [done|]. cbn. f_equal. exact IH.
Qed.

(** A handler that makes one submission and starts at most one poller
    for it: what a whole run shows of it. *)
Lemma whole_run_one_submission (timelines : list (list EnvEvent))
    (schedule : list EventLoop.Turn) (main g : list Effect) (post : Request)
    (started : list (option Json)) :
  req_method post = POST →
  dispatched main = inl post :: (inr <$> started) →
  EventLoop.whole_run API schedule timelines main = Some g →
  posted g = [post]
  ∧ head (fetches g) = Some post
  ∧ Forall (λ r, r = post
                 ∨ ∃ task_id, task_id ∈ started
                              ∧ r = EventLoop.status_request API task_id) (fetches g).
Proof.
  intros Hpost Hd Hw.
  destruct (whole_run_readings timelines schedule main g Hw)
    as (Hp & _ & _ & _ & _ & _ & Hall).
  destruct (dispatched_one main post started Hd) as (Hf & _ & Hhead).
  split; [|split].
  - rewrite Hp, posted_fetches, Hf. cbn. by rewrite Hpost.
  - by apply (whole_run_first timelines schedule main).
  - eapply Forall_impl; [exact Hall|]. intros r.
    by apply own_or_status_dispatched.
Qed.

End Pollers.

(** ** [onGetStarted] *)

Section GetStarted.
Variable API : string.

Lemma branches_keep_flag (featureName tusEndpoint : string) (files : list File) :
  adds not_processing_flag
    (try_catch
       match FeaturePage.branch_of featureName with
       | FeaturePage.SplitBranch => FeaturePage.split_branch API tusEndpoint files
       | FeaturePage.MergeBranch => FeaturePage.merge_branch API tusEndpoint files
       | FeaturePage.TranscribeBranch => FeaturePage.transcribe_branch API tusEndpoint files
       | FeaturePage.RenameBranch => FeaturePage.rename_branch API files
       | FeaturePage.NoBranch => mret ()
       end
       (λ e, perform (ConsoleError e);; perform (Alert (error_message e)))).
Proof.
  unfold FeaturePage.split_branch, FeaturePage.merge_branch,
    FeaturePage.transcribe_branch, FeaturePage.rename_branch, FeaturePage.submit,
    FeaturePage.uploadViaTus, Api.getTusEndpoint, Api.createSplit, Api.createMerge,
    Api.createTranscribe, Api.bulkRename.
  adds_all.
Qed.

Lemma handler_never_throws {A} (m : Net A) (h : JsError → Net A) (w : World) :
  (∀ e w1, ∃ a w2, h e w1 = (Returned a, w2)) →
  ∀ e, (try_catch m h w).1 ≠ Threw e.
Proof.
  intros Hh e. unfold try_catch. destruct (m w) as [[a|e1|] w1]; try done.
  by destruct (Hh e1 w1) as (a & w2 & ->).
Qed.

End GetStarted.


(** ** Reading what a branch adds to the log *)

Section Readings.
Context {B : Type}.
Variable f : Effect → option B.

Lemma adds_reading {A} (P : Effect → Prop) (m : Net A) (w : World) :
  adds P m → (∀ e, P e → f e = None) →
  omap f (log (m w).2) = omap f (log w).
Proof.
  intros Hm HP. destruct (Hm w) as (l & -> & Hl). rewrite omap_app.
  assert (omap f l = []) as ->; [|by rewrite app_nil_r].
  induction Hl as [|e l He _ IH]; [done|]. cbn [omap list_omap].
  by rewrite (HP e He).
Qed.

(** The frame of [onGetStarted] around a branch. *)
Lemma frame_reading (m : Net unit) (w : World) :
  (∀ b, f (SetIsProcessing b) = None) → (∀ e, f (ConsoleError e) = None) →
  (∀ s, f (Alert s) = None) →
  omap f (log ((perform (SetIsProcessing true);;
                try_finally
                  (try_catch m (λ e, perform (ConsoleError e);;
                                     perform (Alert (error_message e))))
                  (perform (SetIsProcessing false))) w).2)
  = omap f (log (m {| future := future w; log := log w ++ [SetIsProcessing true];
                      next_ref := next_ref w |}).2).
Proof.
  intros H1 H2 H3. unfold mbind, Net_bind, try_finally, try_catch, perform.
  cbn [future log next_ref].
  destruct (m _) as [[[]|e|] w2]; cbn [fst snd future log next_ref];
    rewrite ?omap_app; cbn [omap list_omap]; rewrite ?H1, ?H2, ?H3;
    by rewrite ?app_nil_r.
Qed.

(** [submit] around a submission. *)
Lemma submit_reading (submission : Net Json) (label : string) (kind : Jobs.JobKind)
    (tusUrl : option string) (w : World) :
  (∀ u, f (SetJobs u) = None) → (∀ t, f (SpawnPoll t) = None) →
  omap f (log (FeaturePage.submit submission label kind tusUrl w).2)
  = omap f (log (submission
                   {| future := future w;
                      log := log w ++ [SetJobs (AppendJob
                               {| Jobs.entry_ref := Some (next_ref w); Jobs.id := None;
                                  Jobs.label := label; Jobs.kind := kind;
                                  Jobs.status := Some (JStr "QUEUED");
                                  Jobs.tusUrl := tusUrl; Jobs.result := None;
                                  Jobs.error := None |})];
                      next_ref := S (next_ref w) |}).2).
Proof.
  intros H1 H2. unfold FeaturePage.submit, mbind, Net_bind, fresh_ref, perform.
  cbn [future log next_ref].
  destruct (submission _) as [[j|e|] w2]; cbn [fst snd]; try done.
  destruct (js_prop j "task_id") as [e|task_id]; cbn [lift throw mret Net_ret fst snd];
    [done|].
  cbn [future log next_ref]. rewrite !omap_app. cbn [omap list_omap].
  by rewrite H1, H2, !app_nil_r.
Qed.

End Readings.

Section RenameBranch.

Lemma wrapper_fetches (req : Request) (w : World) :
  fetches (log ((r ← fetch req; lift (response_json r)) w).2)
  = (fetches (log w) ++ [req])%list.
Proof. by rewrite wrapper_world, fetches_fetch. Qed.

Lemma wrapper_adds (P : Effect → Prop) (req : Request) :
  P (Fetch req) → P Cancelled → adds P (r ← fetch req; lift (response_json r)).
Proof. intros. adds_all. Qed.

End RenameBranch.

(** X13 — The rename branch of [onGetStarted] sends a request only when it
    has keys: the first file must be named [.txt] or [.json] and yield at
    least one key.  Then the POST of the keys, with the fixed pattern, start
    index 1, pad 2 and no dry run, is the first request and the only
    submission, whatever the answer; the handler starts at most one poller,
    after the POST, and every other request of the run, the pollers
    included, is a status request of that poller.  Otherwise the user is
    alerted and nothing reaches the network: no request, no poller.  No
    file is ever uploaded on this branch. *)
Theorem rename_sends_only_with_keys
    (API featureName tusEndpoint : string) (f : File) (rest : list File)
    (timeline : list EnvEvent) (schedule : list EventLoop.Turn)
    (timelines : list (list EnvEvent)) (g : list Effect) :
  FeaturePage.branch_of featureName = FeaturePage.RenameBranch →
  let ext := after_last_dot (toLowerCase (file_name f)) in
  let keys := if String.eqb ext "txt" || String.eqb ext "json"
              then FeaturePage.rename_keys f else [] in
  let post := Api.post_json (API ++ "/rename")
                (JObj [("keys", JArr keys);
                       ("pattern", JStr "SERIES_{basename}_EP-{index}{ext}");
                       ("start_index", JNum 1); ("pad", JNum 2);
                       ("dryRun", JBool false)]) in
  let '(out, w) := run (FeaturePage.onGetStarted API featureName tusEndpoint (f :: rest))
                     timeline in
  EventLoop.whole_run API schedule timelines (log w) = Some g →
  uploads g = []
  ∧ match keys with
    | [] => out = Returned () ∧ future w = timeline
            ∧ ∃ msg, g = [SetIsProcessing true; Alert msg; SetIsProcessing false]
    | _ =>
        ∃ started,
          (length started <= 1)%nat
          ∧ dispatched (log w) = inl post :: (inr <$> started)
          ∧ posted g = [post]
          ∧ head (fetches g) = Some post
          ∧ Forall (λ r, r = post
                         ∨ ∃ task_id, task_id ∈ started
                                      ∧ r = EventLoop.status_request API task_id)
              (fetches g)
    end.
Proof.
  intros Hb ext keys post.
  unfold run, FeaturePage.onGetStarted. rewrite Hb.
  unfold FeaturePage.rename_branch. cbv zeta.
  change (default "" (file_name <$> head (f :: rest))) with (file_name f).
  cbn [head]. subst post keys ext.
  destruct (String.eqb _ "txt" || String.eqb _ "json") eqn:Hext; cbn [negb].
  - destruct (FeaturePage.rename_keys f) as [|k ks] eqn:Hkeys.
    + cbv [mbind Net_bind try_finally try_catch perform world]. cbn.
      intros Hw. apply whole_run_no_poller in Hw; [|done]. subst g.
      split; [done|]. split; [done|]. split; [done|]. by eexists.
    + set (M := mbind _ _).
      set (post := Api.post_json _ _).
      assert (uploads (log (M (world timeline)).2) = []) as Hu.
      { unfold M, uploads. rewrite frame_reading by done.
        rewrite submit_reading by done. unfold Api.bulkRename.
        rewrite (adds_reading _
                   (λ e, match e with UppyUpload _ _ _ _ => False | _ => True end));
          [done|by apply wrapper_adds|by intros []]. }
      assert (∃ started, (length started <= 1)%nat
                         ∧ dispatched (log (M (world timeline)).2)
                           = inl post :: (inr <$> started)) as (started & Hlen & Hd).
      { unfold M, dispatched. rewrite frame_reading by done. fold dispatched.
        destruct (submit_dispatched
                    (Api.bulkRename API (k :: ks) "SERIES_{basename}_EP-{index}{ext}"
                       1 2 false) post
                    ("Rename " ++ pretty (Z.of_nat (length (k :: ks))) ++ " files")
                    Jobs.rename None
                    {| future := future (world timeline);
                       log := log (world timeline) ++ [SetIsProcessing true];
                       next_ref := next_ref (world timeline) |})
          as (started & Hd & Hout).
        { intros w0. unfold Api.bulkRename. apply wrapper_dispatched. }
        exists started. split; [|exact Hd].
        destruct (FeaturePage.submit _ _ _ _ _).1; [lia|subst; cbn; lia..]. }
      destruct (M (world timeline)) as [out w]. cbn [snd] in *.
      intros Hw.
      destruct (whole_run_readings API timelines schedule (log w) g Hw)
        as (_ & _ & Hug & _).
      split; [by rewrite Hug|]. exists started. split; [done|]. split; [done|].
      by apply (whole_run_one_submission API timelines schedule (log w)).
  - cbv [mbind Net_bind try_finally try_catch perform world]. cbn.
    intros Hw. apply whole_run_no_poller in Hw; [|done]. subst g.
    split; [done|]. split; [done|]. split; [done|]. by eexists.
Qed.

Lemma rename_sends_only_with_keys_witness :
  (let '(out, w) := run (FeaturePage.onGetStarted Examples.API "Rename files in bulk" ""
                           [Scenarios.keys_file]) [Scenarios.task_created] in
   match EventLoop.whole_run Examples.API (poller_before_flag 5)
           [[Examples.status_response "SUCCESS"]] (log w) with
   | Some g =>
       (λ r, (req_method r, req_url r)) <$> fetches g
       = [(POST, "http://api.test/rename"); (GET, "http://api.test/jobs/t1")]
       ∧ req_body <$> posted g
         = [JsonBody (JObj [("keys", JArr [JStr "a.mp4"; JStr "b.mp4"]);
                            ("pattern", JStr "SERIES_{basename}_EP-{index}{ext}");
                            ("start_index", JNum 1); ("pad", JNum 2);
                            ("dryRun", JBool false)])]
   | None => False
   end)
  ∧ (let '(out, w) := run (FeaturePage.onGetStarted Examples.API "Rename files in bulk" ""
                             [Scenarios.blank_file]) [Scenarios.task_created] in
     EventLoop.whole_run Examples.API [] [] (log w) = None
     ∧ EventLoop.whole_run Examples.API (replicate 3 EventLoop.Handler) [] (log w)
       = Some (log w)
     ∧ fetches (log w) = [] ∧ future w = [Scenarios.task_created]).
Proof.
  split.
  - pose proof (rename_sends_only_with_keys Examples.API "Rename files in bulk" ""
                  Scenarios.keys_file [] [Scenarios.task_created] (poller_before_flag 5)
                  [[Examples.status_response "SUCCESS"]]) as H.
    cbv zeta in H. destruct (run _ _) as [out w] eqn:Erun.
    destruct (EventLoop.whole_run _ _ _ (log w)) as [g|] eqn:Hg.
    + destruct (H g eq_refl eq_refl) as (_ & H1). clear H.
      match type of H1 with
      | match ?k with _ => _ end => change k with [JStr "a.mp4"; JStr "b.mp4"] in H1
      end.
      cbv beta iota in H1. destruct H1 as (started & _ & _ & Hposted & _).
      rewrite Hposted. split; [|done].
      vm_compute in Erun. injection Erun as <- <-.
      vm_compute in Hg. by injection Hg as <-.
    + vm_compute in Erun. injection Erun as <- <-. by vm_compute in Hg.
  - pose proof (rename_sends_only_with_keys Examples.API "Rename files in bulk" ""
                  Scenarios.blank_file [] [Scenarios.task_created]
                  (replicate 3 EventLoop.Handler) []) as H.
    cbv zeta in H. destruct (run _ _) as [out w] eqn:Erun.
    vm_compute in Erun. injection Erun as <- <-.
    specialize (H _ eq_refl eq_refl). by vm_compute.
Defined.

(** ** The job list *)

Section JobList.

Lemma jobs_after_app (l1 l2 : list Effect) (jobs : list Jobs.JobEntry) :
  FeaturePage.jobs_after (l1 ++ l2) jobs
  = FeaturePage.jobs_after l2 (FeaturePage.jobs_after l1 jobs).
Proof. unfold FeaturePage.jobs_after. apply foldl_app. Qed.

Lemma jobs_after_skip (l : list Effect) (jobs : list Jobs.JobEntry) :
  Forall not_job_write l → FeaturePage.jobs_after l jobs = jobs.
Proof.
  induction 1 as [|e l He _ IH]; [done|].
  unfold FeaturePage.jobs_after in *. cbn [foldl]. by destruct e.
Qed.

Lemma jobs_after_cons (e : Effect) (l : list Effect) (jobs : list Jobs.JobEntry) :
  FeaturePage.jobs_after (e :: l) jobs
  = FeaturePage.jobs_after l
      match e with SetJobs u => FeaturePage.apply_update u jobs | _ => jobs end.
Proof. reflexivity. Qed.

End JobList.

(** X14 — The job list only grows: whatever a log does to it, no entry is
    removed or moved, and the label, the kind and the upload URL of an entry
    never change; only entries are added at the end. *)
Theorem job_list_only_grows (l : list Effect) (jobs : list Jobs.JobEntry) :
  ∃ more,
    (Jobs.label <$> FeaturePage.jobs_after l jobs)
    = ((Jobs.label <$> jobs) ++ (Jobs.label <$> more))%list
    ∧ (Jobs.kind <$> FeaturePage.jobs_after l jobs)
      = ((Jobs.kind <$> jobs) ++ (Jobs.kind <$> more))%list
    ∧ (Jobs.tusUrl <$> FeaturePage.jobs_after l jobs)
      = ((Jobs.tusUrl <$> jobs) ++ (Jobs.tusUrl <$> more))%list
    ∧ length more = length (appended l).
Proof.
  revert jobs. induction l as [|e l IH]; intros jobs.
  - exists []. by rewrite !app_nil_r.
  - rewrite jobs_after_cons.
    destruct e as [| | | | | |u| | | | | | | |];
      try (destruct (IH jobs) as (more & ? & ? & ? & ?); by exists more).
    destruct (IH (FeaturePage.apply_update u jobs)) as (more & Hl & Hk & Ht & Hn).
    destruct u as [tmp|tmp task_id|task_id s].
    + exists (tmp :: more). cbn [FeaturePage.apply_update] in *.
      rewrite Hl, Hk, Ht, !fmap_app, <- !app_assoc. repeat split; try done.
      unfold appended. cbn [omap list_omap length]. by f_equal.
    + exists more. rewrite Hl, Hk, Ht. cbn [FeaturePage.apply_update].
      rewrite <- !list_fmap_compose.
      repeat split; try done;
        f_equal; apply list_fmap_ext; intros i x _; cbn; by case_bool_decide.
    + exists more. rewrite Hl, Hk, Ht. cbn [FeaturePage.apply_update].
      rewrite <- !list_fmap_compose.
      repeat split; try done;
        f_equal; apply list_fmap_ext; intros i x _; cbn; by destruct (strict_eq _ _).
Qed.

Section Submit.

Lemma refs_below_unmarked (n : nat) (tmp : Jobs.JobEntry) (task_id : option Json)
    (jobs : list Jobs.JobEntry) :
  refs_below n jobs → Jobs.entry_ref tmp = Some n →
  FeaturePage.apply_update (MarkStarted tmp task_id) jobs = jobs.
Proof.
  intros Hjobs Htmp. cbn [FeaturePage.apply_update].
  induction Hjobs as [|x jobs Hx _ IH]; [done|].
  rewrite fmap_cons, IH. f_equal.
  rewrite bool_decide_false; [done|]. intros [_ Heq]. rewrite Htmp in Heq.
  specialize (Hx n Heq). lia.
Qed.

Lemma appended_app (l1 l2 : list Effect) :
  appended (l1 ++ l2) = (appended l1 ++ appended l2)%list.
Proof. unfold appended. apply omap_app. Qed.

Lemma submit_appended (submission : Net Json) (label : string) (kind : Jobs.JobKind)
    (tusUrl : option string) (w : World) :
  adds not_job_write submission →
  ∃ tmp, appended (log (FeaturePage.submit submission label kind tusUrl w).2)
         = (appended (log w) ++ [tmp])%list
         ∧ Jobs.label tmp = label ∧ Jobs.tusUrl tmp = tusUrl ∧ Jobs.kind tmp = kind.
Proof.
  intros Hsub. unfold FeaturePage.submit, mbind, Net_bind, fresh_ref, perform.
  cbn [future log next_ref].
  exists {| Jobs.entry_ref := Some (next_ref w); Jobs.id := None;
            Jobs.label := label; Jobs.kind := kind;
            Jobs.status := Some (JStr "QUEUED"); Jobs.tusUrl := tusUrl;
            Jobs.result := None; Jobs.error := None |}.
  split; [|by repeat split].
  set (w1 := {| future := _; log := _; next_ref := _ |}).
  destruct (Hsub w1) as (l & Hl & HP).
  assert (appended l = []) as Hnone.
  { clear Hl. induction HP as [|e l He _ IH]; [done|]. by destruct e. }
  destruct (submission w1) as [[j|e|] w2]; cbn [fst snd] in *.
  - destruct (js_prop j "task_id") as [e|task_id]; cbn [lift throw mret Net_ret snd].
    + rewrite Hl. unfold w1. cbn [log]. rewrite !appended_app, Hnone. cbn.
      by rewrite app_nil_r.
    + cbn [log]. rewrite !appended_app, Hl. unfold w1. cbn [log].
      rewrite !appended_app, Hnone. cbn. by rewrite !app_nil_r.
  - rewrite Hl. unfold w1. cbn [log]. rewrite !appended_app, Hnone. cbn.
    by rewrite app_nil_r.
  - rewrite Hl. unfold w1. cbn [log]. rewrite !appended_app, Hnone. cbn.
    by rewrite app_nil_r.
Qed.

End Submit.



Section SubmitLoop.
Variable API : string.
Variable create : string → Net Json.
Variable req : string → Request.
Variable kind : Jobs.JobKind.
Hypothesis create_dispatched : ∀ u w,
  dispatched (log (create u w).2) = (dispatched (log w) ++ [inl (req u)])%list.
Hypothesis create_adds : ∀ u, adds not_job_write (create u).
Hypothesis req_post : ∀ u, req_method (req u) = POST.

Let body (u : File * string) : Net unit :=
  FeaturePage.submit (create u.2) (file_name u.1) kind (Some u.2).

Lemma body_appended (u : File * string) (w : World) :
  ∃ tmp, appended (log (body u w).2) = (appended (log w) ++ [tmp])%list
         ∧ Jobs.label tmp = file_name u.1 ∧ Jobs.tusUrl tmp = Some u.2
         ∧ Jobs.kind tmp = kind.
Proof. apply submit_appended, create_adds. Qed.

Lemma submit_loop (ups : list (File * string)) (w : World) :
  ∃ k started,
    (k <= length ups)%nat
    ∧ dispatched (log (for_of ups body w).2)
      = (dispatched (log w) ++ in_turn (req ∘ snd <$> take k ups) started)%list
    ∧ (Jobs.label <$> appended (log (for_of ups body w).2))
      = ((Jobs.label <$> appended (log w)) ++ (file_name ∘ fst <$> take k ups))%list
    ∧ (Jobs.tusUrl <$> appended (log (for_of ups body w).2))
      = ((Jobs.tusUrl <$> appended (log w)) ++ (Some ∘ snd <$> take k ups))%list
    ∧ match (for_of ups body w).1 with
      | Returned _ => k = length ups ∧ length started = k
      | _ => (0 < k)%nat ∧ length started = pred k
      end.
Proof.
  revert w. induction ups as [|u ups IH]; intros w.
  - exists 0%nat, []. cbn. by rewrite !app_nil_r.
  - cbn [for_of]. unfold mbind, Net_bind.
    destruct (submit_dispatched (create u.2) (req u.2) (file_name u.1) kind (Some u.2) w
                (create_dispatched u.2)) as (st1 & Hd & Hst1).
    cbv zeta in Hd, Hst1. fold (body u) in Hd, Hst1.
    destruct (body_appended u w) as (tmp & Ha & Hlab & Hurl & _).
    destruct (body u w) as [[[]|e|] w1]; cbn [fst snd] in *.
    + destruct (IH w1) as (k & started & Hk & Hd' & Hl' & Hu' & Hout).
      destruct st1 as [|t [|]]; try done.
      exists (S k), (t :: started).
      split; [simpl; lia|]. rewrite Hd', Hl', Hu', Hd, Ha, !fmap_app.
      cbn [take fmap list_fmap in_turn]. rewrite <- !app_assoc. cbn.
      rewrite Hlab, Hurl. repeat split; try done.
      destruct (for_of ups body w1).1; cbn [length]; lia.
    + subst st1. exists 1%nat, []. split; [simpl; lia|]. rewrite Hd, Ha, !fmap_app. cbn.
      rewrite Hlab, Hurl. repeat split; try done. lia.
    + subst st1. exists 1%nat, []. split; [simpl; lia|]. rewrite Hd, Ha, !fmap_app. cbn.
      rewrite Hlab, Hurl. repeat split; try done. lia.
Qed.

Lemma in_turn_requests (posts : list Request) (started : list (option Json)) :
  omap (λ d, match d with inl r => Some r | inr _ => None end) (in_turn posts started)
  = posts.
Proof.
  revert started. induction posts as [|p posts IH]; intros started; [done|].
  destruct started as [|t started]; cbn; by rewrite IH.
Qed.

Lemma in_turn_started (posts : list Request) (started : list (option Json)) :
  (length started <= length posts)%nat →
  omap (λ d, match d with inl _ => None | inr t => Some t end) (in_turn posts started)
  = started.
Proof.
  revert started. induction posts as [|p posts IH]; intros started Hlen.
  - destruct started; [done|simpl in Hlen; lia].
  - destruct started as [|t started]; cbn.
    + by rewrite (IH []) by (simpl; lia).
    + rewrite IH by (simpl in Hlen; lia). done.
Qed.

(** What a whole run shows of the loop. *)
Lemma submit_loop_run (ups : list (File * string)) (timeline : list EnvEvent)
    (schedule : list EventLoop.Turn) (timelines : list (list EnvEvent))
    (g : list Effect) :
  let r := run (for_of ups body) timeline in
  EventLoop.whole_run API schedule timelines (log r.2) = Some g →
  ∃ k started,
    (k <= length ups)%nat
    ∧ dispatched (log r.2) = in_turn (req ∘ snd <$> take k ups) started
    ∧ match r.1 with
      | Returned _ => k = length ups ∧ length started = k
      | _ => (0 < k)%nat ∧ length started = pred k
      end
    ∧ posted g = (req ∘ snd <$> take k ups)
    ∧ Jobs.label <$> appended g = (file_name ∘ fst <$> take k ups)
    ∧ Jobs.tusUrl <$> appended g = (Some ∘ snd <$> take k ups)
    ∧ Forall (λ q, q ∈ (req ∘ snd <$> take k ups)
                   ∨ ∃ task_id, task_id ∈ started
                                ∧ q = EventLoop.status_request API task_id)
        (fetches g).
Proof.
  intros r Hw. subst r. unfold run in *.
  destruct (submit_loop ups (world timeline))
    as (k & started & Hk & Hd & Hl & Hu & Hout).
  change (dispatched (log (world timeline))) with (@nil (Request + option Json)) in Hd.
  change (appended (log (world timeline))) with (@nil Jobs.JobEntry) in Hl, Hu.
  cbn [app fmap list_fmap] in Hd, Hl, Hu.
  assert (length started <= length (req ∘ snd <$> take k ups))%nat as Hlen.
  { rewrite length_fmap, length_take.
    destruct (for_of ups body (world timeline)).1; lia. }
  destruct (whole_run_readings API timelines schedule _ g Hw)
    as (Hp & Ha & _ & _ & _ & _ & Hall).
  exists k, started. split; [done|]. split; [done|]. split; [done|].
  assert (fetches (log (for_of ups body (world timeline)).2)
          = (req ∘ snd <$> take k ups)) as Hf.
  { by rewrite fetches_dispatched, Hd, in_turn_requests. }
  split; [|split; [by rewrite Ha|split; [by rewrite Ha|]]].
  - rewrite Hp, posted_fetches, Hf. clear -req_post.
    induction (take k ups) as [|u l IH]; [done|]. cbn. by rewrite req_post, IH.
  - eapply Forall_impl; [exact Hall|]. intros q. unfold own_or_status.
    by rewrite Hf, spawned_dispatched, Hd, in_turn_started.
Qed.

End SubmitLoop.



(** ** A poller that meets a bad answer *)

Section PollFailure.
Variable API : string.
Variable task_id : option Json.

Let req : Request := Api.get_no_store (API ++ "/jobs/" ++ js_string_opt task_id).
Let body : Net bool := FeaturePage.pollJob_round API task_id FeaturePage.emit.

Lemma poll_round_emit (w : World) : body w = poll_round_result req Emit w.
Proof. apply (pollJob_round_unfold API task_id Emit). Qed.

(** The rounds over status responses that are not terminal. *)
Lemma poll_prefix (rs : list Response) :
  ∀ (n : nat) (l : list Effect) (nr : nat) (rest : list EnvEvent),
  forallb is_status_response rs = true →
  existsb snapshot_terminal (omap json rs) = false →
  rounds (length rs + n) body
    {| future := answers rs ++ rest; log := l; next_ref := nr |}
  = rounds n body
      {| future := rest;
         log := l ++ (omap json rs ≫= λ s, [Fetch req; Emit s; Sleep 1200]);
         next_ref := nr |}.
Proof.
  induction rs as [|r rs IH]; intros n l nr rest Hs Ht.
  - cbn. by rewrite app_nil_r.
  - cbn [forallb] in Hs. apply andb_prop in Hs as [Hr Hrs].
    unfold is_status_response in Hr.
    destruct (json r) as [s|] eqn:Hj; [|done].
    cbn [omap list_omap] in Ht |- *. rewrite Hj in Ht |- *.
    cbn [existsb] in Ht. apply orb_false_elim in Ht as [Hts Htr].
    assert (js_prop s "state" = inr (FeaturePage.snapshot_field s "state")) as Hstate
      by (unfold FeaturePage.snapshot_field; by destruct s).
    cbn [length Nat.add rounds]. unfold mbind at 1, Net_bind at 1.
    rewrite poll_round_emit. unfold poll_round_result.
    cbn [future log next_ref answers fmap list_fmap app await is_answer].
    rewrite Hj, Hstate. unfold snapshot_terminal in Hts. rewrite Hts.
    fold (answers rs). rewrite IH by done.
    cbn [mbind list_bind]. by rewrite <- !app_assoc.
Qed.

End PollFailure.

(** X17 — A poller of [FeaturePage] does not survive a bad answer.  After
    any number of status responses that are not terminal, the first answer
    that is a network failure, or whose body does not parse, or parses to
    [null], makes [pollJob] throw: the request is not sent again, no delay
    is taken, the answers that follow are left untouched, and only a [null]
    body is still handed to the callback. *)
Theorem pollJob_fails_at_first_bad_answer
    (API : string) (task_id : option Json) (rs : list Response) (o : FetchOutcome)
    (rest : list EnvEvent) :
  forallb is_status_response rs = true →
  existsb snapshot_terminal (omap json rs) = false →
  is_status_answer o = false →
  let req := Api.get_no_store (API ++ "/jobs/" ++ js_string_opt task_id) in
  let '(out, w) := run (FeaturePage.pollJob API task_id FeaturePage.emit)
                     (answers rs ++ Answer o :: rest) in
  ∃ e l,
    out = Threw e
    ∧ log w = ((omap json rs ≫= λ s, [Fetch req; Emit s; Sleep 1200])
               ++ Fetch req :: l)%list
    ∧ (l = [] ∨ l = [Emit JNull])
    ∧ future w = rest.
Proof.
  intros Hs Ht Ho req.
  unfold run, FeaturePage.pollJob, while_true, world. cbn [future].
  rewrite length_app. unfold answers at 1. rewrite length_fmap. cbn [length].
  replace (S (length rs + S (length rest)))
    with (length rs + S (S (length rest)))%nat by lia.
  rewrite (poll_prefix API task_id rs) by done.
  cbn [rounds app]. unfold mbind at 1, Net_bind at 1.
  rewrite (poll_round_emit API task_id). unfold poll_round_result.
  cbn [future log next_ref await is_answer]. fold req.
  destruct o as [r|]; cbn [is_status_answer] in Ho.
  - unfold is_status_response in Ho. destruct (json r) as [[| | | | |]|]; try done.
    + cbn [js_prop]. eexists _, [Emit JNull]. split; [done|].
      cbn [log future]. rewrite <- app_assoc. split; [done|]. by split; [right|].
    + eexists _, []. cbn [log future]. split; [done|]. split; [done|]. by split; [left|].
  - eexists _, []. cbn [log future]. split; [done|]. split; [done|]. by split; [left|].
Qed.

Lemma pollJob_fails_at_first_bad_answer_witness :
  let '(out, w) := run (FeaturePage.pollJob Examples.API Examples.task FeaturePage.emit)
                     (answers [Examples.response 200 (Some (Examples.snapshot "STARTED"))]
                      ++ Answer NetworkFailure
                         :: answers [Examples.response 200
                                       (Some (Examples.snapshot "SUCCESS"))]) in
  out = Threw (TypeError "Failed to fetch")
  ∧ length (fetches (log w)) = 2%nat
  ∧ future w = answers [Examples.response 200 (Some (Examples.snapshot "SUCCESS"))].
Proof.
  pose proof (pollJob_fails_at_first_bad_answer Examples.API Examples.task
                [Examples.response 200 (Some (Examples.snapshot "STARTED"))]
                NetworkFailure
                (answers [Examples.response 200 (Some (Examples.snapshot "SUCCESS"))])
                eq_refl eq_refl eq_refl) as H.
  cbv zeta in H. destruct (run _ _) as [out w] eqn:E.
  destruct H as (e & l & -> & Hlog & _ & Hfut).
  vm_compute in E. injection E as He <-. split; [by rewrite He|].
  split; [done|exact Hfut].
Defined.

(** ** The loops of the panels *)

Section PanelLoop.
Variable body : Net bool.
Variable task_id : option Json.
Variable req : Request.
Variable delay : Z.

(** A round of the loop of a panel on a status response, and on an empty
    timeline. *)
Hypothesis body_answered : ∀ r rs l nr s,
  json r = Some s → s ≠ JNull →
  body {| future := answers (r :: rs); log := l; next_ref := nr |}
  = (Returned (panel_settled s),
     {| future := answers rs;
        log := l ++ Fetch req ::
                 (if panel_settled s
                  then [SetJob task_id (FeaturePage.snapshot_field s "state")
                          (FeaturePage.snapshot_field s "result")]
                  else [Sleep delay]);
        next_ref := nr |}).
Hypothesis body_waiting : ∀ l nr,
  body {| future := []; log := l; next_ref := nr |}
  = (Pending, {| future := []; log := l ++ [Fetch req]; next_ref := nr |}).

Lemma panel_rounds (rs : list Response) :
  ∀ (n : nat) (l : list Effect) (nr : nat),
  (length rs < n)%nat → forallb is_status_response rs = true →
  rounds n body {| future := answers rs; log := l; next_ref := nr |}
  = (if existsb panel_settled (omap json rs) then Returned () else Pending,
     {| future := answers (drop (length (up_to_settled (omap json rs))) rs);
        log := l ++ panel_trace delay task_id req (omap json rs);
        next_ref := nr |}).
Proof.
  induction rs as [|r rs IH]; intros n l nr Hn Hs.
  - destruct n as [|n]; [simpl in Hn; lia|]. cbn [rounds]. unfold mbind, Net_bind.
    change (answers []) with (@nil EnvEvent). by rewrite body_waiting.
  - destruct n as [|n]; [simpl in Hn; lia|].
    simpl in Hs. apply andb_prop in Hs as [Hr Hrs].
    unfold is_status_response in Hr.
    destruct (json r) as [s|] eqn:Hj; [|done].
    assert (s ≠ JNull) as Hnull by (by destruct s).
    cbn [omap list_omap]. rewrite Hj.
    cbn [existsb up_to_settled panel_trace length].
    cbn [rounds]. unfold mbind at 1, Net_bind at 1.
    rewrite (body_answered r rs l nr s Hj Hnull).
    destruct (panel_settled s) eqn:Ht; cbn [orb].
    + reflexivity.
    + rewrite (IH n _ nr) by (simpl in Hn; lia || done).
      by rewrite <- !app_assoc.
Qed.

Lemma panel_trace_writes (ss : list Json) :
  job_writes (panel_trace delay task_id req ss)
  = match List.find panel_settled ss with
    | Some s => [(task_id, FeaturePage.snapshot_field s "state",
                  FeaturePage.snapshot_field s "result")]
    | None => []
    end.
Proof.
  induction ss as [|s ss IH]; [done|].
  cbn [panel_trace List.find]. unfold job_writes in *. cbn [omap list_omap].
  destruct (panel_settled s); [done|]. cbn [omap list_omap]. exact IH.
Qed.

Lemma panel_trace_sleeps (ss : list Json) :
  sleeps (panel_trace delay task_id req ss)
  = replicate (length (up_to_settled ss)
               - (if existsb panel_settled ss then 1 else 0)) delay.
Proof.
  induction ss as [|s ss IH]; [done|].
  cbn [panel_trace up_to_settled existsb]. unfold sleeps in *. cbn [omap list_omap].
  destruct (panel_settled s); cbn [omap list_omap orb length]; [done|].
  rewrite IH. destruct (existsb panel_settled ss) eqn:Hex.
  - destruct ss as [|s' ss']; [done|]. cbn [up_to_settled length].
    replace (S (S (length (if panel_settled s' then [] else up_to_settled ss'))) - 1)%nat
      with (S (S (length (if panel_settled s' then [] else up_to_settled ss')) - 1))
      by lia.
    done.
  - rewrite !Nat.sub_0_r. done.
Qed.

Lemma panel_trace_fetches (ss : list Json) :
  fetches (panel_trace delay task_id req ss)
  = replicate (length (up_to_settled ss)
               + (if existsb panel_settled ss then 0 else 1)) req.
Proof.
  induction ss as [|s ss IH]; [done|].
  cbn [panel_trace up_to_settled existsb]. unfold fetches in *. cbn [omap list_omap].
  destruct (panel_settled s); cbn [omap list_omap orb length]; [done|].
  by rewrite IH.
Qed.

End PanelLoop.

Section Panels.
Variable API : string.

Lemma bind_apply {A B} (f : A → Net B) (m : Net A) (w : World) :
  (m ≫= f) w
  = match m w with
    | (Returned a, w') => f a w'
    | (Threw e, w') => (Threw e, w')
    | (Pending, w') => (Pending, w')
    end.
Proof. reflexivity. Qed.

Lemma snapshot_prop (s : Json) (k : string) :
  s ≠ JNull → js_prop s k = inr (FeaturePage.snapshot_field s k).
Proof. intros Hs. unfold FeaturePage.snapshot_field. by destruct s. Qed.

(** A round of a loop that differs from the one of [MergePanel] by its
    delay only. *)
Lemma panel_round_answered (delay : Z) (task_id : option Json) (r : Response)
    (rs : list Response) (l : list Effect) (nr : nat) (s : Json) :
  json r = Some s → s ≠ JNull →
  (s0 ← Api.getJob API task_id;
   state ← lift (js_prop s0 "state");
   if MergePanel.settled state then
     res ← lift (js_prop s0 "result");
     perform (SetJob task_id state res);;
     mret true
   else sleep delay;; mret false)
    {| future := answers (r :: rs); log := l; next_ref := nr |}
  = (Returned (panel_settled s),
     {| future := answers rs;
        log := l ++ Fetch (EventLoop.status_request API task_id) ::
                 (if panel_settled s
                  then [SetJob task_id (FeaturePage.snapshot_field s "state")
                          (FeaturePage.snapshot_field s "result")]
                  else [Sleep delay]);
        next_ref := nr |}).
Proof.
  intros Hj Hs. unfold Api.getJob, fetch, sleep, panel_settled.
  cbv [mbind Net_bind perform await_event mret Net_ret lift response_json]. simpl.
  rewrite Hj. cbn [future log next_ref]. rewrite !(snapshot_prop s) by done.
  destruct (MergePanel.settled (FeaturePage.snapshot_field s "state"));
    cbn [future log next_ref]; by rewrite <- !app_assoc.
Qed.

Lemma panel_round_waiting (delay : Z) (task_id : option Json) (l : list Effect)
    (nr : nat) :
  (s0 ← Api.getJob API task_id;
   state ← lift (js_prop s0 "state");
   if MergePanel.settled state then
     res ← lift (js_prop s0 "result");
     perform (SetJob task_id state res);;
     mret true
   else sleep delay;; mret false)
    {| future := []; log := l; next_ref := nr |}
  = (Pending,
     {| future := []; log := l ++ [Fetch (EventLoop.status_request API task_id)];
        next_ref := nr |}).
Proof. reflexivity. Qed.

(** A click on a panel, once the submission has been answered with a body
    of which [task_id] can be read: the job is written as PENDING, then
    the loop runs. *)
Lemma panel_click (delay : Z) (post : Request) (r0 : Response) (j : Json)
    (rs : list Response) :
  json r0 = Some j → j ≠ JNull →
  forallb is_status_response rs = true →
  let task_id := FeaturePage.snapshot_field j "task_id" in
  let body :=
    (s0 ← Api.getJob API task_id;
     state ← lift (js_prop s0 "state");
     if MergePanel.settled state then
       res ← lift (js_prop s0 "result");
       perform (SetJob task_id state res);;
       mret true
     else sleep delay;; mret false) in
  run (j0 ← (r ← fetch post; lift (response_json r));
       task_id0 ← lift (js_prop j0 "task_id");
       perform (SetJob task_id0 (Some (JStr "PENDING")) None);;
       while_true
         (s0 ← Api.getJob API task_id0;
          state ← lift (js_prop s0 "state");
          if MergePanel.settled state then
            res ← lift (js_prop s0 "result");
            perform (SetJob task_id0 state res);;
            mret true
          else sleep delay;; mret false))
    (answers (r0 :: rs))
  = (if existsb panel_settled (omap json rs) then Returned () else Pending,
     {| future := answers (drop (length (up_to_settled (omap json rs))) rs);
        log := Fetch post :: SetJob task_id (Some (JStr "PENDING")) None
               :: panel_trace delay task_id (EventLoop.status_request API task_id)
                    (omap json rs);
        next_ref := 0 |}).
Proof.
  intros Hj Hnull Hrs task_id body. unfold run.
  rewrite bind_apply.
  assert ((r ← fetch post; lift (response_json r)) (world (answers (r0 :: rs)))
          = (Returned j, {| future := answers rs; log := [Fetch post]; next_ref := 0 |}))
    as ->.
  { unfold fetch. cbv [mbind Net_bind perform await_event mret Net_ret lift
                         response_json world]. simpl. by rewrite Hj. }
  rewrite bind_apply, (snapshot_prop j) by done. fold task_id.
  cbn [lift mret Net_ret]. rewrite bind_apply. unfold perform at 1.
  cbn [future log next_ref]. unfold while_true. cbn [future].
  rewrite (panel_rounds _ task_id (EventLoop.status_request API task_id) delay
             (panel_round_answered delay task_id) (panel_round_waiting delay task_id)
             rs _ _ 0%nat);
    [done|unfold answers; rewrite length_fmap; lia|done].
Qed.

(** Whatever comes of it, the submission is the first thing in the log. *)
Lemma submission_first {B} (post : Request) (k : Json → Net B)
    (timeline : list EnvEvent) :
  (∀ j, adds (λ _, True) (k j)) →
  ∃ l, log (run ((r ← fetch post; lift (response_json r)) ≫= k) timeline).2
       = Fetch post :: l.
Proof.
  intros Hk. unfold run.
  destruct (bind_extends (r ← fetch post; lift (response_json r)) k (world timeline) Hk)
    as (l1 & ->).
  rewrite wrapper_world. destruct (fetch_log post (world timeline)) as [n ->].
  cbn [world log app]. by eexists.
Qed.

End Panels.

(** X18 — A click on Merge with both uploads sends the POST of what the
    two stored objects hold as [tusUrl], a reference that is undefined
    being left out of the body, before anything else and whatever comes of
    it.  When the answer carries a body, the job is written as PENDING
    under the id read from it, and the loop asks for the status of that id:
    the first state reported that is neither PENDING nor STARTED is written
    to the job with its result and ends the loop, and between two status
    requests lie exactly the 1200 ms of one delay; a STARTED report is
    never shown. *)
Theorem merge_panel_writes_job_twice
    (API : string) (v a : MergePanel.Uploaded) (r0 : Response) (j : Json)
    (rs : list Response) (timeline : list EnvEvent) :
  json r0 = Some j → j ≠ JNull →
  forallb is_status_response rs = true →
  let task_id := FeaturePage.snapshot_field j "task_id" in
  let post := Api.post_json (API ++ "/merge")
                (JObj (defined_fields [("video_tus_url", MergePanel.tusUrl v);
                                       ("audio_tus_url", MergePanel.tusUrl a);
                                       ("offset_sec", Some (JNum 0))])) in
  let snapshots := omap json rs in
  (let '(out, w) := run (MergePanel.onClick API (Some v) (Some a)) (answers (r0 :: rs)) in
   log w = Fetch post :: SetJob task_id (Some (JStr "PENDING")) None
           :: panel_trace 1200 task_id (EventLoop.status_request API task_id) snapshots
   ∧ job_writes (log w) = panel_job task_id snapshots
   ∧ (out = Returned () ↔ existsb panel_settled snapshots = true)
   ∧ (out = Pending ↔ existsb panel_settled snapshots = false)
   ∧ future w = answers (drop (length (up_to_settled snapshots)) rs)
   ∧ sleeps (log w)
     = replicate (length (fetches (log w)) - 2) 1200
   ∧ fetches (log w)
     = post :: replicate (length (up_to_settled snapshots)
                          + (if existsb panel_settled snapshots then 0 else 1))
                 (EventLoop.status_request API task_id))
  ∧ (∃ l, log (run (MergePanel.onClick API (Some v) (Some a)) timeline).2 = Fetch post :: l)
  ∧ (MergePanel.tusUrl v = None → MergePanel.tusUrl a = None →
     req_body post = JsonBody (JObj [("offset_sec", JNum 0)])).
Proof.
  intros Hj Hnull Hrs task_id post snapshots. split; [|split].
  - unfold MergePanel.onClick, MergePanel.poll_round, Api.createMerge. fold post.
    rewrite (panel_click API 1200 post r0 j rs Hj Hnull Hrs). fold task_id snapshots.
    split; [done|]. split; [|split; [|split; [|split; [done|split]]]].
    + unfold job_writes, panel_job. cbn [log omap list_omap]. f_equal.
      apply (panel_trace_writes task_id).
    + by destruct (existsb panel_settled snapshots).
    + by destruct (existsb panel_settled snapshots).
    + cbn [log]. unfold sleeps, fetches. cbn [omap list_omap length].
      fold (sleeps (panel_trace 1200 task_id (EventLoop.status_request API task_id)
                      snapshots)).
      fold (fetches (panel_trace 1200 task_id (EventLoop.status_request API task_id)
                       snapshots)).
      rewrite panel_trace_sleeps, panel_trace_fetches, length_replicate. f_equal.
      destruct (existsb panel_settled snapshots) eqn:Hex; [|lia].
      destruct snapshots; [done|]. cbn [up_to_settled length]. lia.
    + cbn [log]. unfold fetches. cbn [omap list_omap]. f_equal.
      apply panel_trace_fetches.
  - unfold MergePanel.onClick, Api.createMerge, run. fold post.
    apply submission_first. intros j0.
    unfold MergePanel.poll_round, Api.getJob. adds_all.
  - intros Hv Ha. subst post. by rewrite Hv, Ha.
Qed.

Lemma merge_panel_writes_job_twice_witness :
  let '(out, w) :=
    run (MergePanel.onClick Examples.API
           (Some {| MergePanel.name := None; MergePanel.tusUrl := None |})
           (Some {| MergePanel.name := None; MergePanel.tusUrl := None |}))
      (answers (Examples.response 200 (Some (JObj [("task_id", JStr "t1")]))
                :: Examples.three_answers)) in
  out = Returned ()
  ∧ job_writes (log w)
    = [ (Some (JStr "t1"), Some (JStr "PENDING"), None);
        (Some (JStr "t1"), Some (JStr "SUCCESS"), None) ]
  ∧ sleeps (log w) = [1200]
  ∧ (λ r, (req_url r, req_body r)) <$> fetches (log w)
    = [ ("http://api.test/merge", JsonBody (JObj [("offset_sec", JNum 0)]));
        ("http://api.test/jobs/t1", NoBody); ("http://api.test/jobs/t1", NoBody) ].
Proof.
  pose proof (merge_panel_writes_job_twice Examples.API
                {| MergePanel.name := None; MergePanel.tusUrl := None |}
                {| MergePanel.name := None; MergePanel.tusUrl := None |}
                (Examples.response 200 (Some (JObj [("task_id", JStr "t1")])))
                (JObj [("task_id", JStr "t1")]) Examples.three_answers []
                eq_refl ltac:(done) eq_refl) as [H _].
  cbv zeta in H. destruct (run _ _) as [out w].
  destruct H as (_ & Hw & Hout & _ & _ & Hs & Hf).
  split; [by apply Hout|]. split; [by rewrite Hw|].
  rewrite Hs, Hf. by vm_compute.
Defined.

(** ** Trimmed keys *)

Section Trim.

Lemma trim_start_fixed (s : string) : trim_start (trim_start s) = trim_start s.
Proof.
  induction s as [|c s IH]; [done|]. cbn [trim_start].
  destruct (is_space c) eqn:Hc; [done|]. cbn [trim_start]. by rewrite Hc.
Qed.

Lemma trim_start_suffix (s : string) : ∃ p, s = p ++ trim_start s.
Proof.
  induction s as [|c s IH]; [by exists ""|]. cbn [trim_start].
  destruct (is_space c).
  - destruct IH as [p Hp]. exists (String c p). by rewrite append_String, <- Hp.
  - by exists "".
Qed.

Lemma trim_start_prefix (x y : string) :
  x ≠ "" → trim_start (x ++ y) = x ++ y → trim_start x = x.
Proof.
  destruct x as [|c x]; [done|]. intros _. rewrite append_String. cbn [trim_start].
  destruct (is_space c); [|done]. intros H.
  destruct (trim_start_suffix (x ++ y)) as [p Hp]. rewrite H in Hp.
  apply (f_equal String.length) in Hp.
  assert (∀ a b, String.length (a ++ b) = (String.length a + String.length b)%nat) as Hlen.
  { intros a b. induction a as [|d a IHa]; [done|]. rewrite append_String. cbn. by rewrite IHa. }
  rewrite !Hlen in Hp. cbn [String.length] in Hp. rewrite ?Hlen in Hp. lia.
Qed.

Lemma trim_fixed (s : string) : trim (trim s) = trim s.
Proof.
  unfold trim. set (t := trim_start s). set (u := trim_start (String.rev t)).
  assert (trim_start (String.rev u) = String.rev u) as Hclean.
  { destruct (decide (String.rev u = "")) as [->|Hne]; [done|].
    destruct (trim_start_suffix (String.rev t)) as [p Hp]. fold u in Hp.
    apply (f_equal String.rev) in Hp. rewrite rev_rev, rev_append in Hp.
    apply (trim_start_prefix _ (String.rev p)); [done|].
    rewrite <- Hp. apply trim_start_fixed. }
  rewrite Hclean, rev_rev. unfold u. by rewrite trim_start_fixed.
Qed.

End Trim.

(** X19 — The Rename panel has no guard: a click always sends the POST of
    the keys first, also when the text holds no key at all.  The keys are
    the lines of the text, trimmed, without the empty ones, in order; they
    are the keys that the rename branch of [FeaturePage] reads from a text
    that is not JSON.  When the answer carries a body, the job is written
    as PENDING under the id read from it, and the loop asks for the status
    of that id: the first state reported that is neither PENDING nor
    STARTED is written to the job with its result and ends the loop, and
    between two status requests lie exactly the 1000 ms of one delay. *)
Theorem rename_panel_submits_any_keys
    (API keysText pattern : string) (f : File) (r0 : Response) (j : Json)
    (rs : list Response) (timeline : list EnvEvent) :
  json r0 = Some j → j ≠ JNull →
  forallb is_status_response rs = true →
  let keys := RenamePanel.keys_of keysText in
  let task_id := FeaturePage.snapshot_field j "task_id" in
  let post := Api.post_json (API ++ "/rename")
                (JObj [("keys", JArr (JStr <$> keys)); ("pattern", JStr pattern);
                       ("start_index", JNum 1); ("pad", JNum 2);
                       ("dryRun", JBool false)]) in
  let snapshots := omap json rs in
  Forall (λ key, key ≠ "" ∧ trim key = key) keys
  ∧ (file_text_json f = None →
     FeaturePage.rename_keys f = JStr <$> RenamePanel.keys_of (file_text f))
  ∧ (let '(out, w) := run (RenamePanel.rename_onClick API keysText pattern)
                        (answers (r0 :: rs)) in
     log w = Fetch post :: SetJob task_id (Some (JStr "PENDING")) None
             :: panel_trace 1000 task_id (EventLoop.status_request API task_id) snapshots
     ∧ job_writes (log w) = panel_job task_id snapshots
     ∧ (out = Returned () ↔ existsb panel_settled snapshots = true)
     ∧ (out = Pending ↔ existsb panel_settled snapshots = false)
     ∧ future w = answers (drop (length (up_to_settled snapshots)) rs)
     ∧ sleeps (log w) = replicate (length (fetches (log w)) - 2) 1000
     ∧ fetches (log w)
       = post :: replicate (length (up_to_settled snapshots)
                            + (if existsb panel_settled snapshots then 0 else 1))
                   (EventLoop.status_request API task_id))
  ∧ (∃ l, log (run (RenamePanel.rename_onClick API keysText pattern) timeline).2
          = Fetch post :: l).
Proof.
  intros Hj Hnull Hrs keys task_id post snapshots.
  split; [|split; [|split]].
  - unfold keys, RenamePanel.keys_of. apply List.Forall_forall. intros key Hin.
    apply filter_In in Hin as [Hin Hne]. apply in_map_iff in Hin as (line & <- & _).
    split; [|apply trim_fixed].
    intros Heq. rewrite Heq in Hne. done.
  - intros Hjson. unfold FeaturePage.rename_keys. by rewrite Hjson.
  - unfold RenamePanel.rename_onClick, RenamePanel.rename_poll_round, Api.bulkRename.
    fold keys post.
    rewrite (panel_click API 1000 post r0 j rs Hj Hnull Hrs). fold task_id snapshots.
    split; [done|]. split; [|split; [|split; [|split; [done|split]]]].
    + unfold job_writes, panel_job. cbn [log omap list_omap]. f_equal.
      apply (panel_trace_writes task_id).
    + by destruct (existsb panel_settled snapshots).
    + by destruct (existsb panel_settled snapshots).
    + cbn [log]. unfold sleeps, fetches. cbn [omap list_omap length].
      fold (sleeps (panel_trace 1000 task_id (EventLoop.status_request API task_id)
                      snapshots)).
      fold (fetches (panel_trace 1000 task_id (EventLoop.status_request API task_id)
                       snapshots)).
      rewrite panel_trace_sleeps, panel_trace_fetches, length_replicate. f_equal.
      destruct (existsb panel_settled snapshots) eqn:Hex; [|lia].
      destruct snapshots; [done|]. cbn [up_to_settled length]. lia.
    + cbn [log]. unfold fetches. cbn [omap list_omap]. f_equal.
      apply panel_trace_fetches.
  - unfold RenamePanel.rename_onClick, Api.bulkRename, run. fold keys post.
    apply submission_first. intros j0.
    unfold RenamePanel.rename_poll_round, Api.getJob. adds_all.
Qed.

Lemma rename_panel_submits_any_keys_witness :
  let '(out, w) :=
    run (RenamePanel.rename_onClick Examples.API "" "EP-{index}")
      (answers (Examples.response 200 (Some (JObj [("task_id", JStr "t1")]))
                :: Examples.three_answers)) in
  out = Returned ()
  ∧ job_writes (log w)
    = [ (Some (JStr "t1"), Some (JStr "PENDING"), None);
        (Some (JStr "t1"), Some (JStr "SUCCESS"), None) ]
  ∧ sleeps (log w) = [1000]
  ∧ (λ r, (req_url r, req_body r)) <$> fetches (log w)
    = [ ("http://api.test/rename",
         JsonBody (JObj [("keys", JArr []); ("pattern", JStr "EP-{index}");
                         ("start_index", JNum 1); ("pad", JNum 2);
                         ("dryRun", JBool false)]));
        ("http://api.test/jobs/t1", NoBody); ("http://api.test/jobs/t1", NoBody) ].
Proof.
  pose proof (rename_panel_submits_any_keys Examples.API "" "EP-{index}"
                Scenarios.keys_file
                (Examples.response 200 (Some (JObj [("task_id", JStr "t1")])))
                (JObj [("task_id", JStr "t1")]) Examples.three_answers []
                eq_refl ltac:(done) eq_refl) as (_ & _ & H & _).
  cbv zeta in H. destruct (run _ _) as [out w].
  destruct H as (_ & Hw & Hout & _ & _ & Hs & Hf).
  split; [by apply Hout|]. split; [by rewrite Hw|].
  rewrite Hs, Hf. by vm_compute.
Defined.

(** ** The job list under a poller *)

Section PollerWrites.
Variable API : string.
Variable task_id : option Json.
Variable f : Json → Effect.

Let req : Request := Api.get_no_store (API ++ "/jobs/" ++ js_string_opt task_id).
Let body : Net bool := FeaturePage.pollJob_round API task_id (λ s, perform (f s)).

Lemma poll_rounds_with (rs : list Response) :
  ∀ (n : nat) (l : list Effect) (nr : nat),
  (length rs < n)%nat → forallb is_status_response rs = true →
  rounds n body {| future := answers rs; log := l; next_ref := nr |}
  = (if existsb snapshot_terminal (omap json rs) then Returned () else Pending,
     {| future := answers (drop (length (up_to_terminal (omap json rs))) rs);
        log := l ++ poll_log f req (omap json rs);
        next_ref := nr |}).
Proof.
  induction rs as [|r rs IH]; intros n l nr Hn Hs.
  - destruct n as [|n]; [simpl in Hn; lia|].
    cbn [rounds]. rewrite bind_apply. unfold body.
    rewrite (pollJob_round_unfold API task_id f). reflexivity.
  - destruct n as [|n]; [simpl in Hn; lia|].
    cbn [forallb] in Hs. apply andb_prop in Hs as [Hr Hrs].
    unfold is_status_response in Hr.
    destruct (json r) as [s|] eqn:Hj; [|done].
    assert (js_prop s "state" = inr (FeaturePage.snapshot_field s "state")) as Hstate
      by (unfold FeaturePage.snapshot_field; by destruct s).
    cbn [omap list_omap]. rewrite Hj. cbn [existsb up_to_terminal poll_log length].
    cbn [rounds]. rewrite bind_apply. unfold body at 1.
    rewrite (pollJob_round_unfold API task_id f). unfold poll_round_result.
    cbn [future log next_ref answers fmap list_fmap await is_answer].
    rewrite Hj, Hstate. fold req.
    change (FeaturePage.terminal (FeaturePage.snapshot_field s "state"))
      with (snapshot_terminal s).
    destruct (snapshot_terminal s) eqn:Ht; cbn [orb drop length].
    + unfold answers. cbv [mret Net_ret]. by rewrite <- !app_assoc.
    + fold (answers rs). rewrite IH by (simpl in Hn; lia || done).
      by rewrite <- !app_assoc.
Qed.

End PollerWrites.

Section LastSnapshot.

Lemma update_overwrites (task_id : option Json) (s1 s2 : Json) (jobs : list Jobs.JobEntry) :
  FeaturePage.apply_update (UpdateFrom task_id s2)
    (FeaturePage.apply_update (UpdateFrom task_id s1) jobs)
  = FeaturePage.apply_update (UpdateFrom task_id s2) jobs.
Proof.
  cbn [FeaturePage.apply_update]. rewrite <- list_fmap_compose.
  apply list_fmap_ext. intros i x _. cbn.
  destruct (strict_eq (Jobs.id x) task_id) eqn:Hid; cbn; by rewrite Hid.
Qed.

Lemma jobs_after_poll_log (task_id : option Json) (req : Request) (ss : list Json)
    (jobs : list Jobs.JobEntry) :
  FeaturePage.jobs_after (poll_log (λ s, SetJobs (UpdateFrom task_id s)) req ss) jobs
  = match last (up_to_terminal ss) with
    | Some s => FeaturePage.apply_update (UpdateFrom task_id s) jobs
    | None => jobs
    end.
Proof.
  revert jobs. induction ss as [|s ss IH]; intros jobs; [done|].
  cbn [poll_log up_to_terminal]. rewrite !jobs_after_cons.
  destruct (snapshot_terminal s); [done|].
  rewrite jobs_after_cons, IH.
  destruct (up_to_terminal ss) as [|s' rest] eqn:E; [done|].
  change (last (s :: s' :: rest)) with (last (s' :: rest)).
  destruct (last (s' :: rest)) as [s''|] eqn:El.
  - apply update_overwrites.
  - by apply last_None in El.
Qed.

End LastSnapshot.

(** X23 — Under the poller that [onGetStarted] starts, the job list shows
    the last snapshot seen and nothing of the earlier ones: after any
    sequence of status responses, the entries with the polled id carry the
    state, result and error of the last snapshot up to the first terminal
    one, and every other entry is as it was. *)
Theorem job_list_shows_last_snapshot
    (API : string) (task_id : option Json) (rs : list Response)
    (jobs : list Jobs.JobEntry) :
  forallb is_status_response rs = true →
  let seen := up_to_terminal (omap json rs) in
  let '(out, w) := run (FeaturePage.pollJob API task_id (FeaturePage.job_callback task_id))
                     (answers rs) in
  FeaturePage.jobs_after (log w) jobs
  = match last seen with
    | Some s => FeaturePage.apply_update (UpdateFrom task_id s) jobs
    | None => jobs
    end
  ∧ (out = Returned () ↔ existsb snapshot_terminal (omap json rs) = true)
  ∧ length (FeaturePage.jobs_after (log w) jobs) = length jobs.
Proof.
  intros Hs seen. subst seen.
  unfold run, FeaturePage.pollJob, while_true, world. cbn [future].
  change (FeaturePage.pollJob_round API task_id (FeaturePage.job_callback task_id))
    with (FeaturePage.pollJob_round API task_id
            (λ s, perform (SetJobs (UpdateFrom task_id s)))).
  rewrite (poll_rounds_with API task_id (λ s, SetJobs (UpdateFrom task_id s)) rs _ [] 0%nat);
    [|unfold answers; rewrite length_fmap; lia|done].
  cbn [log app]. rewrite jobs_after_poll_log.
  split; [done|]. split.
  - by destruct (existsb snapshot_terminal (omap json rs)).
  - destruct (last _); [|done]. cbn [FeaturePage.apply_update]. by rewrite length_fmap.
Qed.

Lemma job_list_shows_last_snapshot_witness :
  let '(out, w) := run (FeaturePage.pollJob Examples.API Examples.task
                          (FeaturePage.job_callback Examples.task))
                     (answers Examples.three_answers) in
  Jobs.status <$> FeaturePage.jobs_after (log w) Examples.one_job
  = [Some (JStr "SUCCESS")].
Proof.
  pose proof (job_list_shows_last_snapshot Examples.API Examples.task
                Examples.three_answers Examples.one_job eq_refl) as H.
  cbv zeta in H. destruct (run _ _) as [out w]. destruct H as (-> & _). by vm_compute.
Defined.

(** ** The merge guard *)

Section MergeGuard.
Variable API : string.

(** With both files the merge path does reach the network: the endpoint,
    the upload, the submission, the poller. *)
Example merge_with_both_files :
  let '(out, w) := run (FeaturePage.onGetStarted Examples.API "Merge Audio & Video" ""
                          [Examples.video_file; Examples.audio_file])
                     Examples.merge_timeline in
  out = Returned ()
  ∧ length (List.filter is_network (log w)) = 4%nat
  ∧ (Jobs.kind <$> FeaturePage.jobs_after (log w) [],
     Jobs.id <$> FeaturePage.jobs_after (log w) [])
    = ([Jobs.merge], [Some (JStr "t1")]).
Proof. by vm_compute. Qed.

Lemma merge_branch_rejects (tusEndpoint : string) (files : list File) (w : World) :
  (FeaturePage.pickVideoAudio files).1 = None ∨ (FeaturePage.pickVideoAudio files).2 = None →
  FeaturePage.merge_branch API tusEndpoint files w
  = perform (Alert "Please upload one video file and one audio file.") w.
Proof.
  unfold FeaturePage.merge_branch.
  destruct (FeaturePage.pickVideoAudio files) as [[v|] [a|]]; simpl; intros [?|?]; done.
Qed.

(** What [MergePanel] stores for an upload that [TusUploader] reports: the
    callback reads [name] and [tusUrl] of the upload URL, a string, which
    has neither. *)
Lemma stored_of_upload (file : File) (uploadURL : string) :
  TusUploader.upload_success MergePanel.stored file (Some uploadURL)
  = inr {| MergePanel.name := None; MergePanel.tusUrl := None |}.
Proof. reflexivity. Qed.

End MergeGuard.

(** C9 — A merge request in which the video or the audio reference is
    missing is not always rejected before the network.  In [FeaturePage]
    it is: [onGetStarted], on its merge branch, alerts and returns without
    a fetch, an upload or a poller when a file is missing.  In [MergePanel]
    the button is disabled until both pickers have reported an upload, but
    what the panel then holds are no references: [TusUploader] calls the
    callback with the upload URL and the file name, the callback reads
    [name] and [tusUrl] of its first argument, and both stored objects hold
    undefined for both.  The button is enabled, and a click posts a merge
    job that carries neither reference, only the offset. *)
Theorem C9_merge_panel_posts_without_references
    (API : string) (vfile afile : File) (vurl aurl : string) (timeline : list EnvEvent) :
  let panel :=
    MergePanel.upload_success MergePanel.AudioPicker afile (Some aurl)
      (MergePanel.upload_success MergePanel.VideoPicker vfile (Some vurl)
         MergePanel.initial) in
  MergePanel.video panel
  = Some {| MergePanel.name := None; MergePanel.tusUrl := None |}
  ∧ MergePanel.audio panel
    = Some {| MergePanel.name := None; MergePanel.tusUrl := None |}
  ∧ MergePanel.disabled (MergePanel.video panel) (MergePanel.audio panel) = false
  ∧ (∃ l, log (run (MergePanel.click API (MergePanel.video panel)
                      (MergePanel.audio panel)) timeline).2
          = Fetch (Api.post_json (API ++ "/merge") (JObj [("offset_sec", JNum 0)])) :: l)
  ∧ (∀ video audio,
       video = None ∨ audio = None →
       run (MergePanel.click API video audio) timeline = (Returned (), world timeline))
  ∧ (∀ featureName tusEndpoint files,
       FeaturePage.branch_of featureName = FeaturePage.MergeBranch →
       (FeaturePage.pickVideoAudio files).1 = None
       ∨ (FeaturePage.pickVideoAudio files).2 = None →
       let '(out, w) := run (FeaturePage.onGetStarted API featureName tusEndpoint files)
                          timeline in
       out = Returned ()
       ∧ List.filter is_network (log w) = []
       ∧ future w = timeline
       ∧ (files ≠ [] →
          log w = [SetIsProcessing true;
                   Alert "Please upload one video file and one audio file.";
                   SetIsProcessing false])).
Proof.
  intros panel. subst panel. unfold MergePanel.upload_success.
  rewrite !stored_of_upload. cbn [MergePanel.video MergePanel.audio MergePanel.initial].
  split; [done|]. split; [done|]. split; [done|]. split; [|split].
  - unfold MergePanel.click. cbn [MergePanel.disabled].
    change (MergePanel.disabled _ _) with false. cbv iota.
    unfold MergePanel.onClick, Api.createMerge.
    cbn [MergePanel.tusUrl defined_fields omap list_omap fmap option_fmap option_map
           fst snd].
    apply submission_first. intros j0.
    unfold MergePanel.poll_round, Api.getJob. adds_all.
  - intros video audio Hv. unfold run, MergePanel.click, MergePanel.disabled.
    destruct Hv as [-> | ->]; [done|]. by destruct video.
  - intros featureName tusEndpoint files Hb Hmiss.
    unfold run, FeaturePage.onGetStarted. rewrite Hb.
    destruct files as [|f files]; [done|].
    unfold mbind, Net_bind, try_finally, try_catch. cbn [perform world future log next_ref].
    rewrite (merge_branch_rejects API tusEndpoint (f :: files) _ Hmiss).
    done.
Qed.

Lemma C9_witness :
  let panel :=
    MergePanel.upload_success MergePanel.AudioPicker Examples.audio_file
      (Some "http://tus/files/2")
      (MergePanel.upload_success MergePanel.VideoPicker Examples.video_file
         (Some "http://tus/files/1") MergePanel.initial) in
  MergePanel.disabled (MergePanel.video panel) (MergePanel.audio panel) = false
  ∧ (λ r, (req_method r, req_url r, req_body r))
      <$> head (fetches (log (run (MergePanel.click Examples.API (MergePanel.video panel)
                                     (MergePanel.audio panel)) []).2))
    = Some (POST, "http://api.test/merge", JsonBody (JObj [("offset_sec", JNum 0)])).
Proof.
  pose proof (C9_merge_panel_posts_without_references Examples.API
                Examples.video_file Examples.audio_file
                "http://tus/files/1" "http://tus/files/2" []) as H.
  cbv zeta in H |- *. destruct H as (_ & _ & Hd & [l Hl] & _).
  split; [exact Hd|]. by rewrite Hl.
Defined.

(** ** The upload endpoint of [FeaturePage] *)

Section UploadEndpoint.
Variable API : string.

Lemma adds_bind_lift {A B} (P : Effect → Prop) (r : JsError + A) (f : A → Net B) :
  (∀ a, r = inr a → adds P (f a)) → adds P (lift r ≫= f).
Proof.
  intros Hf. destruct r as [e|a]; cbn [lift].
  - intros w. exists []. by rewrite app_nil_r.
  - intros w. apply (Hf a eq_refl w).
Qed.

Lemma discovery_normal {B} (f : string → Net B) :
  (∀ b, endsWith "/files" b = true → adds normal_endpoints (f b)) →
  adds normal_endpoints
    (ep ← Api.getTusEndpoint API; b ← lift (FeaturePage.ensureFilesEndpoint_js ep); f b).
Proof.
  intros Hf. apply adds_bind.
  - unfold Api.getTusEndpoint. adds_all.
  - intros ep. apply adds_bind_lift. intros b Hb. apply Hf.
    unfold FeaturePage.ensureFilesEndpoint_js in Hb.
    destruct ep as [[]|]; try done. injection Hb as <-. apply ensureFilesEndpoint_ends.
Qed.

Lemma fetch_once_normal : adds normal_endpoints (FeaturePage.fetch_once API).
Proof.
  unfold FeaturePage.fetch_once. apply adds_try_catch.
  - apply discovery_normal. intros b Hb. apply adds_perform. by right.
  - intros _. apply adds_perform. by left.
Qed.

Lemma uploadViaTus_normal (tusEndpoint : string) (files : list File) :
  adds normal_endpoints (FeaturePage.uploadViaTus API tusEndpoint files).
Proof.
  unfold FeaturePage.uploadViaTus.
  assert (∀ base, adds normal_endpoints
            (perform (UppyUpload (Some (JStr (FeaturePage.ensureFilesEndpoint base)))
                        (5 * 1024 * 1024) (Some [0; 1000; 3000; 5000; 10000]) files);;
             o ← await_event is_uploaded;
             match o with
             | UppyComplete successes failures =>
                 for_of failures (λ f,
                   perform (ConsoleError (Error "tus upload error"));;
                   perform (Alert ("Failed to upload " ++ file_name f)));;
                 mret successes
             | UppyError e => throw e
             end)) as Hrest.
  { intros base. apply adds_bind.
    - apply adds_perform. eexists. split; [done|apply ensureFilesEndpoint_ends].
    - intros _. adds_all. }
  apply adds_bind; [|intros base; apply Hrest].
  destruct tusEndpoint as [|c s]; [|apply adds_ret].
  apply discovery_normal. intros b Hb. apply adds_bind; [|intros _; apply adds_ret].
  apply adds_perform. by right.
Qed.

End UploadEndpoint.

(** X20 — [FeaturePage] only ever names a normalised upload endpoint:
    whatever the discovery answers and whatever endpoint the component state
    holds, every upload it starts goes to an endpoint that ends in [/files],
    and the state is set to such an endpoint or to the empty string; this
    holds for the effect run on mount, for [uploadViaTus] and for all of
    [onGetStarted].  [TusUploader] does not normalise: for a discovery that
    answers [http://tus/] it uploads to [http://tus/]. *)
Theorem featurepage_endpoints_normalised
    (API featureName tusEndpoint : string) (files : list File) :
  adds normal_endpoints (FeaturePage.fetch_once API)
  ∧ adds normal_endpoints (FeaturePage.uploadViaTus API tusEndpoint files)
  ∧ adds normal_endpoints (FeaturePage.onGetStarted API featureName tusEndpoint files)
  ∧ uploads (log (TusUploader.onPick API files
                    (world [Answer (Responded (Examples.response 200
                       (Some (JObj [("tus_endpoint", JStr "http://tus/")]))))])).2)
    = [Some (JStr "http://tus/")].
Proof.
  split; [apply fetch_once_normal|]. split; [apply uploadViaTus_normal|].
  split; [|done].
  unfold FeaturePage.onGetStarted. destruct files as [|f files]; [apply adds_ret|].
  unfold FeaturePage.split_branch, FeaturePage.merge_branch,
    FeaturePage.transcribe_branch, FeaturePage.rename_branch, FeaturePage.submit,
    Api.createSplit, Api.createMerge, Api.createTranscribe, Api.bulkRename.
  repeat first [apply uploadViaTus_normal | adds_step]; done.
Qed.

Section Discovery.
Variable API : string.

Lemma getTusEndpoint_world (w : World) :
  (Api.getTusEndpoint API w).2 = (fetch (Api.get_no_store (API ++ "/uploads/tus")) w).2.
Proof.
  unfold Api.getTusEndpoint. rewrite bind_apply.
  destruct (fetch _ w) as [[r| |] w1]; [|done|done]. cbn [snd].
  destruct (negb (ok r)); [done|]. rewrite bind_apply.
  destruct (response_json r) as [e|j]; [done|]. cbn [lift]. apply lift_world.
Qed.

Lemma upload_adds_no_discovery (endpoint : string) (files : list File) :
  adds no_discovery
    (perform (UppyUpload (Some (JStr endpoint)) (5 * 1024 * 1024)
                (Some [0; 1000; 3000; 5000; 10000]) files);;
     o ← await_event is_uploaded;
     match o with
     | UppyComplete successes failures =>
         for_of failures (λ f,
           perform (ConsoleError (Error "tus upload error"));;
           perform (Alert ("Failed to upload " ++ file_name f)));;
         mret successes
     | UppyError e => throw e
     end).
Proof. adds_all. Qed.

End Discovery.


(** ** The merge branch after the upload *)

Section MergeBranch.
Variable API : string.

Lemma for_of_alerts (failures : list File) (w : World) :
  for_of failures (λ f,
    perform (ConsoleError (Error "tus upload error"));;
    perform (Alert ("Failed to upload " ++ file_name f))) w
  = (Returned (),
     {| future := future w;
        log := log w ++ (failures ≫= λ f, [ConsoleError (Error "tus upload error");
                                            Alert ("Failed to upload " ++ file_name f)]);
        next_ref := next_ref w |}).
Proof.
  revert w. induction failures as [|f failures IH]; intros w.
  - cbn. rewrite app_nil_r. by destruct w.
  - cbn [for_of]. rewrite bind_apply.
    cbv [mbind Net_bind perform]. cbn [future log next_ref]. rewrite IH.
    cbn [future log next_ref mbind list_bind]. by rewrite <- !app_assoc.
Qed.

Lemma failure_alerts_readings (failures : list File) :
  let l := failures ≫= λ f, [ConsoleError (Error "tus upload error");
                              Alert ("Failed to upload " ++ file_name f)] in
  fetches l = [] ∧ appended l = [] ∧ uploaded_files l = []
  ∧ alerts l = ((λ f, "Failed to upload " ++ file_name f) <$> failures)
  ∧ dispatched l = [].
Proof.
  induction failures as [|f failures (IH1 & IH2 & IH3 & IH4 & IH5)]; [done|].
  cbn in *. repeat split; try done. by f_equal.
Qed.

Lemma uploadViaTus_completed (c : ascii) (s : string) (files : list File)
    (ups : list (File * string)) (failures : list File) (rest : list EnvEvent)
    (l : list Effect) (n : nat) :
  FeaturePage.uploadViaTus API (String c s) files
    {| future := Uploaded (UppyComplete ups failures) :: rest; log := l; next_ref := n |}
  = (Returned ups,
     {| future := rest;
        log := l ++ UppyUpload (Some (JStr (FeaturePage.ensureFilesEndpoint (String c s))))
                      (5 * 1024 * 1024) (Some [0; 1000; 3000; 5000; 10000]) files
                 :: (failures ≫= λ f, [ConsoleError (Error "tus upload error");
                                         Alert ("Failed to upload " ++ file_name f)]);
        next_ref := n |}).
Proof.
  unfold FeaturePage.uploadViaTus. rewrite bind_apply.
  change ((mret (String c s) : Net string) _) with
    (Returned (String c s),
     {| future := Uploaded (UppyComplete ups failures) :: rest; log := l; next_ref := n |}).
  cbv beta iota zeta. rewrite bind_apply.
  unfold perform at 1. cbn [future log next_ref]. rewrite bind_apply.
  unfold await_event. cbn [future log next_ref await is_uploaded].
  rewrite bind_apply, for_of_alerts. cbn [future log next_ref].
  cbv [mret Net_ret]. by rewrite <- !app_assoc.
Qed.

End MergeBranch.



(** ** The parts that the completion call lists *)

Section UploadParts.
Import ApiClient.
Variable this : APIClient.
Variable file : File.

Lemma uploadPart_settle_etag (partInfo : PresignedUrl) (o : FetchOutcome) (etag : string) :
  uploadPart_settle partInfo o = inr etag → etag ≠ "".
Proof.
  unfold uploadPart_settle. destruct o as [r|]; [|done].
  destruct (negb (ok r)); [done|].
  destruct (headers_get "ETag" (headers r)) as [[|c s]|]; try done.
  by intros [= <-].
Qed.

Lemma started_add_log (l : list Effect) (st : UploadState) :
  puts l = [] → started (add_log l st) = started st.
Proof.
  intros H. unfold started, add_log. cbn [ulog]. by rewrite puts_app, H, app_nil_r.
Qed.

Lemma parts_start : parts_inv this (start this file).
Proof. done. Qed.

Lemma parts_fail (e : JsError) (st : UploadState) :
  complete_calls this (ulog st) = [] →
  match uploadInfo st with
  | None => parts st = ∅
  | Some info => parts_sound info st
  end →
  parts_inv this (fail e st).
Proof.
  intros Hcc H. unfold parts_inv, parts_sound, started, fail, set_phase, add_log in *.
  cbn [uploadInfo parts phase ulog inflight].
  destruct (uploadInfo st) as [info|]; [|done].
  rewrite puts_app, complete_calls_app, Hcc. cbn. rewrite app_nil_r.
  split; [done|]. split; [|by left]. left. split; [done|]. eauto.
Qed.

Lemma parts_loop_head (info : MultipartUploadInfo) (i : nat) (st : UploadState) :
  uploadInfo st = Some info → inflight st = [] →
  started st = Nat.min i (length (presigned_urls info)) →
  complete_calls this (ulog st) = [] →
  parts_sound info st → parts_cover info st →
  parts_inv this (loop_head this file info i st).
Proof.
  intros Hinfo Hin Hst Hcc Hsound Hcover.
  destruct (decide (i < length (presigned_urls info))%nat) as [Hi|Hi].
  - rewrite loop_head_batch by done. cbv zeta.
    set (batch := take _ _).
    unfold parts_inv, parts_sound, parts_cover, started in *.
    cbn [uploadInfo ulog inflight parts phase]. rewrite Hinfo, Hin. cbn [app].
    rewrite puts_app, puts_put_batch, length_app, length_fmap.
    assert (length (puts (ulog st)) = i) as Hsti by lia.
    split; [|split].
    + intros idx v Hv.
      destruct (Hsound idx v Hv) as (k & p & ? & ? & ? & ? & Hk & Hnin).
      exists k, p. repeat split; try done; [lia|]. rewrite elem_of_seq. lia.
    + right. intros k p Hk Hnin Hp. rewrite elem_of_seq in Hnin.
      apply (Hcover k p); [lia|rewrite Hin; apply not_elem_of_nil|done].
    + left. by rewrite complete_calls_app, complete_calls_put_batch, Hcc.
  - rewrite loop_head_end by lia.
    unfold parts_inv, parts_sound, parts_cover, started, set_phase, add_log,
      completion_request in *.
    cbn [uploadInfo parts phase ulog inflight]. rewrite Hinfo.
    rewrite puts_app.
    assert (puts [Fetch (request_fetch this "/uploads/s3/complete"
                           (complete_options (key info) (upload_id info)
                              (parts_array (parts st))))] = []) as -> by done.
    rewrite app_nil_r.
    split; [done|]. split; [by right|].
    right. rewrite complete_calls_app, Hcc. cbn [app].
    unfold complete_calls. cbn [fetches omap list_omap List.filter].
    by rewrite complete_is_complete_call.
Qed.

Lemma parts_step (st : UploadState) (ev : Settle) :
  upload_inv this file st → fetch_shape this file st → parts_inv this st →
  parts_inv this (step this file st ev).
Proof.
  intros [Hab H] (Hf & Hcc & Hprog & Hdone) Hparts.
  destruct ev as [[|k|] o]; cbn [step].
  - destruct (phase st) eqn:Hph; try done.
    destruct (uploadInfo st) as [info0|] eqn:Hinfo; [destruct H as (_ & _ & _ & []) |].
    destruct H as (Hin & Hputs & _).
    assert (complete_calls this (ulog st) = []) as Hnone by (by apply Hprog).
    unfold parts_inv in Hparts. rewrite Hinfo in Hparts.
    assert (∀ e, parts_inv this (fail e st)) as Hfail.
    { intros e. apply parts_fail; [done|]. by rewrite Hinfo. }
    unfold initiated.
    destruct (request_settle o) as [e|j]; [done|].
    destruct (as_MultipartUploadInfo j) as [info|]; [|done].
    destruct (valid_array_length (maxConcurrent_of info)); [|done].
    apply parts_loop_head; unfold parts_sound, parts_cover, started;
      cbn [uploadInfo inflight ulog parts]; try done.
    + by rewrite Hputs.
    + intros idx v Hv. rewrite Hparts in Hv. by rewrite lookup_empty in Hv.
    + intros k p Hk. rewrite Hputs in Hk. simpl in Hk. lia.
  - case_decide as Hk; [|done]. unfold part_settled.
    destruct (uploadInfo st) as [info|] eqn:Hinfo; [|done].
    destruct (presigned_urls info !! k) as [partInfo|] eqn:Hpart; [|done].
    destruct H as (Hm & Hputs & Hle & Hph).
    assert (complete_calls this (ulog st) = []) as Hnone.
    { destruct Hcc as [?|(_ & Hin0 & _)]; [done|]. rewrite Hin0 in Hk.
      by apply elem_of_nil in Hk. }
    unfold parts_inv in Hparts. rewrite Hinfo in Hparts.
    destruct Hparts as (Hsound & Hcover & _).
    assert (k < started st)%nat as Hkst.
    { destruct (phase st) as [|i waiting| | |e0].
      - done.
      - destruct Hph as (Hin0 & _ & _ & _ & Hmem). rewrite Hin0 in Hk.
        by apply Hmem in Hk as [_ ?].
      - destruct Hph as [Hin0 _]. rewrite Hin0 in Hk. by apply elem_of_nil in Hk.
      - destruct Hph as [Hin0 _]. rewrite Hin0 in Hk. by apply elem_of_nil in Hk.
      - destruct Hph as [_ Hmem]. by apply Hmem. }
    assert (∀ x, x ∉ inflight st → x ∉ remove k (inflight st)) as Hrem.
    { intros x Hx. unfold remove. rewrite list_elem_of_filter. tauto. }
    assert (∀ x, x ≠ k → x ∉ remove k (inflight st) → x ∉ inflight st) as Hrem'.
    { intros x Hne Hx Hin0. apply Hx. unfold remove. rewrite list_elem_of_filter.
      by split. }
    assert (k ∉ remove k (inflight st)) as Hkrem.
    { unfold remove. rewrite list_elem_of_filter. tauto. }
    destruct (uploadPart_settle partInfo o) as [e|etag] eqn:Hsettle.
    + (* the part failed *)
      assert (∀ ph ui, parts_sound info
                {| phase := ph; uploadInfo := ui;
                   inflight := remove k (inflight st); parts := parts st;
                   completedBytes := completedBytes st; ulog := ulog st |}) as Hsound1.
      { intros ph ui idx v Hv.
        destruct (Hsound idx v Hv) as (k' & p & ? & ? & ? & ? & ? & ?).
        exists k', p. repeat split; try done. by apply Hrem. }
      cbn [phase]. destruct (phase st) as [|i waiting| | |e0] eqn:Hphase.
      * done.
      * apply parts_fail; [done|]. cbn [uploadInfo]. apply Hsound1.
      * destruct Hph as [Hin0 _]. rewrite Hin0 in Hk. by apply elem_of_nil in Hk.
      * destruct Hph as [Hin0 _]. rewrite Hin0 in Hk. by apply elem_of_nil in Hk.
      * unfold parts_inv. cbn [uploadInfo ulog phase].
        split; [apply Hsound1|]. split; [|by left]. left. split; [done|]. eauto.
    + (* the part succeeded *)
      pose proof (uploadPart_settle_etag _ _ _ Hsettle) as Hetag.
      unfold part_done. cbn [phase ulog uploadInfo inflight parts completedBytes].
      set (l2 := (ulog st ++ _)%list).
      assert (puts l2 = puts (ulog st)) as Hp2
        by (unfold l2; rewrite puts_app; cbn; by rewrite app_nil_r).
      assert (complete_calls this l2 = []) as Hcc2
        by (unfold l2; by rewrite complete_calls_app, Hnone).
      set (parts2 := <[part_number partInfo - 1 := (part_number partInfo, etag)]> (parts st)).
      assert (∀ ph ui cb, parts_sound info
                {| phase := ph; uploadInfo := ui;
                   inflight := remove k (inflight st); parts := parts2;
                   completedBytes := cb; ulog := l2 |}) as Hsound2.
      { intros ph ui cb idx v Hv. cbn [parts] in Hv. unfold parts2 in Hv.
        unfold started. cbn [ulog inflight]. rewrite Hp2. fold (started st).
        destruct (decide (idx = part_number partInfo - 1)) as [->|Hne].
        - rewrite lookup_insert_eq in Hv. injection Hv as <-.
          exists k, partInfo. by repeat split.
        - rewrite lookup_insert_ne in Hv by done.
          destruct (Hsound idx v Hv) as (k' & p & ? & ? & ? & ? & ? & ?).
          exists k', p. repeat split; try done. by apply Hrem. }
      assert (∀ ph ui cb, parts_cover info st →
                parts_cover info
                  {| phase := ph; uploadInfo := ui;
                     inflight := remove k (inflight st); parts := parts2;
                     completedBytes := cb; ulog := l2 |}) as Hcover2.
      { intros ph ui cb Hc k' p Hk' Hnin Hp. cbn [parts]. unfold parts2.
        unfold started in Hk'. cbn [ulog] in Hk'. rewrite Hp2 in Hk'.
        fold (started st) in Hk'. cbn [inflight] in Hnin.
        apply lookup_insert_is_Some'.
        destruct (decide (k' = k)) as [->|Hne].
        - rewrite Hpart in Hp. injection Hp as <-. by left.
        - right. apply (Hc k' p); [done|by apply Hrem'|done]. }
      destruct (phase st) as [|i waiting| | |e0] eqn:Hphase.
      * done.
      * destruct Hph as (Hin & Hne & Hlenw & Hst & Hmem).
        destruct Hcover as [[_ [e0 ?]]|Hcover]; [done|].
        destruct (remove k waiting) as [|x waiting'] eqn:Hremw.
        -- apply parts_loop_head; cbn [uploadInfo inflight ulog]; try done.
           ++ by rewrite Hin, Hremw.
           ++ unfold started. cbn [ulog]. rewrite Hp2. fold (started st). rewrite Hst. lia.
           ++ by apply Hcover2.
        -- unfold parts_inv, set_phase. cbn [uploadInfo ulog phase].
           split; [apply Hsound2|]. split; [right; by apply Hcover2|by left].
      * destruct Hph as [Hin0 _]. rewrite Hin0 in Hk. by apply elem_of_nil in Hk.
      * destruct Hph as [Hin0 _]. rewrite Hin0 in Hk. by apply elem_of_nil in Hk.
      * unfold parts_inv. cbn [uploadInfo ulog phase].
        split; [apply Hsound2|]. split; [|by left]. left. split; [done|]. eauto.
  - destruct (phase st) eqn:Hph; try done.
    unfold completed.
    destruct (uploadInfo st) as [info|] eqn:Hinfo.
    + destruct H as (_ & _ & _ & Hin & Hst).
      unfold parts_inv in Hparts. rewrite ?Hinfo in Hparts.
      destruct Hparts as (Hsound & Hcover & Hreq).
      destruct Hcover as [[_ [e0 ?]]|Hcover]; [congruence|].
      assert (∀ e, parts_inv this (fail e st)) as Hfail.
      { intros e.
        unfold parts_inv, parts_sound, parts_cover, started, fail, set_phase, add_log,
          completion_request in *.
        cbn [uploadInfo parts phase ulog inflight]. rewrite Hinfo.
        rewrite puts_app, complete_calls_app. cbn. rewrite !app_nil_r.
        split; [done|]. split; [by right|done]. }
      destruct (request_settle o) as [e|j]; [apply Hfail|].
      destruct (s3_url (key info)) as [e|s]; [apply Hfail|].
      unfold parts_inv, parts_sound, parts_cover, started, set_phase,
        completion_request in *.
      cbn [uploadInfo parts phase ulog inflight]. rewrite Hinfo.
      split; [done|]. split; [by right|done].
    + destruct H as (_ & _ & [?|[e ?]]); congruence.
Qed.

Lemma parts_run (events : list Settle) :
  parts_inv this (uploadWithS3Multipart this file events).
Proof.
  unfold uploadWithS3Multipart.
  assert (∀ st, upload_inv this file st → fetch_shape this file st → parts_inv this st →
                parts_inv this (foldl (step this file) st events)) as H.
  { induction events as [|ev events IH]; intros st Hinv Hsh Hp; [done|].
    cbn [foldl]. apply IH; [by apply upload_inv_step|by apply fetch_shape_step|
                            by apply parts_step]. }
  apply H; [apply upload_inv_start|apply fetch_shape_start|apply parts_start].
Qed.

End UploadParts.

Lemma parts_length_dense (m : gmap Z (Z * string)) (n : nat) :
  (∀ i, (i < n)%nat → is_Some (m !! Z.of_nat i)) →
  (∀ idx, is_Some (m !! idx) → 0 <= idx < Z.of_nat n) →
  ApiClient.parts_length m = Z.of_nat n.
Proof.
  intros Hall Hdom.
  assert (0 <= ApiClient.parts_length m
          ∧ (∀ idx, is_Some (m !! idx) → idx + 1 <= ApiClient.parts_length m)
          ∧ (ApiClient.parts_length m = 0
             ∨ ∃ idx, is_Some (m !! idx) ∧ ApiClient.parts_length m = idx + 1))
    as (H0 & Hub & Hmax).
  { unfold ApiClient.parts_length. clear Hall Hdom.
    apply (map_fold_weak_ind
             (λ r m, 0 <= r ∧ (∀ idx, is_Some (m !! idx) → idx + 1 <= r)
                     ∧ (r = 0 ∨ ∃ idx, is_Some (m !! idx) ∧ r = idx + 1))).
    - split; [lia|]. split; [|by left]. intros idx [v Hv]. by rewrite lookup_empty in Hv.
    - intros i x m0 r Hnone (H0 & Hub & Hmax). split; [lia|]. split.
      + intros idx Hidx. apply lookup_insert_is_Some' in Hidx as [<-|Hidx]; [lia|].
        specialize (Hub idx Hidx). lia.
      + destruct (decide (r <= i + 1)) as [Hle|Hgt].
        * right. exists i. split; [apply lookup_insert_is_Some'; by left|lia].
        * destruct Hmax as [->|(idx & Hidx & ->)]; [left; lia|].
          right. exists idx. split; [apply lookup_insert_is_Some'; by right|lia]. }
  destruct n as [|n].
  - destruct Hmax as [?|(idx & Hidx & _)]; [done|]. apply Hdom in Hidx. lia.
  - specialize (Hub _ (Hall n ltac:(lia))).
    destruct Hmax as [?|(idx & Hidx & Heq)]; [lia|]. apply Hdom in Hidx. lia.
Qed.

(** X21 — When the parts are numbered 1 to n in order, the completion
    call, if it is made, lists every part, in order and without a gap: its
    [parts] array has n entries, and entry number i is the record of part
    i with a non-empty ETag.  It is the only completion call of the
    upload. *)
Theorem completion_lists_every_part
    (this : ApiClient.APIClient) (file : File) (events : list ApiClient.Settle)
    (info : ApiClient.MultipartUploadInfo) :
  let st := ApiClient.uploadWithS3Multipart this file events in
  let n := length (ApiClient.presigned_urls info) in
  ApiClient.uploadInfo st = Some info →
  ApiClient.part_number <$> ApiClient.presigned_urls info
    = (λ i, Z.of_nat i + 1) <$> seq 0 n →
  complete_calls this (ApiClient.ulog st) ≠ [] →
  ∃ listed,
    complete_calls this (ApiClient.ulog st)
    = [ApiClient.request_fetch this "/uploads/s3/complete"
         (ApiClient.complete_options (ApiClient.key info) (ApiClient.upload_id info) listed)]
    ∧ length listed = n
    ∧ ∀ i, (i < n)%nat →
        ∃ etag, etag ≠ ""
                ∧ listed !! i = Some (JObj [("part_number", JNum (Z.of_nat i + 1));
                                            ("etag", JStr etag)]).
Proof.
  intros st n Hinfo Hnum Hcalled.
  pose proof (parts_run this file events) as Hparts.
  destruct (fetch_shape_run this file events) as (_ & Hcc & _).
  fold st in Hparts, Hcc. unfold parts_inv in Hparts. rewrite Hinfo in Hparts.
  destruct Hparts as (Hsound & Hcover & Hreq).
  destruct Hcc as [?|(_ & Hin & info' & Hinfo' & Hst)]; [done|].
  assert (info' = info) as -> by congruence. fold n in Hst.
  destruct Hcover as [[? _]|Hcover]; [done|].
  destruct Hreq as [?|Hreq]; [done|].
  assert (∀ k p, ApiClient.presigned_urls info !! k = Some p →
                 ApiClient.part_number p = Z.of_nat k + 1) as Hnumber.
  { intros k p Hp.
    assert ((ApiClient.part_number <$> ApiClient.presigned_urls info) !! k
            = Some (ApiClient.part_number p)) as Hl by (by rewrite list_lookup_fmap, Hp).
    rewrite Hnum, list_lookup_fmap in Hl.
    apply lookup_lt_Some in Hp. fold n in Hp.
    rewrite lookup_seq_lt in Hl by done. by injection Hl as <-. }
  assert (∀ i, (i < n)%nat → ∃ v, ApiClient.parts st !! Z.of_nat i = Some v
                                  ∧ v.1 = Z.of_nat i + 1 ∧ v.2 ≠ "") as Hentry.
  { intros i Hi.
    destruct (lookup_lt_is_Some_2 (ApiClient.presigned_urls info) i Hi) as [p Hp].
    destruct (Hcover i p) as [v Hv]; [lia|rewrite Hin; apply not_elem_of_nil|done|].
    rewrite (Hnumber i p Hp) in Hv. replace (Z.of_nat i + 1 - 1) with (Z.of_nat i) in Hv by lia.
    exists v. split; [done|].
    destruct (Hsound _ _ Hv) as (k' & p' & Hp' & Hidx & Hv1 & Hv2 & _).
    rewrite Hv1. split; [lia|done]. }
  assert (ApiClient.parts_length (ApiClient.parts st) = Z.of_nat n) as Hlen.
  { apply parts_length_dense.
    - intros i Hi. destruct (Hentry i Hi) as (v & Hv & _). by eexists.
    - intros idx [v Hv]. destruct (Hsound _ _ Hv) as (k & p & Hp & -> & _ & _ & Hk & _).
      rewrite (Hnumber k p Hp). lia. }
  exists (ApiClient.parts_array (ApiClient.parts st)).
  split; [exact Hreq|]. unfold ApiClient.parts_array. rewrite Hlen, Nat2Z.id.
  split; [by rewrite length_fmap, length_seq|].
  intros i Hi. destruct (Hentry i Hi) as ([num etag] & Hv & Hnum' & Hetag).
  exists etag. split; [done|].
  rewrite list_lookup_fmap, lookup_seq_lt by done.
  cbn [fmap option_fmap option_map Nat.add].
  rewrite Hv. cbn in Hnum'. by rewrite Hnum'.
Qed.

Lemma completion_lists_every_part_witness :
  let st := ApiClient.uploadWithS3Multipart Examples.client Examples.media
              Examples.all_parts_ok in
  ∃ listed,
    complete_calls Examples.client (ApiClient.ulog st)
    = [ApiClient.request_fetch Examples.client "/uploads/s3/complete"
         (ApiClient.complete_options (Some (JStr "raw/a.mp4")) (Some (JStr "U"))
            listed)]
    ∧ length listed = 3%nat.
Proof.
  destruct (completion_lists_every_part Examples.client Examples.media
              Examples.all_parts_ok Scenarios.info_12MB
              ltac:(by vm_compute) ltac:(by vm_compute) ltac:(by vm_compute))
    as (listed & H1 & H2 & _).
  by exists listed.
Defined.

(** ** The progress callbacks *)

Section UploadReports.
Import ApiClient.
Variable this : APIClient.
Variable file : File.

Lemma chunk_len_nonneg (chunkSize fileSize : Z) (partInfo : PresignedUrl) :
  0 <= chunk_len chunkSize fileSize partInfo.
Proof. unfold chunk_len, chunk_range, blob_slice. cbn. lia. Qed.

Lemma non_decreasing_snoc (l : list Z) (y : Z) :
  non_decreasing l → Forall (λ x, x <= y) l → non_decreasing (l ++ [y]).
Proof.
  intros Hl Hall i j a b Hij Hi Hj.
  destruct (decide (j < length l)%nat) as [Hjl|Hjl].
  - rewrite lookup_app_l in Hi, Hj by lia. by apply (Hl i j).
  - rewrite lookup_app_r in Hj by lia.
    assert (b = y) as ->.
    { destruct (j - length l)%nat; cbn in Hj; [by injection Hj|done]. }
    destruct (decide (i < length l)%nat) as [Hil|Hil].
    + rewrite lookup_app_l in Hi by lia.
      by apply (proj1 (Forall_lookup _ _) Hall i a).
    + rewrite lookup_app_r in Hi by lia.
      destruct (i - length l)%nat; cbn in Hi; [injection Hi as <-; lia|done].
Qed.

Lemma reports_quiet (l : list Effect) (st st' : UploadState) :
  progress_reports l = [] → part_reports l = [] →
  ulog st' = (ulog st ++ l)%list → completedBytes st' = completedBytes st →
  reports_inv file st → reports_inv file st'.
Proof.
  intros Hp Hq Hl Hc. unfold reports_inv, progress_reports, part_reports in *.
  rewrite Hl, Hc, !omap_app, Hp, Hq, !app_nil_r. done.
Qed.

Lemma reports_loop_head (info : MultipartUploadInfo) (i : nat) (st : UploadState) :
  reports_inv file st → reports_inv file (loop_head this file info i st).
Proof.
  intros H. destruct (decide (i < length (presigned_urls info))%nat) as [Hi|Hi].
  - rewrite loop_head_batch by done. cbv zeta.
    eapply (reports_quiet _ st); [| |reflexivity|reflexivity|done].
    + unfold progress_reports. clear. induction (take _ _) as [|p l IH]; [done|]. by cbn.
    + unfold part_reports. clear. induction (take _ _) as [|p l IH]; [done|]. by cbn.
  - rewrite loop_head_end by lia.
    by eapply (reports_quiet _ st); [| |reflexivity|reflexivity|done].
Qed.

Lemma reports_fail (e : JsError) (st st1 : UploadState) :
  ulog st1 = ulog st → completedBytes st1 = completedBytes st →
  reports_inv file st → reports_inv file (fail e st1).
Proof.
  intros Hl Hc H. eapply (reports_quiet [ConsoleError e] st); try done.
  unfold fail, set_phase, add_log. cbn [ulog]. by rewrite Hl.
Qed.

Lemma reports_part_done (info : MultipartUploadInfo) (partInfo : PresignedUrl)
    (etag : string) (st st1 : UploadState) :
  ulog st1 = ulog st → completedBytes st1 = completedBytes st →
  reports_inv file st → reports_inv file (part_done file info partInfo etag st1).
Proof.
  intros Hl Hc (Hsorted & Hall & Hlast & Hparts & Hlen).
  pose proof (chunk_len_nonneg (chunkSize_of info) (file_size file) partInfo) as Hpos.
  assert (0 <= completedBytes st) as H0.
  { destruct Hlast as [Hlast|[_ ->]]; [|done].
    apply last_Some in Hlast as [l' Hl'].
    rewrite Hl' in Hall. apply Forall_app in Hall as [_ Hall].
    apply Forall_cons in Hall as [[? _] _]. cbn in *. lia. }
  unfold reports_inv, part_done, progress_reports, part_reports in *.
  cbn [ulog completedBytes]. rewrite Hl, Hc, !omap_app. cbn [omap list_omap].
  split; [|split; [|split; [|split]]].
  - rewrite fmap_app. apply non_decreasing_snoc; [done|]. apply Forall_fmap.
    eapply Forall_impl; [exact Hall|]. intros r [[? ?] _]. cbn. lia.
  - apply Forall_app. split.
    + eapply Forall_impl; [exact Hall|]. intros r [[? ?] ?]. split; [lia|done].
    + constructor; [|done]. cbn. split; [lia|done].
  - left. by rewrite last_snoc.
  - apply Forall_app. split; [done|]. by constructor.
  - rewrite !length_app. cbn. lia.
Qed.

Lemma reports_step (st : UploadState) (ev : Settle) :
  reports_inv file st → reports_inv file (step this file st ev).
Proof.
  intros H. destruct ev as [[|k|] o]; cbn [step].
  - destruct (phase st); try done. unfold initiated.
    destruct (request_settle o) as [e|j]; [by apply (reports_fail e st)|].
    destruct (as_MultipartUploadInfo j) as [info|]; [|by apply (reports_fail _ st)].
    destruct (valid_array_length _); [|by apply (reports_fail _ st)].
    apply reports_loop_head.
    by eapply (reports_quiet [] st); [| |by rewrite app_nil_r|reflexivity|done].
  - case_decide; [|done]. unfold part_settled.
    destruct (uploadInfo st) as [info|]; [|done].
    destruct (presigned_urls info !! k) as [partInfo|]; [|done].
    set (st1 := {| phase := phase st; uploadInfo := Some info;
                   inflight := remove k (inflight st); parts := parts st;
                   completedBytes := completedBytes st; ulog := ulog st |}).
    assert (reports_inv file st1) as H1
      by (by eapply (reports_quiet [] st); [| |by rewrite app_nil_r|reflexivity|done]).
    destruct (uploadPart_settle partInfo o) as [e|etag].
    + cbn [phase]. destruct (phase st); try done. by apply (reports_fail e st).
    + assert (reports_inv file (part_done file info partInfo etag st1)) as H2
        by (by apply (reports_part_done info partInfo etag st)).
      destruct (phase (part_done file info partInfo etag st1)) as [|i waiting| | |];
        try done.
      destruct (remove k waiting); [by apply reports_loop_head|].
      by eapply (reports_quiet [] (part_done file info partInfo etag st1));
        [| |by rewrite app_nil_r|reflexivity|done].
  - destruct (phase st); try done. unfold completed.
    destruct (request_settle o) as [e|j]; [by apply (reports_fail e st)|].
    destruct (uploadInfo st) as [info|]; [|done].
    destruct (s3_url (key info)) as [e|s]; [by apply (reports_fail e st)|].
    by eapply (reports_quiet [] st); [| |by rewrite app_nil_r|reflexivity|done].
Qed.

Lemma reports_run (events : list Settle) :
  reports_inv file (uploadWithS3Multipart this file events).
Proof.
  unfold uploadWithS3Multipart.
  assert (∀ st, reports_inv file st →
                reports_inv file (foldl (step this file) st events)) as H.
  { induction events as [|ev events IH]; intros st Hst; [done|].
    cbn [foldl]. by apply IH, reports_step. }
  apply H. unfold reports_inv, start. cbn.
  split; [by intros i j a b _ Hi|]. split; [constructor|]. split; [by right|].
  split; [constructor|done].
Qed.

(** *** One report per part *)

Lemma part_reports_app (l1 l2 : list Effect) :
  part_reports (l1 ++ l2) = (part_reports l1 ++ part_reports l2)%list.
Proof. unfold part_reports. apply omap_app. Qed.

Lemma progress_reports_app (l1 l2 : list Effect) :
  progress_reports (l1 ++ l2) = (progress_reports l1 ++ progress_reports l2)%list.
Proof. unfold progress_reports. apply omap_app. Qed.

Lemma reports_put_batch (chunkSize : Z) (batch : list PresignedUrl) :
  part_reports (Fetch ∘ put_request file chunkSize <$> batch) = []
  ∧ progress_reports (Fetch ∘ put_request file chunkSize <$> batch) = [].
Proof. induction batch as [|p batch [IH1 IH2]]; [done|]. by cbn. Qed.

Lemma length_remove_one (k : nat) (l : list nat) :
  NoDup l → k ∈ l → length (remove k l) = pred (length l).
Proof.
  unfold remove. induction l as [|x l IH]; intros Hnd Hin; [by apply elem_of_nil in Hin|].
  apply NoDup_cons in Hnd as [Hx Hnd]. rewrite filter_cons.
  destruct (decide (x ≠ k)) as [Hne|Heq].
  - apply elem_of_cons in Hin as [->|Hin]; [done|].
    cbn [length]. rewrite IH by done. destruct l; [by apply elem_of_nil in Hin|done].
  - assert (x = k) as -> by (destruct (decide (x = k)); [done|by destruct Heq]).
    cbn [length Nat.pred]. f_equal.
    clear IH Hin Hnd. induction l as [|y l IH]; [done|].
    rewrite filter_cons. apply not_elem_of_cons in Hx as [Hy Hx].
    rewrite decide_True by done. cbn [length]. by rewrite IH.
Qed.

(** What the head of the loop does to a state: it sends the PUTs of the
    next batch, which become outstanding, and reports nothing. *)
Lemma loop_head_counts (info : MultipartUploadInfo) (i : nat) (st : UploadState) :
  let st' := loop_head this file info i st in
  part_reports (ulog st') = part_reports (ulog st)
  ∧ progress_reports (ulog st') = progress_reports (ulog st)
  ∧ completedBytes st' = completedBytes st
  ∧ (length (inflight st') + started st = length (inflight st) + started st')%nat
  ∧ ∀ e, phase st' ≠ Rejected e.
Proof.
  intros st'. subst st'.
  destruct (decide (i < length (presigned_urls info))%nat) as [Hi|Hi].
  - rewrite loop_head_batch by done. cbv zeta. unfold started. cbn [ulog inflight phase].
    destruct (reports_put_batch (chunkSize_of info)
                (take (Z.to_nat (maxConcurrent_of info)) (drop i (presigned_urls info))))
      as [H1 H2].
    rewrite part_reports_app, progress_reports_app, H1, H2, !app_nil_r.
    rewrite puts_app, puts_put_batch, !length_app, length_fmap, length_seq.
    repeat split; try done. lia.
  - rewrite loop_head_end by lia. unfold set_phase, add_log, started.
    cbn [ulog inflight phase completedBytes].
    rewrite part_reports_app, progress_reports_app, puts_app. cbn.
    rewrite !app_nil_r. by repeat split.
Qed.

(** What an event adds to the reports: a part that completes reports 100
    and the new total; nothing else reports. *)
Lemma step_reports (st : UploadState) (ev : Settle) :
  let st' := step this file st ev in
  match completes_part st ev with
  | Some (info, p) =>
      let done := completedBytes st + chunk_len (chunkSize_of info) (file_size file) p in
      part_reports (ulog st') = (part_reports (ulog st) ++ [(part_number p, 100)])%list
      ∧ progress_reports (ulog st')
        = (progress_reports (ulog st) ++ [(done, file_size file)])%list
      ∧ completedBytes st' = done
  | None =>
      part_reports (ulog st') = part_reports (ulog st)
      ∧ progress_reports (ulog st') = progress_reports (ulog st)
      ∧ completedBytes st' = completedBytes st
  end.
Proof.
  intros st'. subst st'.
  assert (∀ e s, part_reports (ulog (fail e s)) = part_reports (ulog s)
                 ∧ progress_reports (ulog (fail e s)) = progress_reports (ulog s)
                 ∧ completedBytes (fail e s) = completedBytes s) as Hfail.
  { intros e s. unfold fail, set_phase, add_log. cbn [ulog completedBytes].
    rewrite part_reports_app, progress_reports_app. cbn. by rewrite !app_nil_r. }
  destruct ev as [[|k|] o]; cbn [step completes_part].
  - destruct (phase st); try done. unfold initiated.
    destruct (request_settle o) as [e|j]; [apply Hfail|].
    destruct (as_MultipartUploadInfo j) as [info|]; [|apply Hfail].
    destruct (valid_array_length _); [|apply Hfail].
    match goal with
    | |- context [loop_head _ _ _ ?i ?s] =>
        destruct (loop_head_counts info i s) as (H1 & H2 & H3 & _)
    end.
    by rewrite H1, H2, H3.
  - case_decide as Hk; [|done]. unfold part_settled.
    destruct (uploadInfo st) as [info|] eqn:Hinfo; cbn [mbind option_bind]; [|done].
    destruct (presigned_urls info !! k) as [p|] eqn:Hp; cbn [mbind option_bind]; [|done].
    set (st1 := {| phase := phase st; uploadInfo := Some info;
                   inflight := remove k (inflight st); parts := parts st;
                   completedBytes := completedBytes st; ulog := ulog st |}).
    destruct (uploadPart_settle p o) as [e|etag].
    + cbn [phase]. destruct (phase st); try done. apply (Hfail e st1).
    + cbv zeta.
      assert (part_reports (ulog (part_done file info p etag st1))
              = (part_reports (ulog st) ++ [(part_number p, 100)])%list
              ∧ progress_reports (ulog (part_done file info p etag st1))
                = (progress_reports (ulog st)
                   ++ [(completedBytes st
                        + chunk_len (chunkSize_of info) (file_size file) p,
                        file_size file)])%list
              ∧ completedBytes (part_done file info p etag st1)
                = completedBytes st + chunk_len (chunkSize_of info) (file_size file) p)
        as Hdone.
      { unfold part_done. cbn [ulog completedBytes].
        by rewrite part_reports_app, progress_reports_app. }
      destruct (phase (part_done file info p etag st1)) as [|i waiting| | |]; try done.
      destruct (remove k waiting); [|done].
      match goal with
      | |- context [loop_head _ _ _ ?i ?s] =>
          destruct (loop_head_counts info i s) as (H1 & H2 & H3 & _)
      end.
      by rewrite H1, H2, H3.
  - destruct (phase st); try done. unfold completed.
    destruct (request_settle o) as [e|j]; [apply Hfail|].
    destruct (uploadInfo st) as [info|]; [|done].
    destruct (s3_url (key info)) as [e|s]; [apply Hfail|done].
Qed.

Lemma count_rejected (e : JsError) (st : UploadState) :
  (length (part_reports (ulog st)) + length (inflight st) <= started st)%nat →
  reports_count (fail e st).
Proof.
  intros H. unfold reports_count, fail, set_phase, add_log, started in *.
  cbn [ulog inflight phase]. rewrite part_reports_app, puts_app. cbn.
  rewrite !app_nil_r. split; [done|]. intros Hne. by destruct (Hne e).
Qed.

Lemma count_step (st : UploadState) (ev : Settle) :
  upload_inv this file st → progress_inv file st →
  reports_count st → reports_count (step this file st ev).
Proof.
  intros [_ Hinv] Hpr Hc. pose proof Hc as [Hle Heq].
  destruct ev as [[|k|] o]; cbn [step].
  - destruct (phase st) eqn:Hph; try exact Hc. unfold initiated.
    destruct (request_settle o) as [e|j]; [by apply count_rejected|].
    destruct (as_MultipartUploadInfo j) as [info|]; [|by apply count_rejected].
    destruct (valid_array_length _); [|by apply count_rejected].
    match goal with
    | |- context [loop_head _ _ _ ?i ?s] =>
        destruct (loop_head_counts info i s) as (H1 & _ & _ & H4 & H5)
    end.
    unfold started in *. cbn [ulog inflight] in H1, H4.
    assert ((length (part_reports (ulog st)) + length (inflight st))%nat
            = length (puts (ulog st))) as Heq'.
    { apply Heq. intros e. rewrite ?Hph. done. }
    unfold reports_count, started. rewrite H1. split; [lia|]. intros _. lia.
  - case_decide as Hk; [|exact Hc]. unfold part_settled.
    destruct (uploadInfo st) as [info|] eqn:Hinfo; [|exact Hc].
    destruct (presigned_urls info !! k) as [p|] eqn:Hp; [|exact Hc].
    unfold progress_inv in Hpr. rewrite Hinfo in Hpr. destruct Hpr as [Hnd _].
    pose proof (length_remove_one k (inflight st) Hnd Hk) as Hlen.
    assert (0 < length (inflight st))%nat as Hpos.
    { destruct (inflight st); [by apply elem_of_nil in Hk|simpl; lia]. }
    set (st1 := {| phase := phase st; uploadInfo := Some info;
                   inflight := remove k (inflight st); parts := parts st;
                   completedBytes := completedBytes st; ulog := ulog st |}).
    destruct (uploadPart_settle p o) as [e|etag].
    + cbn [phase].
      assert (length (part_reports (ulog st1)) + length (inflight st1)
              <= started st1)%nat as Hle1.
      { unfold st1, started in *. cbn [ulog inflight]. lia. }
      destruct (phase st) as [|i waiting| | |e0] eqn:Hph;
        try (by apply count_rejected).
      * by destruct Hinv as (_ & _ & _ & []).
      * destruct Hinv as (_ & _ & _ & Hin & _). rewrite Hin in Hk.
        by apply elem_of_nil in Hk.
      * destruct Hinv as (_ & _ & _ & Hin & _). rewrite Hin in Hk.
        by apply elem_of_nil in Hk.
      * unfold reports_count. split; [exact Hle1|]. intros Hne.
        destruct (Hne e0). unfold st1. by cbn [phase].
    + set (st2 := part_done file info p etag st1).
      assert (length (part_reports (ulog st2)) = S (length (part_reports (ulog st))))
        as Hrep.
      { unfold st2, st1, part_done. cbn [ulog]. rewrite part_reports_app, length_app.
        cbn. lia. }
      assert (started st2 = started st) as Hst2.
      { unfold st2, st1, part_done, started. cbn [ulog]. rewrite puts_app. cbn.
        by rewrite app_nil_r. }
      assert (length (inflight st2) = pred (length (inflight st))) as Hin2
        by (unfold st2, st1, part_done; by cbn [inflight]).
      assert (phase st2 = phase st) as Hph2 by done.
      assert (reports_count st2) as [Hle2 Heq2].
      { unfold reports_count. rewrite Hrep, Hst2, Hin2, Hph2.
        split; [lia|]. intros Hne. specialize (Heq Hne). lia. }
      rewrite Hph2.
      destruct (phase st) as [|i waiting| | |e0] eqn:Hph; try by split.
      * destruct (remove k waiting).
        -- match goal with
           | |- context [loop_head _ _ _ ?i ?s] =>
               destruct (loop_head_counts info i s) as (H1 & _ & _ & H4 & H5)
           end.
           fold st2 in H1, H4, H5 |- *.
           assert ((length (part_reports (ulog st2)) + length (inflight st2))%nat
                   = started st2) as Heq2'.
           { apply Heq2. intros e. rewrite ?Hph2, ?Hph. done. }
           unfold reports_count. rewrite H1. split; [lia|]. intros _. lia.
        -- unfold reports_count, set_phase, started in *. cbn [ulog inflight phase].
           split; [done|]. intros _. apply Heq2. intros e. rewrite ?Hph2, ?Hph. done.
  - destruct (phase st) eqn:Hph; try exact Hc. unfold completed.
    destruct (request_settle o) as [e|j]; [by apply count_rejected|].
    destruct (uploadInfo st) as [info|]; [|done].
    destruct (s3_url (key info)) as [e|s]; [by apply count_rejected|].
    unfold reports_count, set_phase, started in *. cbn [ulog inflight phase].
    split; [done|]. intros _. apply Heq. intros e. rewrite ?Hph. done.
Qed.

Lemma count_run (events : list Settle) :
  reports_count (uploadWithS3Multipart this file events).
Proof.
  unfold uploadWithS3Multipart.
  assert (∀ st, upload_inv this file st → progress_inv file st → reports_count st →
                reports_count (foldl (step this file) st events)) as H.
  { induction events as [|ev events IH]; intros st Hinv Hpr Hc; [done|].
    cbn [foldl]. apply IH; [by apply upload_inv_step|by apply progress_step|
                            by apply count_step]. }
  apply H; [apply upload_inv_start|apply progress_start|].
  unfold reports_count, start, started. by cbn.
Qed.

End UploadReports.

(** X25 — The progress callbacks of an upload.  An event that completes
    a part, and no other event, reports: the part reports 100 and the bytes
    completed, raised by the size of its chunk, are reported against
    [file.size]; this also holds when the upload has been rejected in the
    meantime.  Every part started is outstanding or has reported, once:
    reports and outstanding parts together are as many as the parts
    started, unless a part has failed, which never reports.  So the bytes
    reported never go back, are never negative and never beyond
    [completedBytes], and the last report is the bytes completed; before
    the first report nothing is counted. *)
Theorem progress_reports_never_decrease
    (this : ApiClient.APIClient) (file : File) (events : list ApiClient.Settle)
    (ev : ApiClient.Settle) :
  let st := ApiClient.uploadWithS3Multipart this file events in
  let st' := ApiClient.step this file st ev in
  let rs := progress_reports (ApiClient.ulog st) in
  non_decreasing (fst <$> rs)
  ∧ Forall (λ r, 0 <= r.1 <= ApiClient.completedBytes st ∧ r.2 = file_size file) rs
  ∧ (last rs = Some (ApiClient.completedBytes st, file_size file)
     ∨ (rs = [] ∧ ApiClient.completedBytes st = 0))
  ∧ Forall (λ p, p.2 = 100) (part_reports (ApiClient.ulog st))
  ∧ length (part_reports (ApiClient.ulog st)) = length rs
  ∧ reports_count st
  ∧ match completes_part st ev with
    | Some (info, p) =>
        let done := ApiClient.completedBytes st
                    + ApiClient.chunk_len (ApiClient.chunkSize_of info) (file_size file) p in
        part_reports (ApiClient.ulog st')
        = (part_reports (ApiClient.ulog st) ++ [(ApiClient.part_number p, 100)])%list
        ∧ progress_reports (ApiClient.ulog st') = (rs ++ [(done, file_size file)])%list
        ∧ ApiClient.completedBytes st' = done
    | None =>
        part_reports (ApiClient.ulog st') = part_reports (ApiClient.ulog st)
        ∧ progress_reports (ApiClient.ulog st') = rs
        ∧ ApiClient.completedBytes st' = ApiClient.completedBytes st
    end.
Proof.
  intros st st' rs. pose proof (reports_run this file events) as H.
  unfold reports_inv in H. fold st in H. cbv zeta in H. fold rs in H.
  destruct H as (H1 & H2 & H3 & H4 & H5).
  split; [done|]. split; [done|]. split; [done|]. split; [done|]. split; [done|].
  split; [apply count_run|]. apply step_reports.
Qed.

Lemma progress_reports_never_decrease_witness :
  let st := ApiClient.uploadWithS3Multipart Examples.client Examples.media
              [Examples.initiated_ok; Examples.part_ok 1] in
  let st' := ApiClient.step Examples.client Examples.media st (Examples.part_ok 0) in
  part_reports (ApiClient.ulog st') = [(2, 100); (1, 100)]
  ∧ progress_reports (ApiClient.ulog st')
    = [(5 * ApiClient.MB, 12 * ApiClient.MB); (10 * ApiClient.MB, 12 * ApiClient.MB)]
  ∧ (length (part_reports (ApiClient.ulog st)) + length (ApiClient.inflight st))%nat
    = started st.
Proof.
  pose proof (progress_reports_never_decrease Examples.client Examples.media
                [Examples.initiated_ok; Examples.part_ok 1] (Examples.part_ok 0)) as H.
  cbv zeta in H |- *.
  destruct H as (_ & _ & _ & _ & _ & [_ Hcount] & Hstep).
  change (completes_part _ _) with (Some (Scenarios.info_12MB, Scenarios.part_1)) in Hstep.
  cbv beta iota zeta in Hstep. destruct Hstep as (Hp & Hr & _).
  rewrite Hp, Hr. split; [by vm_compute|]. split; [by vm_compute|].
  apply Hcount. intros e. by vm_compute.
Defined.
